(** * AI_ToolBox: the Groq gateway and its feature functions

    A shallow embedding of [app/services/groq_service.py] (class
    [GroqService]) and of [summarize_video] from
    [pages/Youtube_summarizer.py].

    - A Python [str] is a list of Unicode code points ([list N]).
    - Python values that travel through the program (JSON documents,
      request parameters, result dictionaries) are the trees of [value];
      a [dict] keeps its insertion order.
    - A Python function that may raise returns [exn + A]; the functions
      that talk to the remote service run in the monad [M], whose state
      holds the list objects on the heap and the requests sent so far.
    - The remote completion endpoint and the transcript source are
      external collaborators: they are Section variables. *)

From Stdlib Require Import String Ascii.
From Stdlib Require Import ZArith NArith List Lia Bool.
From stdpp Require Import base option list gmap.

Local Open Scope N_scope.

(** ** Text *)

Abbreviation str := (list N).

(** An ASCII literal as a Python [str]. *)
Definition py (s : string) : str :=
  map N_of_ascii (list_ascii_of_string s).
Arguments py s%_string.

(** As [py], reading each [^] as a double quote: the prompt templates
    hold double quotes and no [^] of their own. *)
Definition pyq (s : string) : str :=
  map (fun c => if c =? 94 then 34 else c) (py s).
Arguments pyq s%_string.

(** [len(s)] and [s[:n]]. *)
Definition len (s : str) : Z := Z.of_nat (length s).
Definition slice_to (n : nat) (s : str) : str := take n s.

(** [s.startswith(p)]. *)
Fixpoint starts_with (p s : str) : bool :=
  match p, s with
  | [], _ => true
  | a :: p', b :: s' => (a =? b) && starts_with p' s'
  | _ :: _, [] => false
  end.

(** [p in s] for two strings: [p] occurs in [s]. *)
Fixpoint str_contains (p s : str) : bool :=
  starts_with p s ||
  match s with
  | [] => false
  | _ :: s' => str_contains p s'
  end.

(** The characters Python counts as whitespace ([str.isspace], the class
    [\s] of a [str] pattern, what [str.strip] removes). *)
Definition is_space (c : N) : bool :=
  ((9 <=? c) && (c <=? 13)) || ((28 <=? c) && (c <=? 32))
  || (c =? 133) || (c =? 160) || (c =? 5760)
  || ((8192 <=? c) && (c <=? 8202))
  || (c =? 8232) || (c =? 8233) || (c =? 8239) || (c =? 8287)
  || (c =? 12288).

Fixpoint lstrip (s : str) : str :=
  match s with
  | c :: s' => if is_space c then lstrip s' else s
  | [] => []
  end.

(** [s.strip()]. *)
Definition strip (s : str) : str := rev (lstrip (rev (lstrip s))).

(** [sep.join(items)]. *)
Fixpoint join (sep : str) (items : list str) : str :=
  match items with
  | [] => []
  | [x] => x
  | x :: rest => x ++ sep ++ join sep rest
  end.

(** ** Values *)

#[warnings="-register-all"]
Inductive value :=
| VNone
| VBool (b : bool)
| VInt (z : Z)
| VFloat (lexeme : str)   (* a float, kept as the literal that denotes it *)
| VStr (s : str)
| VList (l : list value)
| VDict (d : list (str * value)).

Abbreviation dict := (list (str * value)).

(** [d.get(k)] / [d[k]] on a dictionary. *)
Fixpoint dict_get (k : str) (d : dict) : option value :=
  match d with
  | [] => None
  | (k', v) :: d' => if bool_decide (k' = k) then Some v else dict_get k d'
  end.

(** [k in d]. *)
Definition dict_has (k : str) (d : dict) : bool :=
  match dict_get k d with Some _ => true | None => false end.

(** [d[k] = v]: an existing key keeps its place, a new one goes last. *)
Fixpoint dict_set (k : str) (v : value) (d : dict) : dict :=
  match d with
  | [] => [(k, v)]
  | (k', v') :: d' =>
      if bool_decide (k' = k) then (k', v) :: d' else (k', v') :: dict_set k v d'
  end.

Definition dict_keys (d : dict) : list str := map fst d.

(** [None] or a string, as a value. *)
Definition opt_str (o : option str) : value :=
  match o with Some s => VStr s | None => VNone end.

(** [x or default] for an optional string: [None] and [""] are falsy. *)
Definition str_or (x : option str) (default : str) : str :=
  match x with
  | Some (c :: s) => c :: s
  | _ => default
  end.

(** ** Exceptions

    Only subclasses of [Exception] are modelled; [str(e)] is kept with
    the exception. *)

Inductive exn_class :=
| PlainException      (* Exception itself *)
| JSONDecodeError
| TypeError
| AttributeError
| KeyError
| ImportError
| RecursionError
| ValueError
| OtherError.         (* any other subclass of Exception *)

Record exn := Exn { exn_class_of : exn_class; exn_str : str }.

Definition is_json_decode_error (e : exn) : bool :=
  match exn_class_of e with JSONDecodeError => true | _ => false end.

Definition is_import_error (e : exn) : bool :=
  match exn_class_of e with ImportError => true | _ => false end.

(** ** [json.loads]

    Python's JSON decoder on a [str] document, as the standard library's
    scanner proceeds (the accelerated scanner of CPython 3.11):
    [scan_once] reads one value at the head of the text and returns it
    with the rest.  The decoder meets two limits of the interpreter.
    Nested calls are charged to the interpreter's recursion limit:
    every opening of an object or of an array takes one level, and so
    does the call that looks up [NaN], [Infinity] or [-Infinity]; where
    no level is left the decoder raises [RecursionError].  Building a
    [JSONDecodeError] takes levels too, so where too few are left the
    error that comes out is a [RecursionError] instead.  The conversion
    of an integer literal raises [ValueError] when the literal has more
    digits than [sys.get_int_max_str_digits()] allows. *)

(** The levels of recursion left where the scanner starts; the levels
    that building a [JSONDecodeError] takes (three in CPython 3.11);
    and [sys.get_int_max_str_digits()], 0 where the interpreter sets no
    limit. *)
Record Limits := mkLimits {
  recursion_left : nat;
  error_levels : nat;
  int_max_str_digits : nat
}.

Inductive pres (A : Type) :=
| Fuel                          (* the model's recursion budget ran out *)
| Stop                          (* no value starts here: StopIteration *)
| Bad                           (* the scanner raises JSONDecodeError *)
| Deep                          (* the decoder raises RecursionError *)
| Long                          (* the decoder raises ValueError *)
| Good (a : A) (rest : str).
Arguments Fuel {A}.
Arguments Stop {A}.
Arguments Bad {A}.
Arguments Deep {A}.
Arguments Long {A}.
Arguments Good {A} a rest.

(** An error message raised by the scanner with [depth] levels left. *)
Definition raise_errmsg {A} (lim : Limits) (depth : nat) : pres A :=
  if (error_levels lim <=? depth)%nat then Bad else Deep.

(** The decoder's whitespace: space, tab, line feed, carriage return. *)
Definition is_json_ws (c : N) : bool :=
  (c =? 32) || (c =? 9) || (c =? 10) || (c =? 13).

Fixpoint skip_ws (s : str) : str :=
  match s with
  | c :: s' => if is_json_ws c then skip_ws s' else s
  | [] => []
  end.

Definition is_digit (c : N) : bool := (48 <=? c) && (c <=? 57).

Definition hex_digit (c : N) : option N :=
  if (48 <=? c) && (c <=? 57) then Some (c - 48)
  else if (65 <=? c) && (c <=? 70) then Some (c - 55)
  else if (97 <=? c) && (c <=? 102) then Some (c - 87)
  else None.

Definition hex4 (a b c d : N) : option N :=
  match hex_digit a, hex_digit b, hex_digit c, hex_digit d with
  | Some x, Some y, Some z, Some w => Some (((x * 16 + y) * 16 + z) * 16 + w)
  | _, _, _, _ => None
  end.

(** The one-letter escapes: quote, backslash, slash, b, f, n, r, t. *)
Definition simple_escape (c : N) : option N :=
  if c =? 34 then Some 34
  else if c =? 92 then Some 92
  else if c =? 47 then Some 47
  else if c =? 98 then Some 8
  else if c =? 102 then Some 12
  else if c =? 110 then Some 10
  else if c =? 114 then Some 13
  else if c =? 116 then Some 9
  else None.

Definition high_surrogate (u : N) : bool := (55296 <=? u) && (u <=? 56319).
Definition low_surrogate (u : N) : bool := (56320 <=? u) && (u <=? 57343).
Definition join_surrogates (hi lo : N) : N :=
  65536 + (hi - 55296) * 1024 + (lo - 56320).

(** [scanstring] in strict mode; [s] starts after the opening quote and
    [acc] holds the decoded characters so far, last first. *)
Fixpoint scanstring (s : str) (acc : str) : pres str :=
  match s with
  | [] => Bad
  | c :: s1 =>
      if c =? 34 then Good (rev acc) s1
      else if c =? 92 then
        match s1 with
        | [] => Bad
        | e :: s2 =>
            if e =? 117 then
              match s2 with
              | h1 :: h2 :: h3 :: h4 :: s3 =>
                  match hex4 h1 h2 h3 h4 with
                  | None => Bad
                  | Some u =>
                      if high_surrogate u then
                        match s3 with
                        | b :: x :: g1 :: g2 :: g3 :: g4 :: s4 =>
                            if (b =? 92) && (x =? 117) then
                              match hex4 g1 g2 g3 g4 with
                              | None => Bad
                              | Some u2 =>
                                  if low_surrogate u2
                                  then scanstring s4 (join_surrogates u u2 :: acc)
                                  else scanstring s3 (u :: acc)
                              end
                            else scanstring s3 (u :: acc)
                        | _ => scanstring s3 (u :: acc)
                        end
                      else scanstring s3 (u :: acc)
                  end
              | _ => Bad
              end
            else
              match simple_escape e with
              | Some x => scanstring s2 (x :: acc)
              | None => Bad
              end
        end
      else if c <? 32 then Bad
      else scanstring s1 (c :: acc)
  end.

(** The longest run of decimal digits at the head of [s], and the rest. *)
Fixpoint span_digits (s : str) : str * str :=
  match s with
  | c :: s' =>
      if is_digit c then let (d, r) := span_digits s' in (c :: d, r)
      else ([], s)
  | [] => ([], [])
  end.

Definition digits_value (ds : str) : Z :=
  fold_left (fun a c => (a * 10 + Z.of_N (c - 48))%Z) ds 0%Z.

(** The decoder's number pattern, group by group: an optional minus
    and either a lone 0 or a digit 1-9 followed by digits; an optional
    fraction (a dot and at least one digit); an optional exponent (e or
    E, an optional sign, at least one digit).  Each function returns the
    text it matched and the rest. *)
Definition match_int (s : str) : option (bool * str * str) :=
  let '(neg, s1) :=
    match s with
    | c :: s' => if c =? 45 then (true, s') else (false, s)
    | [] => (false, s)
    end in
  match s1 with
  | c :: s2 =>
      if c =? 48 then Some (neg, [c], s2)
      else if is_digit c then
        let (d, r) := span_digits s2 in Some (neg, c :: d, r)
      else None
  | [] => None
  end.

Definition match_frac (s : str) : str * str :=
  match s with
  | c :: s1 =>
      if c =? 46 then
        match span_digits s1 with
        | ([], _) => ([], s)
        | (d, r) => (c :: d, r)
        end
      else ([], s)
  | [] => ([], s)
  end.

Definition match_exp (s : str) : str * str :=
  match s with
  | c :: s1 =>
      if (c =? 101) || (c =? 69) then
        let '(sg, s2) :=
          match s1 with
          | x :: s2 => if (x =? 43) || (x =? 45) then ([x], s2) else ([], s1)
          | [] => ([], s1)
          end in
        match span_digits s2 with
        | ([], _) => ([], s)
        | (d, r) => (c :: sg ++ d, r)
        end
      else ([], s)
  | [] => ([], s)
  end.

(** [int(literal)] refuses a literal of [digits] digits when that is
    more than 640, a limit is set, and it is more than the limit. *)
Definition int_too_long (max_str_digits digits : nat) : bool :=
  (640 <? digits)%nat && (0 <? max_str_digits)%nat
  && (max_str_digits <? digits)%nat.

(** A number: an [int] when it has neither fraction nor exponent, a
    [float] otherwise.  [None]: the text starts no number. *)
Definition match_number (max_str_digits : nat) (s : str) : option (pres value) :=
  match match_int s with
  | None => None
  | Some (neg, i, s1) =>
      let (f, s2) := match_frac s1 in
      let (e, s3) := match_exp s2 in
      let sign := if neg then [45] else [] in
      Some (match f, e with
            | [], [] =>
                if int_too_long max_str_digits (length i) then Long
                else Good (VInt (if neg then - digits_value i else digits_value i)) s3
            | _, _ => Good (VFloat (sign ++ i ++ f ++ e)) s3
            end)
  end.

(** [NaN], [Infinity] and [-Infinity] are looked up by a call, which
    takes one level. *)
Definition parse_constant (depth : nat) (v : value) (rest : str) : pres value :=
  match depth with
  | O => Deep
  | S _ => Good v rest
  end.

(** [scan_once], [JSONObject] (from the first key on) and [JSONArray]
    (from the first item on), with [depth] levels of recursion left.
    An object is built as [dict(pairs)]: a repeated key keeps its first
    place and its last value. *)
Fixpoint scan_once (lim : Limits) (n : nat) (depth : nat) (s : str)
  : pres value :=
  match n with
  | O => Fuel
  | S n =>
      match s with
      | [] => Stop
      | c :: s1 =>
          if c =? 34 then
            match scanstring s1 [] with
            | Good k r => Good (VStr k) r
            | _ => raise_errmsg lim depth
            end
          else if c =? 123 then
            match depth with
            | O => Deep
            | S depth =>
                match skip_ws s1 with
                | c1 :: s2 =>
                    if c1 =? 125 then Good (VDict []) s2
                    else if c1 =? 34 then parse_members lim n depth s2 []
                    else raise_errmsg lim depth
                | [] => raise_errmsg lim depth
                end
            end
          else if c =? 91 then
            match depth with
            | O => Deep
            | S depth =>
                match skip_ws s1 with
                | c1 :: s2 =>
                    if c1 =? 93 then Good (VList []) s2
                    else parse_items lim n depth (c1 :: s2) []
                | [] => Stop
                end
            end
          else if starts_with (py "null") s then Good VNone (drop 4 s)
          else if starts_with (py "true") s then Good (VBool true) (drop 4 s)
          else if starts_with (py "false") s then Good (VBool false) (drop 5 s)
          else
            match match_number (int_max_str_digits lim) s with
            | Some res => res
            | None =>
                if starts_with (py "NaN") s
                then parse_constant depth (VFloat (py "NaN")) (drop 3 s)
                else if starts_with (py "Infinity") s
                then parse_constant depth (VFloat (py "Infinity")) (drop 8 s)
                else if starts_with (py "-Infinity") s
                then parse_constant depth (VFloat (py "-Infinity")) (drop 9 s)
                else Stop
            end
      end
  end
with parse_members (lim : Limits) (n : nat) (depth : nat) (s : str) (acc : dict)
  : pres value :=
  match n with
  | O => Fuel
  | S n =>
      match scanstring s [] with
      | Good key s1 =>
          match skip_ws s1 with
          | c :: s2 =>
              if c =? 58 then
                match scan_once lim n depth (skip_ws s2) with
                | Good v s3 =>
                    match skip_ws s3 with
                    | c2 :: s4 =>
                        if c2 =? 125 then Good (VDict (dict_set key v acc)) s4
                        else if c2 =? 44 then
                          match skip_ws s4 with
                          | c3 :: s5 =>
                              if c3 =? 34
                              then parse_members lim n depth s5 (dict_set key v acc)
                              else raise_errmsg lim depth
                          | [] => raise_errmsg lim depth
                          end
                        else raise_errmsg lim depth
                    | [] => raise_errmsg lim depth
                    end
                | Stop => Stop
                | Bad => Bad
                | Deep => Deep
                | Long => Long
                | Fuel => Fuel
                end
              else raise_errmsg lim depth
          | [] => raise_errmsg lim depth
          end
      | _ => raise_errmsg lim depth
      end
  end
with parse_items (lim : Limits) (n : nat) (depth : nat) (s : str)
    (acc : list value) : pres value :=
  match n with
  | O => Fuel
  | S n =>
      match scan_once lim n depth s with
      | Good v s1 =>
          match skip_ws s1 with
          | c :: s2 =>
              if c =? 93 then Good (VList (acc ++ [v])) s2
              else if c =? 44 then parse_items lim n depth (skip_ws s2) (acc ++ [v])
              else raise_errmsg lim depth
          | [] => raise_errmsg lim depth
          end
      | Stop => Stop
      | Bad => Bad
      | Deep => Deep
      | Long => Long
      | Fuel => Fuel
      end
  end.

(** An error that [json.loads] raises from its own code, [above]
    frames over the scanner. *)
Definition decode_error (lim : Limits) (above : nat) : exn_class :=
  if (error_levels lim <=? recursion_left lim + above)%nat
  then JSONDecodeError else RecursionError.

(** [json.loads(s)]: no byte-order mark, one value between optional
    whitespace, nothing after it.  The result is the value, or the
    class of the error raised. *)
Definition json_loads (lim : Limits) (s : str) : exn_class + value :=
  if starts_with [65279] s then inl (decode_error lim 3)
  else
    match scan_once lim (S (2 * length s)) (recursion_left lim) (skip_ws s) with
    | Good v rest =>
        match skip_ws rest with
        | [] => inr v
        | _ :: _ => inl (decode_error lim 2)
        end
    | Stop => inl (decode_error lim 1)
    | Deep => inl RecursionError
    | Long => inl ValueError
    | Bad | Fuel => inl JSONDecodeError
    end.

(** ** The fenced-block patterns

    [_extract_json] searches with two patterns,
    [```json\s*(.*?)\s*```] and [```\s*(.*?)\s*```], under [re.DOTALL].
    The pieces below are the matcher's backtracking steps for exactly
    the constructs these patterns use; each takes the continuation [k]
    that matches what follows in the pattern. *)

(** A literal at the head of [s]: the rest after it. *)
Fixpoint lit (p s : str) : option str :=
  match p, s with
  | [], _ => Some s
  | a :: p', b :: s' => if a =? b then lit p' s' else None
  | _ :: _, [] => None
  end.

(** A greedy starred class: the longest run first, giving back one
    character at a time while what follows fails. *)
Fixpoint star_greedy {A} (p : N -> bool) (s : str) (k : str -> option A)
  : option A :=
  match s with
  | c :: s' =>
      if p c then
        match star_greedy p s' k with
        | Some r => Some r
        | None => k s
        end
      else k s
  | [] => k s
  end.

(** The lazy group [(.*?)] where the dot matches every character: the
    shortest capture first, one character more while what follows
    fails.  [seen] is the capture so far, last character first. *)
Fixpoint group_lazy {A} (s : str) (seen : str) (k : str -> str -> option A)
  : option A :=
  match k (rev seen) s with
  | Some r => Some r
  | None =>
      match s with
      | c :: s' => group_lazy s' (c :: seen) k
      | [] => None
      end
  end.

Definition fence : str := py "```".

(** [tag\s*(.*?)\s*```] matched at the head of [s]: group 1. *)
Definition match_fenced (tag : str) (s : str) : option str :=
  match lit tag s with
  | None => None
  | Some s1 =>
      star_greedy is_space s1 (fun s2 =>
        group_lazy s2 [] (fun g s3 =>
          star_greedy is_space s3 (fun s4 =>
            match lit fence s4 with
            | Some _ => Some g
            | None => None
            end)))
  end.

(** [re.search]: the match at the first position that has one. *)
Fixpoint re_search {A} (m : str -> option A) (s : str) : option A :=
  match m s with
  | Some g => Some g
  | None =>
      match s with
      | _ :: s' => re_search m s'
      | [] => None
      end
  end.

(** ** State and effects *)

(** The list objects alive on the heap, by address, and the keyword
    arguments of every call made to the completion endpoint, oldest
    first. *)
Record State := mkState {
  heap : gmap nat (list value);
  sent : list dict
}.

Definition M (A : Type) : Type := State -> (exn + A) * State.

Definition ret {A} (a : A) : M A := fun st => (inr a, st).
Definition raise {A} (e : exn) : M A := fun st => (inl e, st).
Definition bind {A B} (m : M A) (f : A -> M B) : M B :=
  fun st =>
    match m st with
    | (inr a, st') => f a st'
    | (inl e, st') => (inl e, st')
    end.

(** [try: body / except Exception as e: handler]. *)
Definition try_except {A} (body : M A) (handler : exn -> M A) : M A :=
  fun st =>
    match body st with
    | (inl e, st') => handler e st'
    | (inr a, st') => (inr a, st')
    end.

(** [lst.append(v)] on the list object at [a]. *)
Definition heap_append (a : nat) (v : value) (h : gmap nat (list value))
  : gmap nat (list value) :=
  alter (fun l => l ++ [v]) a h.

(** A new list object. *)
Definition heap_alloc (l : list value) (h : gmap nat (list value))
  : nat * gmap nat (list value) :=
  let a := fresh (dom h) in (a, <[a := l]> h).

(** [for msg in src: dst.append(msg)]: the iterator reads the list at
    [src] afresh at each step.  [None]: the loop is still running when
    the fuel is spent. *)
Fixpoint for_append (fuel : nat) (src dst : nat) (i : nat)
    (h : gmap nat (list value)) : option (gmap nat (list value)) :=
  match fuel with
  | O => None
  | S fuel =>
      match default [] (h !! src) !! i with
      | None => Some h
      | Some msg => for_append fuel src dst (S i) (heap_append dst msg h)
      end
  end.

(** ** Constants of [GroqService] *)

Definition TEXT_MODEL : str := py "openai/gpt-oss-120b".
Definition IMAGE_MODEL : str := py "meta-llama/llama-4-maverick-17b-128e-instruct".
Definition DEFAULT_MODEL : str := py "openai/gpt-oss-120b".

(** [{"role": role, "content": content}] *)
Definition role_message (role : str) (content : value) : value :=
  VDict [(py "role", VStr role); (py "content", content)].

(** The prompt of [check_grammar]. *)
Definition grammar_prompt (text : str) : str :=
  py "You are a professional editor and an expert grammar tutor. Check the following text for grammar and spelling errors, factual errors, word choice issues, and suggest better word combinations.
        
Original text: "
  ++ text
  ++ pyq "

Provide your response in the following JSON format:

```json
{
  ^corrected_text^: ^The corrected version of the text with ONLY grammatical errors fixed. DO NOT completely paraphrase the text.^,
  ^corrections^: [
    {
      ^error^: ^The original error text (the exact part of the sentence that is incorrect)^,
      ^suggestion^: ^The corrected version of that specific part^,
      ^type^: ^The type of error (e.g., spelling, grammar, punctuation, subject-verb agreement, verb tense, noun form, article usage, factual error, word choice, word combination)^,
      ^explanation^: ^A brief, clear explanation of why this specific part is an error and how the suggestion fixes it.^,
      ^grammar_rule^: {
        ^rule_name^: ^A concise name for the grammar rule that was violated^,
        ^description^: ^A detailed but simple, beginner-friendly explanation of the grammar rule.^,
        ^correct_examples^: [^Example 1^, ^Example 2^],
        ^incorrect_examples^: [^Incorrect example 1^, ^Incorrect example 2^]
      }
    }
  ]
}
```

IMPORTANT INSTRUCTIONS:
1. For the ^corrected_text^, maintain the original text structure and only fix actual errors. DO NOT completely rewrite or paraphrase the text.
2. Only suggest complete paraphrasing when the correction type is specifically ^word combination^.
3. For grammatical errors, make minimal changes necessary to fix the specific issue.
4. Identify actual errors only - don't suggest stylistic changes unless they're grammatically incorrect.
5. For each correction, the ^error^ field must contain the exact text from the original that contains the error.

If there are no errors in the original text, return the original text as ^corrected_text^ and an empty array for ^corrections^.
Ensure the JSON is well-formed.".

(** The prompt of [paraphrase]. *)
Definition paraphrase_prompt (text : str) (style : str) : str :=
  py "You are an expert language paraphraser. Your task is to paraphrase the given text according to the specified style.

Original text: "
  ++ text
  ++ py "
Style: "
  ++ style
  ++ py "

Style Guidelines:
- Fluency: Make the text flow naturally and smoothly, focusing on readability.
- Humanize: Make the text sound more conversational, warm, and relatable.
- Formal: Use professional language, avoid contractions, and maintain a respectful tone.
- Academic: Use scholarly language, precise terminology, and complex sentence structures.
- Simple: Use straightforward language, short sentences, and common words.
- Creative: Use vivid language, metaphors, and unique expressions.
- Shorten: Condense the text while preserving the key information.

Provide only the paraphrased text without any additional comments or explanations.".

(** The prompt of [check_plagiarism]. *)
Definition plagiarism_prompt (text : str) : str :=
  pyq "You are a plagiarism detection system. Given the input text, you must:

1. Check if the text is likely AI-generated or copied from online sources.
2. Compare it to your training data and common knowledge sources (e.g., Wikipedia, essays, articles).
3. Analyze for typical AI-generated patterns like:
   - Balanced paragraph structure with intro-middle-conclusion
   - Transition phrases like ^In conclusion^, ^On the one hand...^, etc.
   - Overly clean grammar without typos
   - High-level vocabulary but no personal tone
   - Generic or commonly seen ChatGPT-style answers
   - Wordy, robotic, or unnaturally perfect phrasing

Return a JSON object with the following fields:
- plagiarism_score: A number from 0 to 100 indicating the likelihood of plagiarism or AI-generation
- flagged_sentences: An array of sentences that appear to be copied or AI-generated
- feedback: Detailed explanation of why certain parts were flagged and suggestions for improvement

Here is the text to analyze:
"
  ++ text
  ++ pyq "

Respond with ONLY a valid JSON object following this format:
```json
{
  ^plagiarism_score^: 78,
  ^flagged_sentences^: [
    ^Artificial intelligence is transforming every industry in the modern world.^,
    ^In conclusion, technology will shape the future of education.^
  ],
  ^feedback^: ^These sentences appear overly generic and match patterns often seen in AI-generated or public content. Consider personalizing or adding specific references.^
}
```".

(** The prompt of [summarize_youtube]. *)
Definition summary_prompt (title_context : str) (transcript : str) : str :=
  py "You are an expert content summarizer. Your task is to create a comprehensive yet concise summary of the following YouTube video transcript.
"
  ++ title_context
  ++ py "

Transcript:
"
  ++ transcript
  ++ py "

Please provide:
1. A brief overview (2-3 sentences)
2. Key points discussed in the video (bullet points)
3. Main takeaways or conclusions

Format your response clearly with headers.".

(** The fixed system prompt of [chat]. *)
Definition system_prompt : str :=
  py "You are a helpful, friendly, and knowledgeable AI assistant. You provide accurate, 
thoughtful responses to user questions. You're designed to be helpful, harmless, and honest.
If you don't know something, admit it rather than making up information.
If the question is unclear, ask for clarification. If the question is inappropriate, politely decline to answer.".

(** ** Python operators on values, with the errors they raise *)

#[global] Instance exn_ret : MRet (sum exn) := fun _ a => inr a.
#[global] Instance exn_bind : MBind (sum exn) := fun _ _ f m =>
  match m with
  | inr a => f a
  | inl e => inl e
  end.

Section Gateway.

(** The completion endpoint, an external collaborator:
    the call of [client.chat.completions.create] followed by
    [.choices[0].message.content] either raises or yields the content,
    a string or [None]. *)
Variable transport : dict -> exn + option str.

(** [str(e)] of an error that the interpreter or a library raises by
    itself, by class and offending value.  The wording is theirs, not
    this program's, and is left open. *)
Variable runtime_text : exn_class -> value -> str.

(** The interpreter's limits where [_extract_json] calls
    [json.loads]. *)
Variable limits : Limits.

Definition runtime_error (c : exn_class) (v : value) : exn :=
  Exn c (runtime_text c v).

(** [k in x] for a string [k]. *)
Definition py_in (k : str) (x : value) : exn + bool :=
  match x with
  | VDict d => inr (dict_has k d)
  | VList l =>
      inr (existsb (fun v => match v with
                             | VStr s => bool_decide (s = k)
                             | _ => false
                             end) l)
  | VStr s => inr (str_contains k s)
  | _ => inl (runtime_error TypeError x)
  end.

(** [x[k] = v] for a string [k]: only a dictionary takes it. *)
Definition py_setitem (k : str) (v : value) (x : value) : exn + value :=
  match x with
  | VDict d => inr (VDict (dict_set k v d))
  | _ => inl (runtime_error TypeError x)
  end.

(** [x[k]] for a string [k]. *)
Definition py_getitem (k : str) (x : value) : exn + value :=
  match x with
  | VDict d =>
      match dict_get k d with
      | Some v => inr v
      | None => inl (runtime_error KeyError (VStr k))
      end
  | _ => inl (runtime_error TypeError x)
  end.

(** [if k not in result: result[k] = v] *)
Definition fill_default (k : str) (v : value) (result : value) : exn + value :=
  present ← py_in k result;
  if present : bool then inr result else py_setitem k v result.

(** ** The gateway *)

Definition client_create (kwargs : dict) : M (option str) :=
  fun st => (transport kwargs, mkState (heap st) (sent st ++ [kwargs])).

(** The parameter set [_call_groq] builds. *)
Definition call_params (messages : value) (model : option str)
    (temperature : value) (max_tokens : Z) (use_reasoning : bool) : dict :=
  let model := str_or model DEFAULT_MODEL in
  let params :=
    [ (py "model", VStr model);
      (py "messages", messages);
      (py "temperature", temperature);
      (py "max_completion_tokens", VInt max_tokens);
      (py "top_p", VInt 1);
      (py "stream", VBool false);
      (py "stop", VNone) ] in
  if use_reasoning && str_contains (py "gpt-oss") model
  then dict_set (py "reasoning_effort") (VStr (py "medium")) params
  else params.

Definition _call_groq (messages : value) (model : option str)
    (temperature : value) (max_tokens : Z) (use_reasoning : bool)
  : M (option str) :=
  try_except
    (client_create (call_params messages model temperature max_tokens use_reasoning))
    (fun e => raise (Exn PlainException (py "Groq API error: " ++ exn_str e))).

(** [re.search] on [None] raises [TypeError]; [json.loads] raises
    [JSONDecodeError] on a text that is no JSON document, and
    [RecursionError] or [ValueError] at a limit of the interpreter. *)
Definition _extract_json (content : option str) : exn + value :=
  match content with
  | None => inl (runtime_error TypeError VNone)
  | Some content =>
      let json_match := re_search (match_fenced (py "```json")) content in
      let content :=
        match json_match with
        | Some g => g
        | None => content
        end in
      let content :=
        match json_match with
        | Some _ => content
        | None =>
            match re_search (match_fenced (py "```")) content with
            | Some g => g
            | None => content
            end
        end in
      match json_loads limits content with
      | inr v => inr v
      | inl c => inl (runtime_error c (VStr content))
      end
  end.

(** ** Grammar check *)

(** The [try] body of [check_grammar] after the call returned. *)
Definition grammar_normalize (text : str) (response : option str) : exn + dict :=
  result ← _extract_json response;
  result ← fill_default (py "corrected_text") (VStr text) result;
  result ← fill_default (py "corrections") (VList []) result;
  corrected ← py_getitem (py "corrected_text") result;
  corrections ← py_getitem (py "corrections") result;
  mret [ (py "original_text", VStr text);
         (py "corrected_text", corrected);
         (py "corrections", corrections) ].

(** The two [except] clauses of [check_grammar]; [response] is [None]
    while the local name is not bound yet. *)
Definition grammar_except (text : str) (response : option (option str))
    (e : exn) : dict :=
  if is_json_decode_error e then
    [ (py "original_text", VStr text);
      (py "corrected_text",
        match response with
        | Some r => opt_str r
        | None => VStr text
        end);
      (py "corrections", VList []) ]
  else [ (py "error", VStr (exn_str e)) ].

Definition check_grammar (text : str) (model : option str) : M dict :=
  let messages := VList [role_message (py "user") (VStr (grammar_prompt text))] in
  fun st =>
    match _call_groq messages (Some (str_or model TEXT_MODEL)) (VInt 1) 8192 true st with
    | (inl e, st') => (inr (grammar_except text None e), st')
    | (inr response, st') =>
        match grammar_normalize text response with
        | inr d => (inr d, st')
        | inl e => (inr (grammar_except text (Some response) e), st')
        end
    end.

(** ** Chat *)

Definition error_result (e : exn) : dict := [ (py "error", VStr (exn_str e)) ].

(** [conversation_history] is [None] or the address of a list object.
    [None] as a result: the loop over the history has not ended within
    [fuel] steps. *)
Definition chat (fuel : nat) (message : str) (conversation_history : option nat)
    (model : option str) (st : State) : option ((exn + dict) * State) :=
  let '(messages, h) :=
    heap_alloc [role_message (py "system") (VStr system_prompt)] (heap st) in
  let looped :=
    match conversation_history with
    | Some src =>
        match h !! src with
        | Some (_ :: _) => for_append fuel src messages 0 h
        | _ => Some h
        end
    | None => Some h
    end in
  match looped with
  | None => None
  | Some h =>
      let h := heap_append messages (role_message (py "user") (VStr message)) h in
      Some (try_except
              (bind (_call_groq (VList (default [] (h !! messages)))
                       (Some (str_or model TEXT_MODEL)) (VInt 1) 8192 true)
                 (fun response => ret [ (py "response", opt_str response) ]))
              (fun e => ret (error_result e))
              (mkState h (sent st)))
  end.

(** ** Paraphrase *)

(** [response.strip()] *)
Definition py_strip (response : option str) : exn + value :=
  match response with
  | Some s => inr (VStr (strip s))
  | None => inl (runtime_error AttributeError VNone)
  end.

Definition paraphrase (text style : str) (model : option str) : M dict :=
  let messages := VList [role_message (py "user") (VStr (paraphrase_prompt text style))] in
  try_except
    (bind (_call_groq messages (Some (str_or model TEXT_MODEL)) (VInt 1) 8192 true)
       (fun response =>
          match py_strip response with
          | inr stripped =>
              ret [ (py "original_text", VStr text);
                    (py "paraphrased_text", stripped);
                    (py "style", VStr style) ]
          | inl e => raise e
          end))
    (fun e => ret (error_result e)).

(** ** Plagiarism check *)

Definition plagiarism_normalize (text : str) (response : option str) : exn + dict :=
  result ← _extract_json response;
  result ← fill_default (py "plagiarism_score") (VInt 0) result;
  result ← fill_default (py "flagged_sentences") (VList []) result;
  result ← fill_default (py "feedback") (VStr (py "No issues detected in the text.")) result;
  score ← py_getitem (py "plagiarism_score") result;
  flagged ← py_getitem (py "flagged_sentences") result;
  feedback ← py_getitem (py "feedback") result;
  mret [ (py "original_text", VStr text);
         (py "plagiarism_score", score);
         (py "flagged_sentences", flagged);
         (py "feedback", feedback) ].

Definition plagiarism_except (text : str) (e : exn) : dict :=
  if is_json_decode_error e then
    [ (py "original_text", VStr text);
      (py "plagiarism_score", VInt 0);
      (py "flagged_sentences", VList []);
      (py "feedback", VStr (py "Unable to analyze text. Please try again.")) ]
  else error_result e.

Definition check_plagiarism (text : str) (model : option str) : M dict :=
  let messages := VList [role_message (py "user") (VStr (plagiarism_prompt text))] in
  try_except
    (bind (_call_groq messages (Some (str_or model TEXT_MODEL)) (VInt 1) 8192 true)
       (fun response =>
          match plagiarism_normalize text response with
          | inr d => ret d
          | inl e => raise e
          end))
    (fun e => ret (plagiarism_except text e)).

(** ** Transcript summary *)

Definition title_context (video_title : str) : str :=
  match video_title with
  | [] => []
  | _ :: _ => [10] ++ py "Video Title: " ++ video_title
  end.

Definition summarize_youtube (transcript video_title : str) (model : option str)
  : M dict :=
  let prompt := summary_prompt (title_context video_title) transcript in
  let messages := VList [role_message (py "user") (VStr prompt)] in
  try_except
    (bind (_call_groq messages (Some (str_or model TEXT_MODEL)) (VInt 1) 2048 true)
       (fun response =>
          ret [ (py "summary", opt_str response);
                (py "title",
                  VStr (str_or (Some video_title) (py "YouTube Video Summary"))) ]))
    (fun e => ret (error_result e)).

(** ** Image analysis *)

Definition image_messages (image_url prompt : str) : value :=
  VList
    [ role_message (py "user")
        (VList
           [ VDict [ (py "type", VStr (py "text")); (py "text", VStr prompt) ];
             VDict [ (py "type", VStr (py "image_url"));
                     (py "image_url", VDict [ (py "url", VStr image_url) ]) ] ]) ].

Definition image_params (image_url prompt : str) (model : option str) : dict :=
  [ (py "model", VStr (str_or model IMAGE_MODEL));
    (py "messages", image_messages image_url prompt);
    (py "temperature", VInt 1);
    (py "max_completion_tokens", VInt 1024);
    (py "top_p", VInt 1);
    (py "stream", VBool false);
    (py "stop", VNone) ].

Definition default_image_prompt : str := py "Describe this image in detail.".

Definition analyze_image (image_url prompt : str) (model : option str) : M dict :=
  try_except
    (bind (client_create (image_params image_url prompt model))
       (fun content => ret [ (py "analysis", opt_str content) ]))
    (fun e => ret (error_result e)).

(** ** The summarizer page *)

(** The transcript source, an external collaborator: the texts of the
    caption items of a video, or the error the library raises. *)
Variable fetch_transcript : str -> exn + list str.

Definition get_youtube_transcript (video_id : str) : dict :=
  match fetch_transcript video_id with
  | inr items => [ (py "transcript", VStr (join (py " ") items)) ]
  | inl e =>
      if is_import_error e then
        [ (py "error", VStr (py "youtube-transcript-api is not installed. Please run: pip install youtube-transcript-api")) ]
      else
        let error_msg := exn_str e in
        if str_contains (py "Could not retrieve") error_msg
           || str_contains (py "No transcript") error_msg
           || str_contains (py "TranscriptsDisabled") error_msg
        then [ (py "error", VStr (py "No transcript available for this video. The video might not have captions enabled.")) ]
        else [ (py "error", VStr (py "Error getting transcript: " ++ error_msg)) ]
  end.

Definition max_chars : nat := N.to_nat 15000.
Definition truncation_marker : str := py "... [transcript truncated]".

(** [if len(transcript) > max_chars: transcript = transcript[:max_chars] + marker] *)
Definition truncate_transcript (transcript : str) : str :=
  if (max_chars <? length transcript)%nat
  then slice_to max_chars transcript ++ truncation_marker
  else transcript.

(** [groq_service] is the page's global: [None] when the service could
    not be built.  [get_youtube_transcript] returns either an [error]
    or a [transcript] that is a string, so the last two branches are
    never taken. *)
Definition summarize_video (groq_service : option unit) (video_id : str) : M dict :=
  match groq_service with
  | None =>
      ret [ (py "error", VStr (py "Groq service not initialized. Please check your API key.")) ]
  | Some _ =>
      let transcript_result := get_youtube_transcript video_id in
      if dict_has (py "error") transcript_result then ret transcript_result
      else
        match dict_get (py "transcript") transcript_result with
        | Some (VStr transcript) =>
            summarize_youtube (truncate_transcript transcript) [] None
        | Some v => raise (runtime_error TypeError v)
        | None => raise (runtime_error KeyError (VStr (py "transcript")))
        end
  end.

End Gateway.

(** ** The video identifier of a URL

    [extract_video_id] of [pages/Youtube_summarizer.py] searches with
    two patterns.  In both, group 1 is [[^&\n?#]+], the longest run of
    at least one character that is none of the four delimiters; nothing
    follows it in the pattern. *)

(** A character of the class [[^&\n?#]]. *)
Definition id_char (c : N) : bool :=
  negb ((c =? 38) || (c =? 10) || (c =? 63) || (c =? 35)).

(** The longest run of characters passing [p] at the head of [s]. *)
Fixpoint run_of (p : N -> bool) (s : str) : str :=
  match s with
  | c :: s' => if p c then c :: run_of p s' else []
  | [] => []
  end.

(** A greedy [+] class closing the pattern: the run, when it is not
    empty. *)
Definition class_plus (p : N -> bool) (s : str) : option str :=
  match run_of p s with
  | [] => None
  | c :: g => Some (c :: g)
  end.

(** The alternatives of the first pattern, in its order. *)
Definition url_markers : list str :=
  [ py "youtube.com/watch?v=";
    py "youtu.be/";
    py "youtube.com/embed/";
    py "youtube.com/v/" ].

(** [(?:a1|a2|...)([^&\n?#]+)] at the head of [s]: the first
    alternative, in order, behind which the group matches. *)
Fixpoint match_marked (alternatives : list str) (s : str) : option str :=
  match alternatives with
  | [] => None
  | a :: rest =>
      match lit a s ≫= class_plus id_char with
      | Some g => Some g
      | None => match_marked rest s
      end
  end.

(** [youtube\.com\/watch\?.*v=([^&\n?#]+)] at the head of [s]; the dot
    matches every character but the line feed. *)
Definition match_watch (s : str) : option str :=
  match lit (py "youtube.com/watch?") s with
  | None => None
  | Some s1 =>
      star_greedy (fun c => negb (c =? 10)) s1
        (fun s2 => lit (py "v=") s2 ≫= class_plus id_char)
  end.

Definition extract_video_id (url : str) : option str :=
  match re_search (match_marked url_markers) url with
  | Some g => Some g
  | None => re_search match_watch url
  end.

(** ** Construction of the service

    [GroqService.__init__] and the module's singleton accessor.  The
    SDK's client constructor is an external collaborator. *)

Section Construction.

Variable Client : Type.
Variable Groq : str -> exn + Client.

Record GroqService := mkService { api_key : str; client : Client }.

Definition missing_key_text : str :=
  py "GROQ_API_KEY not found in environment variables. Please set it in your .env file.".

(** [__init__]; [env_key] is [os.getenv("GROQ_API_KEY")]. *)
Definition GroqService_init (env_key : option str) : exn + GroqService :=
  match env_key with
  | Some (c :: k) =>
      match Groq (c :: k) with
      | inr cl => inr (mkService (c :: k) cl)
      | inl e => inl e
      end
  | _ => inl (Exn ValueError missing_key_text)
  end.

(** [get_groq_service], on the module's global [_groq_service]: the
    result or the error raised, and the global afterwards. *)
Definition get_groq_service (env_key : option str)
    (_groq_service : option GroqService)
  : (exn + GroqService) * option GroqService :=
  match _groq_service with
  | Some s => (inr s, Some s)
  | None =>
      match GroqService_init env_key with
      | inr s => (inr s, Some s)
      | inl e => (inl e, None)
      end
  end.

End Construction.

(** ** The chat page

    [chat_with_ai] and the handler of the send button of
    [pages/AI_Chat.py], on the session state of the page.  Drawing the
    page and restarting the script ([st.rerun]) are outside the model. *)

(** [st.session_state]: the address of the list object
    [chat_history], and the flag [processing_done]. *)
Record Session := mkSession { chat_history : nat; processing_done : bool }.

Section ChatPage.

Variable transport : dict -> exn + option str.
Variable runtime_text : exn_class -> value -> str.

(** [str(v)] of a value that is no string, as an f-string writes it;
    left open. *)
Variable other_text : value -> str.

Definition format_value (v : value) : str :=
  match v with
  | VStr s => s
  | _ => other_text v
  end.

(** [{"role": msg["role"], "content": msg["content"]}] *)
Definition copy_entry (msg : value) : exn + value :=
  role ← py_getitem runtime_text (py "role") msg;
  content ← py_getitem runtime_text (py "content") msg;
  mret (VDict [ (py "role", role); (py "content", content) ]).

(** [for msg in src: dst.append({...})], reading the list at [src]
    afresh at each step; an error of the body ends the loop.  [None]:
    the loop is still running when the fuel is spent. *)
Fixpoint for_copy (fuel : nat) (src dst : nat) (i : nat)
    (h : gmap nat (list value))
  : option ((exn + unit) * gmap nat (list value)) :=
  match fuel with
  | O => None
  | S fuel =>
      match default [] (h !! src) !! i with
      | None => Some (inr tt, h)
      | Some msg =>
          match copy_entry msg with
          | inl e => Some (inl e, h)
          | inr d => for_copy fuel src dst (S i) (heap_append dst d h)
          end
      end
  end.

Definition no_service_text : str :=
  py "Error: Groq service not initialized. Please check your API key.".

(** The page's global [groq_service] is [None] when the service could
    not be built.  The result is what the function returns: a string,
    or [None] when the completion had no content. *)
Definition chat_with_ai (groq_service : option unit) (fuel : nat)
    (message : str) (session : Session) (st : State)
  : option ((exn + value) * State) :=
  match groq_service with
  | None => Some (inr (VStr no_service_text), st)
  | Some _ =>
      let '(conversation_history, h) := heap_alloc [] (heap st) in
      match for_copy fuel (chat_history session) conversation_history 0 h with
      | None => None
      | Some (inl e, h) => Some (inl e, mkState h (sent st))
      | Some (inr _, h) =>
          match chat transport fuel message (Some conversation_history) None
                  (mkState h (sent st)) with
          | None => None
          | Some (inl e, st') => Some (inl e, st')
          | Some (inr result, st') =>
              match dict_get (py "error") result with
              | Some err => Some (inr (VStr (py "Error: " ++ format_value err)), st')
              | None =>
                  Some (inr (default (VStr (py "No response received"))
                               (dict_get (py "response") result)), st')
              end
          end
      end
  end.

(** The handler of the send button: [if send_clicked: if user_input and
    processing_done: ...].  An error of [chat_with_ai] leaves the
    handler with the flag still down. *)
Definition on_send (groq_service : option unit) (fuel : nat)
    (send_clicked : bool) (user_input : str) (session : Session) (st : State)
  : option ((exn + unit) * Session * State) :=
  if send_clicked then
    match user_input with
    | _ :: _ =>
        if processing_done session then
          let session := mkSession (chat_history session) false in
          let st :=
            mkState (heap_append (chat_history session)
                       (role_message (py "user") (VStr user_input)) (heap st))
              (sent st) in
          match chat_with_ai groq_service fuel user_input session st with
          | None => None
          | Some (inl e, st) => Some (inl e, session, st)
          | Some (inr ai_response, st) =>
              Some (inr tt,
                    mkSession (chat_history session) true,
                    mkState (heap_append (chat_history session)
                               (role_message (py "assistant") ai_response)
                               (heap st))
                      (sent st))
          end
        else Some (inr tt, session, st)
    | [] => Some (inr tt, session, st)
    end
  else Some (inr tt, session, st).

End ChatPage.

(** ** Vocabulary of the statements *)

(** The parameter set a text feature hands to [_call_groq]: one user
    message holding the prompt, the text model unless overridden,
    temperature 1, reasoning requested. *)
Definition text_request (prompt : str) (model : option str) (max_tokens : Z) : dict :=
  call_params (VList [role_message (py "user") (VStr prompt)])
    (Some (str_or model TEXT_MODEL)) (VInt 1) max_tokens true.

(** The text wrapped around a transport error by [_call_groq]. *)
Definition wrapped (e : exn) : str := py "Groq API error: " ++ exn_str e.

(** [p] occurs in [s]. *)
Definition occurs (p s : str) : Prop := exists a b, s = a ++ p ++ b.

(** A run of a feature from [st]: it returned a dictionary, it made one
    call to the endpoint, and if that call failed the dictionary has an
    [error] key. *)
Definition returns_result (transport : dict -> exn + option str) (st : State)
    (run : (exn + dict) * State) : Prop :=
  exists d kw,
    run.1 = inr d
    /\ sent run.2 = sent st ++ [kw]
    /\ (forall e, transport kw = inl e -> dict_has (py "error") d = true).

(** The history a call of [chat] sees: nothing for [None], the content
    of the list object otherwise. *)
Definition history_is (st : State) (conversation_history : option nat)
    (hist : list value) : Prop :=
  match conversation_history with
  | Some src => heap st !! src = Some hist
  | None => hist = []
  end.

(** The message list spelled out by the claim about [chat]. *)
Definition chat_messages (hist : list value) (msg : str) : list value :=
  role_message (py "system") (VStr system_prompt)
  :: hist ++ [role_message (py "user") (VStr msg)].

(** The three extraction strategies of [_extract_json], as searches
    for a candidate text, and the candidate the code ends up parsing. *)
Definition json_block (content : str) : option str :=
  re_search (match_fenced (py "```json")) content.

Definition any_block (content : str) : option str :=
  re_search (match_fenced (py "```")) content.

Definition whole_text (content : str) : option str := Some content.

(** The first strategy, in order, that finds a candidate. *)
Fixpoint first_found (strategies : list (str -> option str)) (content : str)
  : option str :=
  match strategies with
  | [] => None
  | f :: rest =>
      match f content with
      | Some g => Some g
      | None => first_found rest content
      end
  end.

(** The value [json.loads] returns, when it returns one. *)
Definition json_value (lim : Limits) (s : str) : option value :=
  match json_loads lim s with
  | inr v => Some v
  | inl _ => None
  end.

(** The reading under which the strategies are tried until one of them
    yields valid JSON: the first strategy, in order, whose candidate
    parses. *)
Fixpoint first_valid (lim : Limits) (strategies : list (str -> option str))
    (content : str) : option value :=
  match strategies with
  | [] => None
  | f :: rest =>
      match f content ≫= json_value lim with
      | Some v => Some v
      | None => first_valid lim rest content
      end
  end.

Definition strategies : list (str -> option str) :=
  [json_block; any_block; whole_text].

(** No stage yields valid JSON. *)
Definition no_stage_valid (lim : Limits) (content : str) : Prop :=
  Forall (fun f => f content ≫= json_value lim = None) strategies.

(** The openings of objects and arrays in a text, and its longest run
    of decimal digits. *)
Definition is_opening (c : N) : bool := (c =? 123) || (c =? 91).

Fixpoint openings (s : str) : nat :=
  match s with
  | [] => 0
  | c :: s' => (if is_opening c then 1 else 0) + openings s'
  end.

Fixpoint longest_digit_run (s : str) : nat :=
  match s with
  | [] => 0
  | _ :: s' => Nat.max (length (run_of is_digit s)) (longest_digit_run s')
  end.

(** The levels the decoder needs beyond those its nesting takes: one
    for the lookup of a constant, or those an error takes. *)
Definition spare_levels (lim : Limits) : nat := Nat.max 1 (error_levels lim).

(** A text that cannot take the decoder to a limit of the interpreter
    with [depth] levels of recursion left: its openings leave the spare
    levels free, and it has no run of digits that is too long for an
    integer. *)
Definition fits (lim : Limits) (depth : nat) (s : str) : Prop :=
  (openings s + spare_levels lim <= depth)%nat
  /\ int_too_long (int_max_str_digits lim) (longest_digit_run s) = false.

Definition within_limits (lim : Limits) (s : str) : Prop :=
  fits lim (recursion_left lim) s.

(** A read that stopped at no limit of the interpreter. *)
Definition limit_free {A} (r : pres A) : Prop := r <> Deep /\ r <> Long.

(** A character that is not a backquote. *)
Definition no_backquote (s : str) : Prop := Forall (fun c => c <> 96) s.

(** The text after an escaped high surrogate leaves it alone: it does
    not go on with a [\u] escape that is broken or a low surrogate. *)
Definition leaves_alone (s : str) : bool :=
  match s with
  | b :: x :: g1 :: g2 :: g3 :: g4 :: _ =>
      if (b =? 92) && (x =? 117) then
        match hex4 g1 g2 g3 g4 with
        | None => false
        | Some u2 => negb (low_surrogate u2)
        end
      else true
  | _ => true
  end.

(** A tail in front of which a number ends: empty, or starting with a
    character that continues no number. *)
Definition ends_number (t : str) : bool :=
  match t with
  | [] => true
  | c :: _ => negb (is_digit c || (c =? 46) || (c =? 101) || (c =? 69))
  end.

(** [t] is empty or its first character fails [p]. *)
Definition no_head (p : N -> bool) (t : str) : bool :=
  match t with
  | [] => true
  | c :: _ => negb (p c)
  end.

(** A successful read at fuel [n] consumes a non-empty prefix [k] of the
    text and depends on nothing behind it: in front of any other tail
    (one that continues no number, for [scan_once]) and with any fuel
    above the length of [k], the same prefix reads to the same value.
    An object is read from an opening to a closing brace. *)
Definition scan_local_at (lim : Limits) (n : nat) : Prop :=
  forall depth s v r, scan_once lim n depth s = Good v r ->
  exists k, s = k ++ r /\ k <> []
    /\ (forall d, v = VDict d -> exists k', k = 123 :: k' ++ [125])
    /\ forall m t, (length k < m)%nat -> ends_number t = true ->
         scan_once lim m depth (k ++ t) = Good v t.

Definition members_local_at (lim : Limits) (n : nat) : Prop :=
  forall depth s acc v r, parse_members lim n depth s acc = Good v r ->
  exists k, s = k ++ r
    /\ (exists k', k = k' ++ [125])
    /\ (exists d, v = VDict d)
    /\ forall m t, (length k < m)%nat ->
         parse_members lim m depth (k ++ t) acc = Good v t.

Definition items_local_at (lim : Limits) (n : nat) : Prop :=
  forall depth s acc v r, parse_items lim n depth s acc = Good v r ->
  exists k, s = k ++ r /\ k <> []
    /\ (exists l, v = VList l)
    /\ forall m t, (length k < m)%nat ->
         parse_items lim m depth (k ++ t) acc = Good v t.

(** Fuel that lets the decoder finish on a text: the three readers do
    not stop for lack of it. *)
Definition fuel_enough (lim : Limits) (n : nat) : Prop :=
  (forall depth s, (2 * length s < n)%nat -> scan_once lim n depth s <> Fuel)
  /\ (forall depth s acc, (2 * length s + 1 < n)%nat ->
        parse_members lim n depth s acc <> Fuel)
  /\ (forall depth s acc, (2 * length s + 1 < n)%nat ->
        parse_items lim n depth s acc <> Fuel).

(** ** Concrete inputs for the examples *)

(** An interpreter whose own errors carry no text. *)
Definition no_text : exn_class -> value -> str := fun _ _ => [].

(** An interpreter with a thousand levels of recursion left, the
    three levels that CPython 3.11 takes for an error, and the usual
    limit of 4300 digits. *)
Definition sample_limits : Limits := mkLimits 1000 3 4300.

(** No list object alive, nothing sent yet. *)
Definition empty_state : State := mkState ∅ [].

(** An endpoint that answers every request with [r], and one that
    fails every request with [e]. *)
Definition answers (r : option str) : dict -> exn + option str := fun _ => inr r.
Definition fails (e : exn) : dict -> exn + option str := fun _ => inl e.

(** A state whose only list object, at address 0, is a history of two
    messages. *)
Definition two_turns : list value :=
  [ role_message (py "user") (VStr (py "hi"));
    role_message (py "assistant") (VStr (py "hello")) ].
Definition talking_state : State := mkState {[ 0%nat := two_turns ]} [].

(** A JSON object whose string holds a fence; the same with a whole
    fenced block inside the string; two blocks, the untagged one first. *)
Definition object_with_fence : str := pyq "{^a^: ^```^}".
Definition object_with_block : str := pyq "{^a^: ^``` 1 ```^}".
Definition two_blocks : str := py "``` {} ``` ```json oops ```".

(** A transcript of 15001 characters in one caption item. *)
Definition long_transcript : str := repeat 97 (N.to_nat 15001).

(** A response of 1001 opening brackets: no JSON document, and one
    level deeper than [sample_limits] allows. *)
Definition deep_response : str := repeat 91 (N.to_nat 1001).

(** ** Further vocabulary *)

(** A decoded value that is a JSON object. *)
Definition is_object (v : value) : bool :=
  match v with
  | VDict _ => true
  | _ => false
  end.

(** The result dictionary whose only entry is [error]. *)
Definition only_error (text : str) : dict := [ (py "error", VStr text) ].

(** How a request of a text feature is routed: the model asked for,
    or the text model; temperature 1; the given token ceiling; no
    streaming; the reasoning hint [medium] exactly for a model of the
    [gpt-oss] family. *)
Definition routed (kw : dict) (model : option str) (max_tokens : Z) : Prop :=
  dict_get (py "model") kw = Some (VStr (str_or model TEXT_MODEL))
  /\ dict_get (py "temperature") kw = Some (VInt 1)
  /\ dict_get (py "max_completion_tokens") kw = Some (VInt max_tokens)
  /\ dict_get (py "stream") kw = Some (VBool false)
  /\ dict_get (py "reasoning_effort") kw
     = if str_contains (py "gpt-oss") (str_or model TEXT_MODEL)
       then Some (VStr (py "medium"))
       else None.

(** All characters of [w] are whitespace. *)
Definition all_space (w : str) : Prop := Forall (fun c => is_space c = true) w.

(** A history entry as the chat page writes it: a dictionary that has
    a [role] and a [content]. *)
Definition has_role_content (msg : value) : Prop :=
  exists d role content,
    msg = VDict d
    /\ dict_get (py "role") d = Some role
    /\ dict_get (py "content") d = Some content.

(** The copy [chat_with_ai] makes of such an entry. *)
Definition entry_copy (msg : value) : value :=
  match msg with
  | VDict d =>
      VDict [ (py "role", default VNone (dict_get (py "role") d));
              (py "content", default VNone (dict_get (py "content") d)) ]
  | _ => VNone
  end.

(** ** Text lemmas *)

Lemma starts_with_spec p s : starts_with p s = true <-> exists b, s = p ++ b.
Proof.
  revert s. induction p as [|a p IH]; intros s; simpl.
  - split; eauto.
  - destruct s as [|b s].
    + split; [discriminate | intros [x H]; discriminate].
    + rewrite andb_true_iff, N.eqb_eq, IH. split.
      * intros [-> [x ->]]. eauto.
      * intros [x H]. injection H as -> ->. eauto.
Qed.

Lemma str_contains_spec p s : str_contains p s = true <-> occurs p s.
Proof.
  unfold occurs. induction s as [|c s IH]; simpl.
  - rewrite orb_false_r, starts_with_spec. split.
    + intros [b H]. exists [], b. exact H.
    + intros [a [b H]]. destruct a; simpl in H.
      * eauto.
      * discriminate.
  - rewrite orb_true_iff, starts_with_spec, IH. split.
    + intros [[b H] | [a [b H]]].
      * exists [], b. exact H.
      * exists (c :: a), b. simpl. now f_equal.
    + intros [a [b H]]. destruct a as [|x a]; simpl in H.
      * left. eauto.
      * right. injection H as -> ->. eauto.
Qed.

(** ** Dictionary lemmas *)

Lemma dict_get_set_eq k v d : dict_get k (dict_set k v d) = Some v.
Proof.
  induction d as [|[k' v'] d IH]; simpl.
  - now rewrite bool_decide_eq_true_2.
  - destruct (bool_decide (k' = k)) eqn:E; simpl; now rewrite E.
Qed.

Lemma dict_get_set_ne k k' v d :
  k <> k' -> dict_get k' (dict_set k v d) = dict_get k' d.
Proof.
  intros Hne. induction d as [|[k0 v0] d IH]; simpl.
  - now rewrite bool_decide_eq_false_2.
  - destruct (bool_decide (k0 = k)) eqn:E; simpl.
    + apply bool_decide_eq_true_1 in E. subst k0.
      now rewrite !bool_decide_eq_false_2.
    + now rewrite IH.
Qed.

Lemma dict_has_get k d :
  dict_has k d = true <-> exists v, dict_get k d = Some v.
Proof.
  unfold dict_has. destruct (dict_get k d); split; eauto; try discriminate.
  intros [v H]. discriminate.
Qed.

(** ** The request parameters *)

Section GatewayFacts.

Variable transport : dict -> exn + option str.
Variable runtime_text : exn_class -> value -> str.

Lemma call_groq_run messages model temperature max_tokens use_reasoning st :
  _call_groq transport messages model temperature max_tokens use_reasoning st =
  let kw := call_params messages model temperature max_tokens use_reasoning in
  (match transport kw with
   | inl e => inl (Exn PlainException (wrapped e))
   | inr r => inr r
   end, mkState (heap st) (sent st ++ [kw])).
Proof.
  unfold _call_groq, try_except, client_create, raise, wrapped. simpl.
  now destruct (transport _).
Qed.

Lemma text_call_run prompt model max_tokens st :
  _call_groq transport (VList [role_message (py "user") (VStr prompt)])
    (Some (str_or model TEXT_MODEL)) (VInt 1) max_tokens true st =
  (match transport (text_request prompt model max_tokens) with
   | inl e => inl (Exn PlainException (wrapped e))
   | inr r => inr r
   end, mkState (heap st) (sent st ++ [text_request prompt model max_tokens])).
Proof. apply call_groq_run. Qed.

(** C4.  Whatever the messages, the model argument, the temperature,
    the token ceiling and the flag, [_call_groq] sends exactly the
    parameter set it built, and this set holds [reasoning_effort] if and
    only if [use_reasoning] is true and the resolved model identifier
    contains [gpt-oss]; when present the hint is [medium]. *)
Theorem reasoning_hint_iff_family messages model temperature max_tokens
    use_reasoning st :
  sent (snd (_call_groq transport messages model temperature max_tokens
               use_reasoning st))
  = sent st ++ [call_params messages model temperature max_tokens use_reasoning]
  /\ (dict_has (py "reasoning_effort")
        (call_params messages model temperature max_tokens use_reasoning) = true
      <-> use_reasoning = true
          /\ occurs (py "gpt-oss") (str_or model DEFAULT_MODEL))
  /\ (dict_has (py "reasoning_effort")
        (call_params messages model temperature max_tokens use_reasoning) = true
      -> dict_get (py "reasoning_effort")
           (call_params messages model temperature max_tokens use_reasoning)
         = Some (VStr (py "medium"))).
Proof.
  split; [now rewrite call_groq_run |].
  unfold call_params. rewrite <- str_contains_spec.
  destruct use_reasoning, (str_contains (py "gpt-oss") (str_or model DEFAULT_MODEL));
    simpl;
    (split;
     [ split;
       [ intros H; try discriminate H; auto
       | intros [H1 H2]; try discriminate; reflexivity ]
     | intros H; try discriminate H; reflexivity ]).
Qed.

End GatewayFacts.

(** ** The decoder reads a value from the head of the text

    A successful scan consumes a non-empty prefix of the text and does
    not depend on what follows it: the same prefix in front of another
    tail scans to the same value, with any fuel that covers the prefix. *)

Lemma skip_ws_split s :
  exists w, s = w ++ skip_ws s /\ Forall (fun c => is_json_ws c = true) w.
Proof.
  induction s as [|c s [w [H1 H2]]]; simpl.
  - exists []. split; [reflexivity | constructor].
  - destruct (is_json_ws c) eqn:E.
    + exists (c :: w). split; [simpl; now f_equal | now constructor].
    + exists []. split; [reflexivity | constructor].
Qed.

Lemma skip_ws_head c s r : skip_ws s = c :: r -> is_json_ws c = false.
Proof.
  induction s as [|x s IH]; simpl; [discriminate |].
  destruct (is_json_ws x) eqn:E; [exact IH |].
  intros H. injection H as -> _. exact E.
Qed.

Lemma skip_ws_app w s :
  Forall (fun c => is_json_ws c = true) w -> skip_ws (w ++ s) = skip_ws s.
Proof.
  induction 1 as [|c w Hc _ IH]; simpl; [reflexivity |]. now rewrite Hc.
Qed.

Lemma skip_ws_stop c s : is_json_ws c = false -> skip_ws (c :: s) = c :: s.
Proof. intros H. simpl. now rewrite H. Qed.

(** Skipping whitespace in front of a known next character. *)
Lemma skip_ws_to s c r :
  skip_ws s = c :: r ->
  exists w, s = w ++ c :: r /\ forall t, skip_ws (w ++ c :: t) = c :: t.
Proof.
  intros H. destruct (skip_ws_split s) as [w [H1 H2]].
  exists w. rewrite H in H1. split; [exact H1 |].
  intros t. rewrite skip_ws_app by exact H2.
  apply skip_ws_stop. eapply skip_ws_head, H.
Qed.

Lemma leaves_alone_other b s : (b =? 92) = false -> leaves_alone (b :: s) = true.
Proof.
  intros E. destruct s as [|x [|g1 [|g2 [|g3 [|g4 s]]]]]; simpl; try reflexivity.
  now rewrite E.
Qed.

Lemma leaves_alone_simple b x s : (x =? 117) = false -> leaves_alone (b :: x :: s) = true.
Proof.
  intros E. destruct s as [|g1 [|g2 [|g3 [|g4 s]]]]; simpl; try reflexivity.
  now rewrite E, andb_false_r.
Qed.

(** The decision is taken inside the text the scan consumes. *)
Lemma leaves_alone_stable k acc v r t :
  scanstring k acc = Good v [] ->
  leaves_alone (k ++ r) = true ->
  leaves_alone (k ++ t) = true.
Proof.
  intros Hk Hr. destruct k as [|b k]; [discriminate Hk |].
  destruct (b =? 92) eqn:Eb; [| now apply leaves_alone_other].
  apply N.eqb_eq in Eb. subst b.
  destruct k as [|x k]; [discriminate Hk |].
  destruct (x =? 117) eqn:Ex; [| now apply leaves_alone_simple].
  simpl in Hk. rewrite Ex in Hk.
  destruct k as [|g1 [|g2 [|g3 [|g4 k]]]]; try discriminate Hk.
  exact Hr.
Qed.

(** With what follows leaving the surrogate alone, the scan goes on
    behind it. *)
Lemma scan_lone_surrogate u acc s :
  leaves_alone s = true ->
  match s with
  | b :: x :: g1 :: g2 :: g3 :: g4 :: s4 =>
      if (b =? 92) && (x =? 117) then
        match hex4 g1 g2 g3 g4 with
        | None => Bad
        | Some u2 =>
            if low_surrogate u2
            then scanstring s4 (join_surrogates u u2 :: acc)
            else scanstring s (u :: acc)
        end
      else scanstring s (u :: acc)
  | _ => scanstring s (u :: acc)
  end = scanstring s (u :: acc).
Proof.
  intros H. destruct s as [|b [|x [|g1 [|g2 [|g3 [|g4 s]]]]]]; try reflexivity.
  unfold leaves_alone in H.
  destruct ((b =? 92) && (x =? 117)); [| reflexivity].
  destruct (hex4 g1 g2 g3 g4); [| discriminate].
  now destruct (low_surrogate n).
Qed.

Lemma scanstring_local s : forall acc v r,
  scanstring s acc = Good v r ->
  exists k, s = k ++ r /\ k <> [] /\ forall t, scanstring (k ++ t) acc = Good v t.
Proof.
  induction s as [s IH] using (induction_ltof1 _ (@length N)).
  unfold ltof in IH. intros acc v r H.
  destruct s as [|c s1]; [discriminate |]. simpl in H.
  destruct (c =? 34) eqn:Ec.
  { injection H as <- <-. exists [c]. repeat split; [discriminate |].
    intros t. simpl. now rewrite Ec. }
  destruct (c =? 92) eqn:Eb.
  2: { destruct (c <? 32) eqn:Ectl; [discriminate |].
       apply IH in H as [k [-> [_ Hk]]]; [| simpl; lia].
       exists (c :: k). repeat split; [discriminate |].
       intros t. simpl. now rewrite Ec, Eb, Ectl. }
  destruct s1 as [|e s2]; [discriminate |].
  destruct (e =? 117) eqn:Eu.
  2: { destruct (simple_escape e) as [x|] eqn:Ee; [| discriminate].
       apply IH in H as [k [-> [_ Hk]]]; [| simpl; lia].
       exists (c :: e :: k). repeat split; [discriminate |].
       intros t. simpl. now rewrite Ec, Eb, Eu, Ee. }
  destruct s2 as [|h1 [|h2 [|h3 [|h4 s3]]]]; try discriminate.
  destruct (hex4 h1 h2 h3 h4) as [u|] eqn:Eh; [| discriminate].
  destruct (high_surrogate u) eqn:Ehi.
  2: { apply IH in H as [k [-> [_ Hk]]]; [| simpl; lia].
       exists (c :: e :: h1 :: h2 :: h3 :: h4 :: k). repeat split; [discriminate |].
       intros t. simpl. now rewrite Ec, Eb, Eu, Eh, Ehi. }
  destruct (leaves_alone s3) eqn:El.
  - rewrite scan_lone_surrogate in H by exact El.
    apply IH in H as [k [-> [_ Hk]]]; [| simpl; lia].
    exists (c :: e :: h1 :: h2 :: h3 :: h4 :: k). repeat split; [discriminate |].
    intros t. simpl. rewrite Ec, Eb, Eu, Eh, Ehi.
    rewrite scan_lone_surrogate; [apply Hk |].
    apply (leaves_alone_stable k (u :: acc) v r t); [| exact El].
    specialize (Hk []). now rewrite app_nil_r in Hk.
  - destruct s3 as [|b [|x [|g1 [|g2 [|g3 [|g4 s4]]]]]]; try discriminate El.
    unfold leaves_alone in El.
    destruct ((b =? 92) && (x =? 117)) eqn:Ebx; [| discriminate].
    destruct (hex4 g1 g2 g3 g4) as [u2|] eqn:Eh2; [| discriminate].
    destruct (low_surrogate u2) eqn:Elo; [| discriminate].
    apply IH in H as [k [-> [_ Hk]]]; [| simpl; lia].
    exists (c :: e :: h1 :: h2 :: h3 :: h4 :: b :: x :: g1 :: g2 :: g3 :: g4 :: k).
    repeat split; [discriminate |].
    intros t. simpl. now rewrite Ec, Eb, Eu, Eh, Ehi, Ebx, Eh2, Elo.
Qed.

(** ** Numbers end where their characters end *)

Lemma no_head_app p f u :
  no_head p f = true -> no_head p u = true -> no_head p (f ++ u) = true.
Proof. destruct f; simpl; auto. Qed.

Lemma no_head_weaken (p q : N -> bool) t :
  (forall c, q c = true -> p c = true) ->
  no_head p t = true -> no_head q t = true.
Proof.
  intros Hpq. destruct t as [|c t]; simpl; [reflexivity |].
  destruct (q c) eqn:E; [| reflexivity]. now rewrite (Hpq c E).
Qed.

Lemma span_digits_spec s d r :
  span_digits s = (d, r) ->
  s = d ++ r /\ Forall (fun c => is_digit c = true) d.
Proof.
  revert d r. induction s as [|c s IH]; simpl; intros d r H.
  - injection H as <- <-. split; [reflexivity | constructor].
  - destruct (is_digit c) eqn:E.
    + destruct (span_digits s) as [d' r'] eqn:Es. injection H as <- <-.
      destruct (IH _ _ eq_refl) as [-> Hd]. split; [reflexivity | now constructor].
    + injection H as <- <-. split; [reflexivity | constructor].
Qed.

Lemma span_digits_app d t :
  Forall (fun c => is_digit c = true) d ->
  no_head is_digit t = true ->
  span_digits (d ++ t) = (d, t).
Proof.
  intros Hd Ht. induction Hd as [|c d Hc _ IH]; simpl.
  - destruct t as [|c t]; [reflexivity |]. simpl in *.
    now destruct (is_digit c).
  - now rewrite Hc, IH.
Qed.

Lemma match_int_local s neg i s1 :
  match_int s = Some (neg, i, s1) ->
  s = (if neg then [45] else []) ++ i ++ s1
  /\ i <> []
  /\ forall t, no_head is_digit t = true ->
       match_int ((if neg then [45] else []) ++ i ++ t) = Some (neg, i, t).
Proof.
  unfold match_int. intros H.
  assert (Hcore : forall s0,
    match s0 with
    | c :: s2 =>
        if c =? 48 then Some (neg, [c], s2)
        else if is_digit c then
          let (d, r) := span_digits s2 in Some (neg, c :: d, r)
        else None
    | [] => None
    end = Some (neg, i, s1) ->
    s0 = i ++ s1 /\ i <> [] /\ no_head (fun c => c =? 45) i = true
    /\ forall t, no_head is_digit t = true ->
         match i ++ t with
         | c :: s2 =>
             if c =? 48 then Some (neg, [c], s2)
             else if is_digit c then
               let (d, r) := span_digits s2 in Some (neg, c :: d, r)
             else None
         | [] => None
         end = Some (neg, i, t)).
  { intros s0 H0. destruct s0 as [|c s2]; [discriminate |].
    destruct (c =? 48) eqn:E0.
    - injection H0 as <- <-. repeat split; try discriminate.
      + simpl. apply N.eqb_eq in E0. now subst c.
      + intros t _. simpl. now rewrite E0.
    - destruct (is_digit c) eqn:Ed; [| discriminate].
      destruct (span_digits s2) as [d r] eqn:Es. injection H0 as <- <-.
      destruct (span_digits_spec _ _ _ Es) as [-> Hd].
      repeat split; try discriminate.
      + simpl. destruct (c =? 45) eqn:E5; [| reflexivity].
        apply N.eqb_eq in E5. now subst c.
      + intros t Ht. simpl. rewrite E0, Ed. now rewrite span_digits_app. }
  destruct s as [|c s']; [discriminate |].
  destruct (c =? 45) eqn:E5.
  - apply N.eqb_eq in E5. subst c.
    assert (neg = true) as ->.
    { destruct s' as [|c s2]; [discriminate |].
      destruct (c =? 48); [now injection H |].
      destruct (is_digit c); [| discriminate].
      destruct (span_digits s2). now injection H. }
    destruct (Hcore s' H) as [-> [Hi [_ Ht]]].
    repeat split; [exact Hi |]. intros t Hd. simpl. now apply Ht.
  - assert (neg = false) as ->.
    { destruct (c =? 48); [now injection H |].
      destruct (is_digit c); [| discriminate].
      destruct (span_digits s'). now injection H. }
    destruct (Hcore (c :: s') H) as [Hs [Hi [H45 Ht]]].
    repeat split; [exact Hs | exact Hi |].
    intros t Hd. simpl. specialize (Ht t Hd).
    destruct i as [|x i]; [congruence |]. simpl in *.
    destruct (x =? 45); [discriminate |]. exact Ht.
Qed.

Lemma match_frac_local s f r :
  match_frac s = (f, r) ->
  s = f ++ r
  /\ no_head is_digit f = true
  /\ forall t, no_head (fun c => is_digit c || (c =? 46)) t = true ->
       match_frac (f ++ t) = (f, t).
Proof.
  unfold match_frac. intros H.
  assert (Hnone : forall t, no_head (fun c => is_digit c || (c =? 46)) t = true ->
            match_frac ([] ++ t) = ([], t)).
  { intros [|c t] Ht; [reflexivity |]. simpl in *.
    destruct (c =? 46); [| reflexivity]. now rewrite orb_true_r in Ht. }
  destruct s as [|c s1]; [injection H as <- <-; auto |].
  destruct (c =? 46) eqn:E; [| injection H as <- <-; auto].
  destruct (span_digits s1) as [d r'] eqn:Es.
  destruct d as [|x d]; [injection H as <- <-; auto |].
  injection H as <- <-. destruct (span_digits_spec _ _ _ Es) as [-> Hd].
  repeat split.
  - simpl. apply N.eqb_eq in E. now subst c.
  - intros t Ht. cbn [app]. rewrite E.
    rewrite (app_comm_cons d t x).
    rewrite span_digits_app; [reflexivity | exact Hd |].
    eapply no_head_weaken; [| exact Ht]. intros c0 Hc0; cbv beta; now rewrite Hc0.
Qed.

Lemma match_exp_local s e r :
  match_exp s = (e, r) ->
  s = e ++ r
  /\ no_head (fun c => is_digit c || (c =? 46)) e = true
  /\ forall t, no_head (fun c => is_digit c || (c =? 101) || (c =? 69)) t = true ->
       match_exp (e ++ t) = (e, t).
Proof.
  unfold match_exp. intros H.
  assert (Hnone : forall t,
            no_head (fun c => is_digit c || (c =? 101) || (c =? 69)) t = true ->
            match_exp ([] ++ t) = ([], t)).
  { intros [|c t] Ht; [reflexivity |]. simpl in *.
    destruct ((c =? 101) || (c =? 69)) eqn:E; [| reflexivity].
    rewrite <- orb_assoc, E, orb_true_r in Ht. discriminate. }
  destruct s as [|c s1]; [injection H as <- <-; auto |].
  destruct ((c =? 101) || (c =? 69)) eqn:E; [| injection H as <- <-; auto].
  assert (Hc : (is_digit c || (c =? 46)) = false).
  { apply orb_true_iff in E as [E|E]; apply N.eqb_eq in E; now subst c. }
  assert (Hd0 : forall t,
            no_head (fun c => is_digit c || (c =? 101) || (c =? 69)) t = true ->
            no_head is_digit t = true).
  { intros t Ht. eapply no_head_weaken; [| exact Ht].
    intros c0 Hc0; cbv beta; now rewrite Hc0. }
  destruct s1 as [|x s2].
  - simpl in H. injection H as <- <-. auto.
  - destruct ((x =? 43) || (x =? 45)) eqn:Ex.
    + destruct (span_digits s2) as [d r'] eqn:Es.
      destruct d as [|y d]; [injection H as <- <-; auto |].
      injection H as <- <-. destruct (span_digits_spec _ _ _ Es) as [-> Hd].
      repeat split.
      * simpl. now rewrite Hc.
      * intros t Ht. cbn [app]. rewrite E, Ex. cbv iota beta.
        rewrite (app_comm_cons d t y).
        rewrite span_digits_app; [reflexivity | exact Hd | now apply Hd0].
    + destruct (span_digits (x :: s2)) as [d r'] eqn:Es.
      destruct d as [|y d]; [injection H as <- <-; auto |].
      injection H as <- <-. destruct (span_digits_spec _ _ _ Es) as [Hs Hd].
      simpl in Hs. injection Hs as <- ->.
      repeat split.
      * simpl. now rewrite Hc.
      * intros t Ht. cbn [app]. rewrite E, Ex. cbv iota beta.
        rewrite (app_comm_cons d t x).
        rewrite span_digits_app; [reflexivity | exact Hd | now apply Hd0].
Qed.

Lemma match_number_local max s v r :
  match_number max s = Some (Good v r) ->
  exists k, s = k ++ r /\ k <> []
    /\ forall t, ends_number t = true ->
         match_number max (k ++ t) = Some (Good v t).
Proof.
  unfold match_number. intros H.
  destruct (match_int s) as [[[neg i] s1]|] eqn:Ei; [| discriminate].
  destruct (match_frac s1) as [f s2] eqn:Ef.
  destruct (match_exp s2) as [e s3] eqn:Ee.
  injection H as H.
  assert (Hres : r = s3 /\ forall t,
            match f, e with
            | [], [] =>
                if int_too_long max (length i) then Long
                else Good (VInt (if neg then - digits_value i else digits_value i)) t
            | _, _ => Good (VFloat ((if neg then [45] else []) ++ i ++ f ++ e)) t
            end = Good v t).
  { destruct f, e; try destruct (int_too_long max (length i));
      try discriminate H; injection H as <- <-; split; reflexivity. }
  destruct Hres as [-> Hres].
  destruct (match_int_local _ _ _ _ Ei) as [-> [Hi Hti]].
  destruct (match_frac_local _ _ _ Ef) as [-> [Hf Htf]].
  destruct (match_exp_local _ _ _ Ee) as [-> [He Hte]].
  exists ((if neg then [45] else []) ++ i ++ f ++ e).
  split; [now rewrite <- !app_assoc |].
  split; [destruct neg, i; simpl; congruence |].
  intros t Ht.
  assert (Ht1 : no_head (fun c => is_digit c || (c =? 101) || (c =? 69)) t = true).
  { eapply no_head_weaken; [| exact Ht]. intros c Hc. unfold ends_number.
    rewrite <- !orb_assoc in *. apply orb_true_iff in Hc as [-> | Hc]; [reflexivity |].
    rewrite Hc. now rewrite !orb_true_r. }
  assert (Ht2 : no_head (fun c => is_digit c || (c =? 46)) t = true).
  { eapply no_head_weaken; [| exact Ht]. intros c Hc.
    apply orb_true_iff in Hc as [-> | ->]; [reflexivity |].
    now rewrite orb_true_r. }
  assert (Ht3 : no_head is_digit t = true).
  { eapply no_head_weaken; [| exact Ht2]. intros c0 Hc0; cbv beta; now rewrite Hc0. }
  assert (He3 : no_head is_digit e = true).
  { eapply no_head_weaken; [| exact He]. intros c0 Hc0; cbv beta; now rewrite Hc0. }
  rewrite <- !app_assoc.
  rewrite Hti by (apply no_head_app; [exact Hf |]; apply no_head_app; assumption).
  rewrite Htf by (apply no_head_app; assumption).
  rewrite Hte by exact Ht1. now rewrite Hres.
Qed.

(** ** Reading a value is local *)

Lemma skip_ws_to_ws s c r :
  skip_ws s = c :: r ->
  exists w, s = w ++ c :: r
    /\ Forall (fun c => is_json_ws c = true) w
    /\ is_json_ws c = false
    /\ forall t, skip_ws (w ++ c :: t) = c :: t.
Proof.
  intros H. destruct (skip_ws_split s) as [w [H1 H2]].
  exists w. rewrite H in H1. pose proof (skip_ws_head _ _ _ H) as Hc.
  repeat split; try assumption.
  intros t. rewrite skip_ws_app by exact H2. now apply skip_ws_stop.
Qed.

Lemma skip_ws_keep s k r :
  skip_ws s = k ++ r -> k <> [] ->
  exists w, s = w ++ k ++ r /\ forall t, skip_ws (w ++ k ++ t) = k ++ t.
Proof.
  intros H Hk. destruct k as [|c k]; [congruence |]. simpl in H.
  destruct (skip_ws_to_ws _ _ _ H) as [w [H1 [_ [_ H2]]]].
  exists w. split; [exact H1 |]. intros t. simpl. apply H2.
Qed.

(** Whitespace and then a comma or a closing bracket continue no
    number. *)
Lemma ends_number_after w c t :
  Forall (fun c => is_json_ws c = true) w ->
  (c =? 125) || (c =? 44) || (c =? 93) = true ->
  ends_number (w ++ c :: t) = true.
Proof.
  intros Hw Hc. destruct Hw as [|x w Hx _]; simpl.
  - rewrite !orb_true_iff, !N.eqb_eq in Hc. destruct Hc as [[-> | ->] | ->]; reflexivity.
  - unfold is_json_ws in Hx. rewrite !orb_true_iff, !N.eqb_eq in Hx.
    destruct Hx as [[[-> | ->] | ->] | ->]; reflexivity.
Qed.

Lemma scan_once_S lim n depth s :
  scan_once lim (S n) depth s =
  match s with
  | [] => Stop
  | c :: s1 =>
      if c =? 34 then
        match scanstring s1 [] with
        | Good k r => Good (VStr k) r
        | _ => raise_errmsg lim depth
        end
      else if c =? 123 then
        match depth with
        | O => Deep
        | S depth =>
            match skip_ws s1 with
            | c1 :: s2 =>
                if c1 =? 125 then Good (VDict []) s2
                else if c1 =? 34 then parse_members lim n depth s2 []
                else raise_errmsg lim depth
            | [] => raise_errmsg lim depth
            end
        end
      else if c =? 91 then
        match depth with
        | O => Deep
        | S depth =>
            match skip_ws s1 with
            | c1 :: s2 =>
                if c1 =? 93 then Good (VList []) s2
                else parse_items lim n depth (c1 :: s2) []
            | [] => Stop
            end
        end
      else if starts_with (py "null") s then Good VNone (drop 4 s)
      else if starts_with (py "true") s then Good (VBool true) (drop 4 s)
      else if starts_with (py "false") s then Good (VBool false) (drop 5 s)
      else
        match match_number (int_max_str_digits lim) s with
        | Some res => res
        | None =>
            if starts_with (py "NaN") s
            then parse_constant depth (VFloat (py "NaN")) (drop 3 s)
            else if starts_with (py "Infinity") s
            then parse_constant depth (VFloat (py "Infinity")) (drop 8 s)
            else if starts_with (py "-Infinity") s
            then parse_constant depth (VFloat (py "-Infinity")) (drop 9 s)
            else Stop
        end
  end.
Proof. reflexivity. Qed.

Lemma parse_members_S lim n depth s acc :
  parse_members lim (S n) depth s acc =
  match scanstring s [] with
  | Good key s1 =>
      match skip_ws s1 with
      | c :: s2 =>
          if c =? 58 then
            match scan_once lim n depth (skip_ws s2) with
            | Good v s3 =>
                match skip_ws s3 with
                | c2 :: s4 =>
                    if c2 =? 125 then Good (VDict (dict_set key v acc)) s4
                    else if c2 =? 44 then
                      match skip_ws s4 with
                      | c3 :: s5 =>
                          if c3 =? 34
                          then parse_members lim n depth s5 (dict_set key v acc)
                          else raise_errmsg lim depth
                      | [] => raise_errmsg lim depth
                      end
                    else raise_errmsg lim depth
                | [] => raise_errmsg lim depth
                end
            | Stop => Stop
            | Bad => Bad
            | Deep => Deep
            | Long => Long
            | Fuel => Fuel
            end
          else raise_errmsg lim depth
      | [] => raise_errmsg lim depth
      end
  | _ => raise_errmsg lim depth
  end.
Proof. reflexivity. Qed.

Lemma parse_items_S lim n depth s acc :
  parse_items lim (S n) depth s acc =
  match scan_once lim n depth s with
  | Good v s1 =>
      match skip_ws s1 with
      | c :: s2 =>
          if c =? 93 then Good (VList (acc ++ [v])) s2
          else if c =? 44 then parse_items lim n depth (skip_ws s2) (acc ++ [v])
          else raise_errmsg lim depth
      | [] => raise_errmsg lim depth
      end
  | Stop => Stop
  | Bad => Bad
  | Deep => Deep
  | Long => Long
  | Fuel => Fuel
  end.
Proof. reflexivity. Qed.

(** An error message is no value. *)
Lemma raise_errmsg_good {A} lim depth (v : A) r : raise_errmsg lim depth <> Good v r.
Proof. unfold raise_errmsg. now destruct (_ <=? _)%nat. Qed.

Lemma raise_errmsg_fuel {A} lim depth : @raise_errmsg A lim depth <> Fuel.
Proof. unfold raise_errmsg. now destruct (_ <=? _)%nat. Qed.

(** A read that gave a value gave no error. *)
Ltac no_value H :=
  solve [ discriminate H | exfalso; exact (raise_errmsg_good _ _ _ _ H) ].

Ltac list_norm :=
  repeat (rewrite <- app_assoc || rewrite <- app_comm_cons || rewrite app_nil_l).

Lemma items_step lim n :
  scan_local_at lim n -> items_local_at lim n -> items_local_at lim (S n).
Proof.
  intros IHs IHi depth s acc v r H. rewrite parse_items_S in H.
  destruct (scan_once lim n depth s) as [| | | | |v1 s1] eqn:Hv; try discriminate.
  destruct (IHs _ _ _ _ Hv) as [kv [-> [Hkv [_ Lv]]]].
  destruct (skip_ws s1) as [|c s2] eqn:Hw; [no_value H |].
  destruct (skip_ws_to_ws _ _ _ Hw) as [w1 [-> [Hw1 [_ Lw1]]]].
  destruct (c =? 93) eqn:E93.
  - injection H as <- <-. exists (kv ++ w1 ++ [c]).
    split; [now rewrite <- !app_assoc |].
    split; [destruct kv; simpl; congruence |].
    split; [eauto |].
    intros m t Hm. rewrite !length_app in Hm. simpl in Hm.
    destruct m as [|m]; [lia |]. rewrite parse_items_S.
    rewrite <- !app_assoc. simpl.
    rewrite Lv; [| lia | apply ends_number_after; [exact Hw1 | now rewrite E93, !orb_true_r]].
    now rewrite Lw1, E93.
  - destruct (c =? 44) eqn:E44; [| no_value H].
    destruct (IHi _ _ _ _ _ H) as [ki [Hs2 [Hki [Hl Li]]]].
    destruct (skip_ws_keep _ _ _ Hs2 Hki) as [w2 [-> Lw2]].
    exists (kv ++ w1 ++ c :: w2 ++ ki).
    split; [now rewrite <- !app_assoc; simpl; rewrite <- !app_assoc |].
    split; [destruct kv; simpl; congruence |].
    split; [exact Hl |].
    intros m t Hm. rewrite !length_app in Hm. simpl in Hm. rewrite length_app in Hm.
    destruct m as [|m]; [lia |]. rewrite parse_items_S.
    rewrite <- !app_assoc. simpl. rewrite <- !app_assoc.
    rewrite Lv; [| lia | apply ends_number_after; [exact Hw1 | now rewrite E44, orb_true_r]].
    rewrite Lw1, E93, E44, Lw2. apply Li. lia.
Qed.

Lemma members_step lim n :
  scan_local_at lim n -> members_local_at lim n -> members_local_at lim (S n).
Proof.
  intros IHs IHm depth s acc v r H. rewrite parse_members_S in H.
  destruct (scanstring s []) as [| | | | |key s1] eqn:Hkey; try no_value H.
  destruct (scanstring_local _ _ _ _ Hkey) as [kk [-> [Hkk Lk]]].
  destruct (skip_ws s1) as [|c s2] eqn:Hw1; [no_value H |].
  destruct (skip_ws_to_ws _ _ _ Hw1) as [w1 [-> [_ [_ Lw1]]]].
  destruct (c =? 58) eqn:E58; [| no_value H].
  destruct (scan_once lim n depth (skip_ws s2)) as [| | | | |v1 s3] eqn:Hv; try discriminate.
  destruct (IHs _ _ _ _ Hv) as [kv [Hs2 [Hkv [_ Lv]]]].
  destruct (skip_ws_keep _ _ _ Hs2 Hkv) as [w2 [-> Lw2]].
  destruct (skip_ws s3) as [|c2 s4] eqn:Hw3; [no_value H |].
  destruct (skip_ws_to_ws _ _ _ Hw3) as [w3 [-> [Hws3 [_ Lw3]]]].
  destruct (c2 =? 125) eqn:E125.
  - injection H as <- <-.
    exists (kk ++ w1 ++ c :: w2 ++ kv ++ w3 ++ [c2]).
    split; [now rewrite <- !app_assoc; simpl; rewrite <- !app_assoc |].
    split.
    { exists (kk ++ w1 ++ c :: w2 ++ kv ++ w3). apply N.eqb_eq in E125. subst c2.
      rewrite <- !app_assoc. simpl. now rewrite <- !app_assoc. }
    split; [eauto |].
    intros m t Hm. rewrite !length_app in Hm. simpl in Hm.
    rewrite !length_app in Hm. simpl in Hm.
    destruct m as [|m]; [lia |]. rewrite parse_members_S.
    list_norm.
    rewrite Lk, Lw1, E58, Lw2.
    rewrite Lv; [| lia | apply ends_number_after; [exact Hws3 | now rewrite E125]].
    now rewrite Lw3, E125.
  - destruct (c2 =? 44) eqn:E44; [| no_value H].
    destruct (skip_ws s4) as [|c3 s5] eqn:Hw4; [no_value H |].
    destruct (skip_ws_to_ws _ _ _ Hw4) as [w4 [-> [_ [_ Lw4]]]].
    destruct (c3 =? 34) eqn:E34; [| no_value H].
    destruct (IHm _ _ _ _ _ H) as [km [-> [[km' Hlast] [Hd Lm]]]].
    exists (kk ++ w1 ++ c :: w2 ++ kv ++ w3 ++ c2 :: w4 ++ c3 :: km).
    split; [now rewrite <- !app_assoc; simpl; rewrite <- !app_assoc; simpl; rewrite <- !app_assoc |].
    split.
    { exists (kk ++ w1 ++ c :: w2 ++ kv ++ w3 ++ c2 :: w4 ++ c3 :: km'). subst km.
      rewrite <- !app_assoc. simpl. rewrite <- !app_assoc. simpl.
      now rewrite <- !app_assoc. }
    split; [exact Hd |].
    intros m t Hm. rewrite !length_app in Hm. simpl in Hm.
    rewrite !length_app in Hm. simpl in Hm. rewrite !length_app in Hm. simpl in Hm.
    destruct m as [|m]; [lia |]. rewrite parse_members_S.
    list_norm.
    rewrite Lk, Lw1, E58, Lw2.
    rewrite Lv; [| lia | apply ends_number_after; [exact Hws3 | now rewrite E44, orb_true_r]].
    rewrite Lw3, E125, E44, Lw4, E34. apply Lm. lia.
Qed.

Lemma number_head max c s res :
  match_number max (c :: s) = Some res -> (c =? 45) || is_digit c = true.
Proof.
  unfold match_number, match_int. destruct (c =? 45) eqn:E; [reflexivity |].
  destruct (c =? 48) eqn:E0.
  - apply N.eqb_eq in E0. now subst c.
  - destruct (is_digit c); [reflexivity | discriminate].
Qed.

Lemma number_not_dict max s v r d :
  match_number max s = Some (Good v r) -> v <> VDict d.
Proof.
  unfold match_number. destruct (match_int s) as [[[neg i] s1]|]; [| discriminate].
  destruct (match_frac s1) as [f s2]. destruct (match_exp s2) as [e s3].
  intros H. injection H as H.
  destruct f, e; try destruct (int_too_long max (length i));
    try discriminate H; injection H as <- _; discriminate.
Qed.

(** A text that starts a number is read as that number. *)
Lemma scan_once_number lim m depth s res :
  match_number (int_max_str_digits lim) s = Some res ->
  scan_once lim (S m) depth s = res.
Proof.
  intros H. destruct s as [|c s]; [discriminate |].
  pose proof (number_head _ _ _ _ H) as Hc.
  assert (Hne : forall x, (x < 45 \/ 57 < x) -> (c =? x) = false).
  { intros x Hx. unfold is_digit in Hc.
    rewrite orb_true_iff, andb_true_iff, N.eqb_eq, !N.leb_le in Hc.
    apply N.eqb_neq. lia. }
  assert (Hlit : forall p x, (c =? x) = false ->
            starts_with (x :: p) (c :: s) = false).
  { intros p x Hx. simpl. rewrite N.eqb_sym. now rewrite Hx. }
  rewrite scan_once_S.
  rewrite (Hne 34 ltac:(lia)), (Hne 123 ltac:(lia)), (Hne 91 ltac:(lia)).
  assert (Hn : starts_with (py "null") (c :: s) = false)
    by (apply (Hlit _ 110), Hne; lia).
  assert (Ht : starts_with (py "true") (c :: s) = false)
    by (apply (Hlit _ 116), Hne; lia).
  assert (Hf : starts_with (py "false") (c :: s) = false)
    by (apply (Hlit _ 102), Hne; lia).
  now rewrite Hn, Ht, Hf, H.
Qed.

Ltac literal_case lit :=
  exists lit;
  split; [reflexivity |];
  split; [intros E; vm_compute in E; discriminate E |];
  split; [intros d Hd; discriminate Hd |];
  intros m t Hm _; destruct m as [|m]; [simpl in Hm; lia | reflexivity].

Lemma scan_step lim n :
  members_local_at lim n -> items_local_at lim n -> scan_local_at lim (S n).
Proof.
  intros IHm IHi depth s v r H. rewrite scan_once_S in H.
  destruct s as [|c s1]; [discriminate |].
  destruct (c =? 34) eqn:E34.
  { destruct (scanstring s1 []) as [| | | | |key s2] eqn:Hkey; try no_value H.
    injection H as <- <-.
    destruct (scanstring_local _ _ _ _ Hkey) as [kk [-> [_ Lk]]].
    exists (c :: kk). repeat split; try discriminate.
    intros m t Hm _. destruct m as [|m]; [simpl in Hm; lia |].
    cbn [app]. now rewrite scan_once_S, E34, Lk. }
  destruct (c =? 123) eqn:E123.
  { apply N.eqb_eq in E123 as Hc. subst c.
    destruct depth as [|depth]; [discriminate |].
    destruct (skip_ws s1) as [|c1 s2] eqn:Hw; [no_value H |].
    destruct (skip_ws_to_ws _ _ _ Hw) as [w [-> [_ [_ Lw]]]].
    destruct (c1 =? 125) eqn:E125.
    - injection H as <- <-. apply N.eqb_eq in E125 as Hc. subst c1.
      exists (123 :: w ++ [125]).
      split; [now list_norm |]. split; [discriminate |].
      split; [intros d _; now exists w |].
      intros m t Hm _. destruct m as [|m]; [simpl in Hm; lia |].
      list_norm. now rewrite scan_once_S, E34, E123, Lw, E125.
    - destruct (c1 =? 34) eqn:Eq; [| no_value H].
      destruct (IHm _ _ _ _ _ H) as [km [-> [[km' Hlast] [Hd Lm]]]].
      exists (123 :: w ++ c1 :: km).
      split; [now list_norm |]. split; [discriminate |].
      split.
      { intros d _. exists (w ++ c1 :: km'). subst km. now list_norm. }
      intros m t Hm _. destruct m as [|m]; [simpl in Hm; lia |].
      list_norm. rewrite scan_once_S, E34, E123, Lw, E125, Eq.
      apply Lm. simpl in Hm. rewrite length_app in Hm. simpl in Hm. lia. }
  destruct (c =? 91) eqn:E91.
  { destruct depth as [|depth]; [discriminate |].
    destruct (skip_ws s1) as [|c1 s2] eqn:Hw; [discriminate |].
    destruct (skip_ws_to_ws _ _ _ Hw) as [w [-> [_ [_ Lw]]]].
    destruct (c1 =? 93) eqn:E93.
    - injection H as <- <-. exists (c :: w ++ [c1]).
      split; [now list_norm |]. repeat split; try discriminate.
      intros m t Hm _. destruct m as [|m]; [simpl in Hm; lia |].
      list_norm. now rewrite scan_once_S, E34, E123, E91, Lw, E93.
    - destruct (IHi _ _ _ _ _ H) as [ki [Hs [Hki [[l ->] Li]]]].
      destruct ki as [|c1' ki]; [congruence |]. simpl in Hs.
      injection Hs as <- ->.
      exists (c :: w ++ c1 :: ki).
      split; [now list_norm |]. repeat split; try discriminate.
      intros m t Hm _. destruct m as [|m]; [simpl in Hm; lia |].
      list_norm. rewrite scan_once_S, E34, E123, E91, Lw, E93.
      apply (Li m t). simpl in *. rewrite length_app in Hm. simpl in Hm. lia. }
  destruct (starts_with (py "null") (c :: s1)) eqn:Enull.
  { apply starts_with_spec in Enull as [b Hb]. cbn in Hb.
    injection Hb as -> ->. cbn in H. injection H as <- <-.
    literal_case (py "null"). }
  destruct (starts_with (py "true") (c :: s1)) eqn:Etrue.
  { apply starts_with_spec in Etrue as [b Hb]. cbn in Hb.
    injection Hb as -> ->. cbn in H. injection H as <- <-.
    literal_case (py "true"). }
  destruct (starts_with (py "false") (c :: s1)) eqn:Efalse.
  { apply starts_with_spec in Efalse as [b Hb]. cbn in Hb.
    injection Hb as -> ->. cbn in H. injection H as <- <-.
    literal_case (py "false"). }
  destruct (match_number (int_max_str_digits lim) (c :: s1)) as [res|] eqn:Enum.
  { subst res.
    destruct (match_number_local _ _ _ _ Enum) as [k [Hs [Hk Lk]]].
    exists k. split; [exact Hs |]. split; [exact Hk |].
    split; [intros d Hd; now apply (number_not_dict _ _ _ _ d) in Enum |].
    intros m t Hm Ht. destruct m as [|m]; [lia |].
    apply scan_once_number. now apply Lk. }
  destruct (starts_with (py "NaN") (c :: s1)) eqn:Enan.
  { apply starts_with_spec in Enan as [b Hb]. cbn in Hb.
    injection Hb as -> ->. destruct depth as [|depth]; [discriminate H |].
    cbn in H. injection H as <- <-.
    literal_case (py "NaN"). }
  destruct (starts_with (py "Infinity") (c :: s1)) eqn:Einf.
  { apply starts_with_spec in Einf as [b Hb]. cbn in Hb.
    injection Hb as -> ->. destruct depth as [|depth]; [discriminate H |].
    cbn in H. injection H as <- <-.
    literal_case (py "Infinity"). }
  destruct (starts_with (py "-Infinity") (c :: s1)) eqn:Eninf; [| discriminate].
  apply starts_with_spec in Eninf as [b Hb]. cbn in Hb.
  injection Hb as -> ->. destruct depth as [|depth]; [discriminate H |].
  cbn in H. injection H as <- <-.
  literal_case (py "-Infinity").
Qed.

(** Every successful read is local, at every fuel. *)
Lemma reads_are_local lim n :
  scan_local_at lim n /\ members_local_at lim n /\ items_local_at lim n.
Proof.
  induction n as [|n [IHs [IHm IHi]]].
  - repeat split; intros depth s; intros; discriminate.
  - pose proof (scan_step lim n IHm IHi) as Hs.
    repeat split.
    + exact Hs.
    + now apply members_step.
    + now apply items_step.
Qed.

(** ** The decoder's fuel suffices *)

Lemma skip_ws_length s : (length (skip_ws s) <= length s)%nat.
Proof.
  destruct (skip_ws_split s) as [w [H _]]. rewrite H at 2.
  rewrite length_app. lia.
Qed.

Ltac split_cases H :=
  repeat match type of H with
         | context [match ?x with _ => _ end] => destruct x eqn:?; try discriminate H
         | context [if ?x then _ else _] => destruct x eqn:?; try discriminate H
         end.

Lemma scanstring_no_fuel s : forall acc, scanstring s acc <> Fuel.
Proof.
  induction s as [s IH] using (induction_ltof1 _ (@length N)).
  unfold ltof in IH. intros acc H.
  destruct s as [|c s1]; [discriminate |]. simpl in H.
  split_cases H; subst; (apply IH in H; [exact H | simpl; lia]).
Qed.

Lemma scanstring_shorter s acc v r :
  scanstring s acc = Good v r -> (length r < length s)%nat.
Proof.
  intros H. destruct (scanstring_local _ _ _ _ H) as [k [-> [Hk _]]].
  rewrite length_app. destruct k; [congruence | simpl; lia].
Qed.

Lemma scan_once_shorter lim n depth s v r :
  scan_once lim n depth s = Good v r -> (length r < length s)%nat.
Proof.
  intros H. destruct (reads_are_local lim n) as [Hloc _].
  destruct (Hloc _ _ _ _ H) as [k [-> [Hk _]]].
  rewrite length_app. destruct k; [congruence | simpl; lia].
Qed.

Lemma skip_ws_cons_length s c r :
  skip_ws s = c :: r -> (length r < length s)%nat.
Proof.
  intros H. pose proof (skip_ws_length s) as Hl. rewrite H in Hl.
  simpl in Hl. lia.
Qed.

Ltac no_fuel H :=
  solve [ discriminate H | exfalso; exact (raise_errmsg_fuel _ _ H) ].

Lemma fuel_suffices lim n : fuel_enough lim n.
Proof.
  induction n as [|n [IHs [IHm IHi]]].
  - repeat split; intros; lia.
  - repeat split.
    + intros depth s Hn H. rewrite scan_once_S in H.
      destruct s as [|c s1]; [discriminate |].
      destruct (c =? 34).
      { destruct (scanstring s1 []) eqn:E; no_fuel H. }
      destruct (c =? 123).
      { destruct depth as [|depth]; [discriminate |].
        destruct (skip_ws s1) as [|c1 s2] eqn:Hw; [no_fuel H |].
        apply skip_ws_cons_length in Hw.
        destruct (c1 =? 125); [discriminate |].
        destruct (c1 =? 34); [| no_fuel H].
        apply IHm in H; [exact H |]. simpl in Hn. lia. }
      destruct (c =? 91).
      { destruct depth as [|depth]; [discriminate |].
        destruct (skip_ws s1) as [|c1 s2] eqn:Hw; [discriminate |].
        apply skip_ws_cons_length in Hw.
        destruct (c1 =? 93); [discriminate |].
        apply IHi in H; [exact H |]. simpl in *. lia. }
      destruct (starts_with (py "null") (c :: s1)); [discriminate |].
      destruct (starts_with (py "true") (c :: s1)); [discriminate |].
      destruct (starts_with (py "false") (c :: s1)); [discriminate |].
      destruct (match_number (int_max_str_digits lim) (c :: s1)) as [res|] eqn:Enum.
      { subst res. unfold match_number in Enum.
        destruct (match_int (c :: s1)) as [[[neg i] r1]|]; [| discriminate].
        destruct (match_frac r1) as [f r2]. destruct (match_exp r2) as [e r3].
        injection Enum as Enum.
        destruct f, e; try destruct (int_too_long _ _); discriminate. }
      unfold parse_constant in H.
      destruct (starts_with (py "NaN") (c :: s1)); [now destruct depth |].
      destruct (starts_with (py "Infinity") (c :: s1)); [now destruct depth |].
      destruct (starts_with (py "-Infinity") (c :: s1)); [now destruct depth |].
      discriminate.
    + intros depth s acc Hn H. rewrite parse_members_S in H.
      destruct (scanstring s []) as [| | | | |key s1] eqn:Hkey; try no_fuel H.
      apply scanstring_shorter in Hkey.
      destruct (skip_ws s1) as [|c s2] eqn:Hw1; [no_fuel H |].
      apply skip_ws_cons_length in Hw1.
      destruct (c =? 58); [| no_fuel H].
      pose proof (skip_ws_length s2) as Hl2.
      destruct (scan_once lim n depth (skip_ws s2)) as [| | | | |v1 s3] eqn:Hv;
        try discriminate.
      { apply IHs in Hv; [exact Hv | lia]. }
      apply scan_once_shorter in Hv.
      destruct (skip_ws s3) as [|c2 s4] eqn:Hw3; [no_fuel H |].
      apply skip_ws_cons_length in Hw3.
      destruct (c2 =? 125); [discriminate |].
      destruct (c2 =? 44); [| no_fuel H].
      destruct (skip_ws s4) as [|c3 s5] eqn:Hw4; [no_fuel H |].
      apply skip_ws_cons_length in Hw4.
      destruct (c3 =? 34); [| no_fuel H].
      apply IHm in H; [exact H | lia].
    + intros depth s acc Hn H. rewrite parse_items_S in H.
      destruct (scan_once lim n depth s) as [| | | | |v1 s1] eqn:Hv; try discriminate.
      { apply IHs in Hv; [exact Hv | lia]. }
      apply scan_once_shorter in Hv.
      destruct (skip_ws s1) as [|c s2] eqn:Hw; [no_fuel H |].
      apply skip_ws_cons_length in Hw.
      destruct (c =? 93); [discriminate |].
      destruct (c =? 44); [| no_fuel H].
      pose proof (skip_ws_length s2) as Hl2.
      apply IHi in H; [exact H | lia].
Qed.

(** [json_loads] never stops for lack of fuel: the class it gives
    stands for an error of the decoder and for nothing else. *)
Lemma json_loads_fuel lim s :
  scan_once lim (S (2 * length s)) (recursion_left lim) (skip_ws s) <> Fuel.
Proof.
  apply (proj1 (fuel_suffices lim _)). pose proof (skip_ws_length s). lia.
Qed.

(** ** A decoded object sits between whitespace *)

Lemma json_loads_object lim s d :
  json_loads lim s = inr (VDict d) ->
  exists w1 k' w2,
    s = w1 ++ (123 :: k' ++ [125]) ++ w2
    /\ Forall (fun c => is_json_ws c = true) w1
    /\ Forall (fun c => is_json_ws c = true) w2
    /\ json_loads lim (123 :: k' ++ [125]) = inr (VDict d).
Proof.
  unfold json_loads. destruct (starts_with [65279] s); [discriminate |].
  destruct (scan_once _ _ _ (skip_ws s)) as [| | | | |v rest] eqn:Hscan;
    try discriminate.
  destruct (skip_ws rest) eqn:Hrest; [| discriminate].
  intros H. injection H as ->.
  destruct (reads_are_local lim (S (2 * length s))) as [Hloc _].
  destruct (Hloc _ _ _ _ Hscan) as [k [Hs [_ [Hshape L]]]].
  destruct (Hshape d eq_refl) as [k' ->].
  destruct (skip_ws_split s) as [w1 [Hs1 Hw1]].
  destruct (skip_ws_split rest) as [w2 [Hs2 Hw2]].
  rewrite Hrest, app_nil_r in Hs2. subst rest.
  exists w1, k', w2. split; [now rewrite Hs1 at 1; rewrite Hs |].
  split; [exact Hw1 |]. split; [exact Hw2 |].
  cbn [starts_with N.eqb Pos.eqb andb]. cbn [skip_ws is_json_ws N.eqb Pos.eqb orb].
  specialize (L (S (2 * length (123 :: k' ++ [125]))) []).
  rewrite app_nil_r in L. rewrite L; [reflexivity | lia | reflexivity].
Qed.

(** ** The fenced-block patterns *)

Lemma lit_app p r : lit p (p ++ r) = Some r.
Proof. induction p as [|a p IH]; simpl; [reflexivity |]. now rewrite N.eqb_refl. Qed.

Lemma lit_starts_with p s :
  match lit p s with Some _ => true | None => false end = starts_with p s.
Proof.
  revert s. induction p as [|a p IH]; intros [|b s]; simpl; try reflexivity.
  destruct (a =? b); [apply IH | reflexivity].
Qed.

Lemma lit_none p s : starts_with p s = false -> lit p s = None.
Proof.
  intros H. rewrite <- lit_starts_with in H. now destruct (lit p s).
Qed.

Lemma space_not_backquote c : is_space c = true -> (96 =? c) = false.
Proof.
  intros H. destruct (96 =? c) eqn:E; [| reflexivity].
  apply N.eqb_eq in E. subst c. discriminate H.
Qed.

Lemma json_ws_is_space c : is_json_ws c = true -> is_space c = true.
Proof.
  unfold is_json_ws. rewrite !orb_true_iff, !N.eqb_eq.
  intros [[[-> | ->] | ->] | ->]; reflexivity.
Qed.

Lemma lstrip_app w s :
  Forall (fun c => is_space c = true) w -> lstrip (w ++ s) = lstrip s.
Proof. induction 1 as [|c w Hc _ IH]; simpl; [reflexivity |]. now rewrite Hc. Qed.

(** The tail [\s*```] of the patterns matches where, behind
    whitespace, a fence starts. *)
Lemma close_fence {A} (g : A) s :
  star_greedy is_space s
    (fun s4 => match lit fence s4 with Some _ => Some g | None => None end)
  = if starts_with fence (lstrip s) then Some g else None.
Proof.
  induction s as [|c s IH].
  - reflexivity.
  - cbn [star_greedy lstrip]. destruct (is_space c) eqn:Ec.
    + rewrite IH. destruct (starts_with fence (lstrip s)); [reflexivity |].
      rewrite lit_none; [reflexivity |].
      change fence with [96; 96; 96]. cbn [starts_with].
      now rewrite (space_not_backquote c Ec).
    + rewrite <- lit_starts_with. now destruct (lit fence (c :: s)).
Qed.

Lemma group_lazy_unfold {A} s seen (k : str -> str -> option A) :
  group_lazy s seen k =
  match k (rev seen) s with
  | Some r => Some r
  | None =>
      match s with
      | c :: s' => group_lazy s' (c :: seen) k
      | [] => None
      end
  end.
Proof. destruct s; reflexivity. Qed.

(** The lazy group captures up to the first place where the rest of
    the pattern matches. *)
Lemma group_lazy_first {A} (K : str -> str -> option A) a : forall seen t x,
  (forall a1 a2, a = a1 ++ a2 -> a2 <> [] ->
     K (rev seen ++ a1) (a2 ++ t) = None) ->
  K (rev seen ++ a) t = Some x ->
  group_lazy (a ++ t) seen K = Some x.
Proof.
  induction a as [|c a IH]; intros seen t x Hnone Hsome.
  - rewrite group_lazy_unfold. rewrite app_nil_r in Hsome. simpl.
    now rewrite Hsome.
  - rewrite group_lazy_unfold.
    pose proof (Hnone [] (c :: a) eq_refl ltac:(discriminate)) as H0.
    rewrite app_nil_r in H0. rewrite H0. cbn [app].
    apply IH.
    + intros a1 a2 -> Ha2. cbn [rev]. rewrite <- app_assoc. cbn [app].
      now apply (Hnone (c :: a1) a2).
    + cbn [rev]. now rewrite <- app_assoc.
Qed.

Lemma star_greedy_skip {A} p w t (K : str -> option A) x :
  Forall (fun c => p c = true) w ->
  star_greedy p t K = Some x ->
  star_greedy p (w ++ t) K = Some x.
Proof.
  intros Hw Ht. induction Hw as [|c w Hc _ IH]; [exact Ht |].
  cbn [app star_greedy]. now rewrite Hc, IH.
Qed.

Lemma star_greedy_stop {A} p c s (K : str -> option A) :
  p c = false -> star_greedy p (c :: s) K = K (c :: s).
Proof. intros H. cbn [star_greedy]. now rewrite H. Qed.

(** Stripping leading whitespace from a text that ends in a character
    that is no whitespace leaves a non-empty end of it. *)
Lemma lstrip_keeps_end a : forall z t,
  is_space z = false ->
  exists b1 b2, a ++ [z] = b1 ++ b2 /\ b2 <> []
    /\ lstrip ((a ++ [z]) ++ t) = b2 ++ t.
Proof.
  induction a as [|c a IH]; intros z t Hz.
  - exists [], [z]. repeat split; [discriminate |]. simpl. now rewrite Hz.
  - destruct (is_space c) eqn:Ec.
    + destruct (IH z t Hz) as [b1 [b2 [H1 [H2 H3]]]].
      exists (c :: b1), b2. repeat split; [simpl; now f_equal | exact H2 |].
      simpl. now rewrite Ec.
    + exists [], (c :: a ++ [z]). repeat split; [discriminate |].
      simpl. now rewrite Ec.
Qed.

(** A fence that starts inside [b] lies in [b], unless [b] is nothing
    but backquotes. *)
Lemma fence_starts_inside b t :
  b <> [] -> starts_with fence (b ++ t) = true ->
  occurs fence b \/ Forall (fun c => c = 96) b.
Proof.
  intros Hb H. destruct b as [|c1 [|c2 [|c3 b]]]; [congruence | | |];
    change fence with [96; 96; 96] in H; cbn [starts_with app] in H;
    rewrite ?andb_true_iff, ?N.eqb_eq in H.
  - right. destruct H as [<- _]. now repeat constructor.
  - right. destruct H as [<- [<- _]]. now repeat constructor.
  - left. destruct H as [<- [<- [<- _]]]. exists [], b. reflexivity.
Qed.

Lemma occurs_app_l p a b : occurs p a -> occurs p (a ++ b).
Proof. intros [x [y ->]]. exists x, (y ++ b). now rewrite <- !app_assoc. Qed.

Lemma occurs_app_r p a b : occurs p b -> occurs p (a ++ b).
Proof. intros [x [y ->]]. exists (a ++ x), y. now rewrite <- !app_assoc. Qed.

(** ** Texts that take the decoder to no limit *)

Lemma openings_app a b : openings (a ++ b) = (openings a + openings b)%nat.
Proof. induction a as [|c a IH]; simpl; [reflexivity |]. rewrite IH. lia. Qed.

Lemma run_of_prefix p g b :
  (length (run_of p g) <= length (run_of p (g ++ b)))%nat.
Proof.
  induction g as [|c g IH]; simpl; [lia |].
  destruct (p c); simpl; lia.
Qed.

Lemma run_of_covers p i r :
  Forall (fun c => p c = true) i ->
  (length i <= length (run_of p (i ++ r)))%nat.
Proof.
  induction 1 as [|c i Hc _ IH]; simpl; [lia |]. rewrite Hc. simpl. lia.
Qed.

Lemma longest_digit_run_head s :
  (length (run_of is_digit s) <= longest_digit_run s)%nat.
Proof. destruct s as [|c s]; simpl; lia. Qed.

Lemma longest_digit_run_suffix k r :
  (longest_digit_run r <= longest_digit_run (k ++ r))%nat.
Proof.
  induction k as [|c k IH]; [simpl; lia |].
  cbn [app longest_digit_run]. lia.
Qed.

Lemma longest_digit_run_prefix g b :
  (longest_digit_run g <= longest_digit_run (g ++ b))%nat.
Proof.
  induction g as [|c g IH]; [simpl; lia |].
  cbn [app longest_digit_run].
  pose proof (run_of_prefix is_digit (c :: g) b) as H. cbn [app] in H. lia.
Qed.

Lemma int_too_long_mono max n m :
  (n <= m)%nat -> int_too_long max m = false -> int_too_long max n = false.
Proof.
  intros Hnm H. destruct (int_too_long max n) eqn:E; [| reflexivity].
  unfold int_too_long in *.
  apply andb_true_iff in E as [E E3]. apply andb_true_iff in E as [E1 E2].
  apply Nat.ltb_lt in E1, E2, E3. rewrite <- H. symmetry.
  rewrite !andb_true_iff, !Nat.ltb_lt. lia.
Qed.

(** A part of a text that fits also fits. *)
Lemma fits_part lim depth a g b : fits lim depth (a ++ g ++ b) -> fits lim depth g.
Proof.
  intros [Ho Hd]. split.
  - rewrite !openings_app in Ho. lia.
  - eapply int_too_long_mono; [| exact Hd].
    etransitivity; [apply (longest_digit_run_prefix g b) |].
    apply longest_digit_run_suffix.
Qed.

Lemma fits_suffix lim depth r s : r `suffix_of` s -> fits lim depth s -> fits lim depth r.
Proof.
  intros [k ->] H. apply (fits_part lim depth k r []). now rewrite app_nil_r.
Qed.

(** Behind an opening, one level down. *)
Lemma fits_opening lim depth c s :
  is_opening c = true -> fits lim depth (c :: s) ->
  exists d, depth = S d /\ fits lim d s.
Proof.
  intros Hc [Ho Hd]. simpl in Ho. rewrite Hc in Ho.
  destruct depth as [|d]; [lia |]. exists d. split; [reflexivity |].
  split; [lia |].
  eapply int_too_long_mono; [| exact Hd]. apply (longest_digit_run_suffix [c] s).
Qed.

Lemma skip_ws_suffix s : skip_ws s `suffix_of` s.
Proof. destruct (skip_ws_split s) as [w [H _]]. now exists w. Qed.

Lemma scanstring_suffix s acc v r : scanstring s acc = Good v r -> r `suffix_of` s.
Proof.
  intros H. destruct (scanstring_local _ _ _ _ H) as [k [-> _]]. now exists k.
Qed.

Lemma scan_once_suffix lim n depth s v r :
  scan_once lim n depth s = Good v r -> r `suffix_of` s.
Proof.
  intros H. destruct (reads_are_local lim n) as [Hloc _].
  destruct (Hloc _ _ _ _ H) as [k [-> _]]. now exists k.
Qed.

(** With the spare levels free, an error message and a constant come
    out as they are. *)
Lemma raise_errmsg_fits {A} lim depth s :
  fits lim depth s -> @raise_errmsg A lim depth = Bad.
Proof.
  intros [Ho _]. unfold raise_errmsg, spare_levels in *.
  destruct (error_levels lim <=? depth)%nat eqn:E; [reflexivity |].
  apply Nat.leb_gt in E. lia.
Qed.

Lemma parse_constant_fits lim depth s v r :
  fits lim depth s -> parse_constant depth v r = Good v r.
Proof.
  intros [Ho _]. unfold spare_levels in Ho. destruct depth; [lia | reflexivity].
Qed.

Lemma match_int_digits s neg i s1 :
  match_int s = Some (neg, i, s1) -> Forall (fun c => is_digit c = true) i.
Proof.
  unfold match_int.
  assert (Hcore : forall s0,
    match s0 with
    | c :: s2 =>
        if c =? 48 then Some (neg, [c], s2)
        else if is_digit c then
          let (d, r) := span_digits s2 in Some (neg, c :: d, r)
        else None
    | [] => None
    end = Some (neg, i, s1) -> Forall (fun c => is_digit c = true) i).
  { intros [|c s2] H; [discriminate |].
    destruct (c =? 48) eqn:E0.
    - injection H as <- _. apply N.eqb_eq in E0. subst c. now repeat constructor.
    - destruct (is_digit c) eqn:Ed; [| discriminate].
      destruct (span_digits s2) as [d r] eqn:Es. injection H as <- _.
      destruct (span_digits_spec _ _ _ Es) as [_ Hd]. now constructor. }
  destruct s as [|c s']; [discriminate |].
  destruct (c =? 45).
  - intros H. apply (Hcore s').
    destruct s' as [|c' s2]; [discriminate |].
    destruct (c' =? 48); [now injection H as <- <- <- |].
    destruct (is_digit c'); [| discriminate].
    destruct (span_digits s2). now injection H as <- <- <-.
  - intros H. apply (Hcore (c :: s')).
    destruct (c =? 48); [now injection H as <- <- <- |].
    destruct (is_digit c); [| discriminate].
    destruct (span_digits s'). now injection H as <- <- <-.
Qed.

(** A number in a text that fits is converted. *)
Lemma match_number_fits lim depth s res :
  fits lim depth s ->
  match_number (int_max_str_digits lim) s = Some res ->
  limit_free res.
Proof.
  intros [_ Hd]. unfold match_number.
  destruct (match_int s) as [[[neg i] s1]|] eqn:Ei; [| discriminate].
  destruct (match_frac s1) as [f s2]. destruct (match_exp s2) as [e s3].
  intros H. injection H as <-.
  assert (Hi : int_too_long (int_max_str_digits lim) (length i) = false).
  { eapply int_too_long_mono; [| exact Hd].
    pose proof (match_int_digits _ _ _ _ Ei) as Hdig.
    destruct (match_int_local _ _ _ _ Ei) as [-> _].
    etransitivity; [apply (run_of_covers is_digit i s1 Hdig) |].
    etransitivity; [apply longest_digit_run_head |].
    apply longest_digit_run_suffix. }
  rewrite Hi. destruct f, e; split; discriminate.
Qed.

(** The three readers stop at no limit on a text that fits. *)
Lemma reads_fit lim n :
  (forall depth s, fits lim depth s -> limit_free (scan_once lim n depth s))
  /\ (forall depth s acc, fits lim depth s ->
        limit_free (parse_members lim n depth s acc))
  /\ (forall depth s acc, fits lim depth s ->
        limit_free (parse_items lim n depth s acc)).
Proof.
  assert (Hbad : forall depth s (r : pres value),
            fits lim depth s -> r = raise_errmsg lim depth -> limit_free r).
  { intros depth s r Hf ->. rewrite (raise_errmsg_fits _ _ _ Hf). split; discriminate. }
  induction n as [|n [IHs [IHm IHi]]].
  - repeat split; discriminate.
  - split; [| split].
    + intros depth s Hfit. rewrite scan_once_S.
      destruct s as [|c s1]; [split; discriminate |].
      destruct (c =? 34).
      { destruct (scanstring s1 []);
          solve [split; discriminate | now apply (Hbad depth (c :: s1))]. }
      destruct (c =? 123) eqn:E123.
      { destruct (fits_opening lim depth c s1) as [d [-> Hd]];
          [unfold is_opening; now rewrite E123 | exact Hfit |].
        pose proof (skip_ws_suffix s1) as Hsuf.
        destruct (skip_ws s1) as [|c1 s2]; [now apply (Hbad d s1) |].
        destruct (c1 =? 125); [split; discriminate |].
        destruct (c1 =? 34); [| now apply (Hbad d s1)].
        apply IHm. eapply fits_suffix; [| exact Hd].
        etransitivity; [| exact Hsuf]. now exists [c1]. }
      destruct (c =? 91) eqn:E91.
      { destruct (fits_opening lim depth c s1) as [d [-> Hd]];
          [unfold is_opening; now rewrite E91, orb_true_r | exact Hfit |].
        pose proof (skip_ws_suffix s1) as Hsuf.
        destruct (skip_ws s1) as [|c1 s2]; [split; discriminate |].
        destruct (c1 =? 93); [split; discriminate |].
        apply IHi. eapply fits_suffix; [exact Hsuf | exact Hd]. }
      destruct (starts_with (py "null") (c :: s1)); [split; discriminate |].
      destruct (starts_with (py "true") (c :: s1)); [split; discriminate |].
      destruct (starts_with (py "false") (c :: s1)); [split; discriminate |].
      destruct (match_number _ (c :: s1)) as [res|] eqn:Enum.
      { exact (match_number_fits _ _ _ _ Hfit Enum). }
      rewrite !(parse_constant_fits lim depth (c :: s1)) by exact Hfit.
      destruct (starts_with (py "NaN") (c :: s1)); [split; discriminate |].
      destruct (starts_with (py "Infinity") (c :: s1)); [split; discriminate |].
      destruct (starts_with (py "-Infinity") (c :: s1)); split; discriminate.
    + intros depth s acc Hfit. rewrite parse_members_S.
      destruct (scanstring s []) as [| | | | |key s1] eqn:Hkey;
        try (now apply (Hbad depth s)).
      apply scanstring_suffix in Hkey.
      pose proof (skip_ws_suffix s1) as Hw1.
      destruct (skip_ws s1) as [|c s2]; [now apply (Hbad depth s) |].
      destruct (c =? 58); [| now apply (Hbad depth s)].
      assert (Hs2 : s2 `suffix_of` s).
      { etransitivity; [| exact Hkey]. etransitivity; [| exact Hw1]. now exists [c]. }
      assert (Hf2 : fits lim depth (skip_ws s2)).
      { eapply fits_suffix; [| exact Hfit].
        etransitivity; [apply skip_ws_suffix | exact Hs2]. }
      pose proof (IHs _ _ Hf2) as [Hv1 Hv2].
      destruct (scan_once lim n depth (skip_ws s2)) as [| | | | |v s3] eqn:Hv;
        try (split; congruence).
      apply scan_once_suffix in Hv.
      pose proof (skip_ws_suffix s3) as Hw3.
      destruct (skip_ws s3) as [|c2 s4]; [now apply (Hbad depth s) |].
      destruct (c2 =? 125); [split; discriminate |].
      destruct (c2 =? 44); [| now apply (Hbad depth s)].
      pose proof (skip_ws_suffix s4) as Hw4.
      destruct (skip_ws s4) as [|c3 s5]; [now apply (Hbad depth s) |].
      destruct (c3 =? 34); [| now apply (Hbad depth s)].
      apply IHm. eapply fits_suffix; [| exact Hf2].
      etransitivity; [| exact Hv]. etransitivity; [| exact Hw3].
      etransitivity; [| exists [c2]; reflexivity].
      etransitivity; [| exact Hw4]. now exists [c3].
    + intros depth s acc Hfit. rewrite parse_items_S.
      pose proof (IHs _ _ Hfit) as [Hv1 Hv2].
      destruct (scan_once lim n depth s) as [| | | | |v s1] eqn:Hv;
        try (split; congruence).
      apply scan_once_suffix in Hv.
      pose proof (skip_ws_suffix s1) as Hw1.
      destruct (skip_ws s1) as [|c s2]; [now apply (Hbad depth s) |].
      destruct (c =? 93); [split; discriminate |].
      destruct (c =? 44); [| now apply (Hbad depth s)].
      apply IHi. eapply fits_suffix; [| exact Hfit].
      etransitivity; [apply skip_ws_suffix |].
      etransitivity; [| exact Hv]. etransitivity; [| exact Hw1]. now exists [c].
Qed.

(** Within the limits, the only error of [json.loads] is the decode
    error. *)
Lemma json_loads_within lim s c :
  within_limits lim s -> json_loads lim s = inl c -> c = JSONDecodeError.
Proof.
  intros Hfit. unfold json_loads.
  assert (Herr : forall above, decode_error lim above = JSONDecodeError).
  { intros above. destruct Hfit as [Ho _]. unfold decode_error, spare_levels in *.
    destruct (_ <=? _)%nat eqn:E; [reflexivity |]. apply Nat.leb_gt in E. lia. }
  destruct (starts_with [65279] s); [intros [= <-]; apply Herr |].
  assert (Hf : fits lim (recursion_left lim) (skip_ws s)).
  { eapply fits_suffix; [apply skip_ws_suffix | exact Hfit]. }
  pose proof (proj1 (reads_fit lim (S (2 * length s))) _ _ Hf) as [H1 H2].
  destruct (scan_once _ _ _ (skip_ws s)) as [| | | | |v rest];
    try congruence; try (now intros [= <-]); try (intros [= <-]; apply Herr).
  destruct (skip_ws rest); [discriminate | intros [= <-]; apply Herr].
Qed.

Lemma lit_spec p s r : lit p s = Some r -> s = p ++ r.
Proof.
  revert s. induction p as [|a p IH]; intros s H; simpl in H.
  - now injection H as ->.
  - destruct s as [|b s]; [discriminate |].
    destruct (a =? b) eqn:E; [| discriminate].
    apply N.eqb_eq in E. subst b. simpl. f_equal. now apply IH.
Qed.

Lemma ends_with_brace (k' a1 a2 : str) :
  (123 :: k') ++ [125] = a1 ++ a2 -> a2 <> [] -> exists a, a2 = a ++ [125].
Proof.
  intros H Ha. destruct a2 as [|z a _] using rev_ind; [congruence |].
  rewrite app_assoc in H. apply app_inj_tail in H as [_ <-]. eauto.
Qed.

(** In front of the first closing fence, behind optional whitespace,
    the pattern captures the object and nothing else. *)
Lemma match_fenced_block tag w1 k' w2 suffix :
  Forall (fun c => is_space c = true) w1 ->
  Forall (fun c => is_space c = true) w2 ->
  ~ occurs fence ((123 :: k' ++ [125]) ++ w2) ->
  match_fenced tag
    (tag ++ w1 ++ (123 :: k' ++ [125]) ++ w2 ++ fence ++ suffix)
  = Some (123 :: k' ++ [125]).
Proof.
  intros Hw1 Hw2 Hno. unfold match_fenced. rewrite lit_app.
  apply star_greedy_skip; [exact Hw1 |].
  cbn [app]. rewrite star_greedy_stop by reflexivity.
  change (123 :: (k' ++ [125]) ++ w2 ++ fence ++ suffix)
    with ((123 :: k' ++ [125]) ++ w2 ++ fence ++ suffix).
  apply group_lazy_first.
  - intros a1 a2 Hk Ha2. cbv beta. rewrite close_fence.
    destruct (ends_with_brace k' a1 a2 Hk Ha2) as [a ->].
    destruct (lstrip_keeps_end a 125 (w2 ++ fence ++ suffix) eq_refl)
      as [b1 [b2 [Hb [Hb2 ->]]]].
    destruct (starts_with fence (b2 ++ w2 ++ fence ++ suffix)) eqn:E; [| reflexivity].
    exfalso. rewrite app_assoc in E.
    apply fence_starts_inside in E as [Hocc | Hall].
    + apply Hno. rewrite Hk, Hb, <- !app_assoc.
      now apply occurs_app_r, occurs_app_r.
    + apply Forall_app in Hall as [Hall _].
      destruct (ends_with_brace k' (a1 ++ b1) b2) as [b ->]; [| exact Hb2 |].
      { cbn [app]. rewrite Hk, Hb. now rewrite <- app_assoc. }
      apply Forall_app in Hall as [_ Hall]. inversion Hall; subst. discriminate.
    + destruct b2; [congruence | discriminate].
  - cbv beta. rewrite close_fence. cbn [rev app].
    rewrite lstrip_app by exact Hw2.
    change (lstrip (fence ++ suffix)) with (fence ++ suffix).
    assert (E : starts_with fence (fence ++ suffix) = true)
      by (apply starts_with_spec; eauto).
    now rewrite E.
Qed.

Lemma re_search_unfold {A} (m : str -> option A) s :
  re_search m s =
  match m s with
  | Some g => Some g
  | None =>
      match s with
      | _ :: s' => re_search m s'
      | [] => None
      end
  end.
Proof. destruct s; reflexivity. Qed.

Lemma re_search_here {A} (m : str -> option A) s g :
  m s = Some g -> re_search m s = Some g.
Proof. intros H. rewrite re_search_unfold. now rewrite H. Qed.

Lemma re_search_skip {A} (m : str -> option A) prefix s :
  (forall p1 p2, prefix = p1 ++ p2 -> p2 <> [] -> m (p2 ++ s) = None) ->
  re_search m (prefix ++ s) = re_search m s.
Proof.
  induction prefix as [|c prefix IH]; intros H; [reflexivity |].
  rewrite re_search_unfold.
  rewrite (H [] (c :: prefix) eq_refl ltac:(discriminate)).
  cbn [app]. apply IH. intros p1 p2 -> Hp2. now apply (H (c :: p1) p2).
Qed.

Lemma re_search_none {A} (m : str -> option A) s :
  (forall s1 s2, s = s1 ++ s2 -> m s2 = None) -> re_search m s = None.
Proof.
  induction s as [|c s IH]; intros H; rewrite re_search_unfold.
  - now rewrite (H [] [] eq_refl).
  - rewrite (H [] (c :: s) eq_refl). apply IH.
    intros s1 s2 ->. now apply (H (c :: s1) s2).
Qed.

(** Behind a text that holds no fence, the tagged fence is the first
    place where the tagged pattern can match. *)
Lemma json_tag_not_before prefix p1 p2 rest :
  ~ occurs fence prefix ->
  prefix = p1 ++ p2 -> p2 <> [] ->
  match_fenced (py "```json") (p2 ++ py "```json" ++ rest) = None.
Proof.
  intros Hno -> Hp2. unfold match_fenced. rewrite lit_none; [reflexivity |].
  change (py "```json") with [96; 96; 96; 106; 115; 111; 110].
  destruct p2 as [|c1 [|c2 [|c3 p']]]; [congruence | | |]; cbn [starts_with app].
  - destruct (96 =? c1); reflexivity.
  - destruct (96 =? c1), (96 =? c2); reflexivity.
  - destruct (96 =? c1) eqn:E1; [| reflexivity].
    destruct (96 =? c2) eqn:E2; [| reflexivity].
    destruct (96 =? c3) eqn:E3; [| reflexivity].
    apply N.eqb_eq in E1, E2, E3. subst. exfalso. apply Hno.
    now exists p1, p'.
Qed.

(** A text that holds no fence holds no fenced block. *)
Lemma no_fence_no_block tag' s :
  ~ occurs fence s -> re_search (match_fenced (fence ++ tag')) s = None.
Proof.
  intros Hno. apply re_search_none. intros s1 s2 ->.
  unfold match_fenced. destruct (lit (fence ++ tag') s2) as [r|] eqn:E; [| reflexivity].
  exfalso. apply Hno. apply lit_spec in E. subst s2.
  exists s1, (tag' ++ r). now rewrite <- !app_assoc.
Qed.

(** ** What a fenced-block pattern captures *)

Lemma no_tag_no_block tag s :
  ~ occurs tag s -> re_search (match_fenced tag) s = None.
Proof.
  intros Hno. apply re_search_none. intros s1 s2 ->.
  unfold match_fenced. destruct (lit tag s2) as [r|] eqn:E; [| reflexivity].
  exfalso. apply Hno. apply lit_spec in E. subst s2. now exists s1, r.
Qed.

Lemma re_search_inv {A} (m : str -> option A) s g :
  re_search m s = Some g -> exists s1 s2, s = s1 ++ s2 /\ m s2 = Some g.
Proof.
  induction s as [|c s IH]; rewrite re_search_unfold.
  - destruct (m []) eqn:E; [| discriminate]. intros H. injection H as ->.
    now exists [], [].
  - destruct (m (c :: s)) eqn:E.
    + intros H. injection H as ->. now exists [], (c :: s).
    + intros H. destruct (IH H) as [s1 [s2 [-> H2]]]. now exists (c :: s1), s2.
Qed.

(** Where a greedy star ends: on a run of the class, in front of a
    rest on which the continuation matches, and no longer run would
    do. *)
Lemma star_greedy_inv {A} p s (K : str -> option A) x :
  star_greedy p s K = Some x ->
  exists w t,
    s = w ++ t
    /\ Forall (fun c => p c = true) w
    /\ K t = Some x
    /\ (forall c t', t = c :: t' -> p c = true -> star_greedy p t' K = None).
Proof.
  induction s as [|c s IH]; cbn [star_greedy].
  - intros H. exists [], []. repeat split; [constructor | exact H | discriminate].
  - destruct (p c) eqn:Ec.
    + destruct (star_greedy p s K) as [r|] eqn:Er.
      * intros H. injection H as ->.
        destruct (IH eq_refl) as [w [t [-> [Hw [Hk Hmax]]]]].
        exists (c :: w), t. repeat split; [now constructor | exact Hk | exact Hmax].
      * intros H. exists [], (c :: s).
        repeat split; [constructor | exact H |].
        intros c0 t' Heq _. now injection Heq as -> ->.
    + intros H. exists [], (c :: s). repeat split; [constructor | exact H |].
      intros c0 t' Heq Hc0. injection Heq as -> ->. congruence.
Qed.

Lemma star_greedy_fails {A} p s (K : str -> option A) :
  star_greedy p s K = None -> K s = None.
Proof.
  destruct s as [|c s]; cbn [star_greedy]; [easy |].
  destruct (p c); [| easy]. now destruct (star_greedy p s K).
Qed.

(** Where a lazy group ends: at the first split on which the
    continuation matches. *)
Lemma group_lazy_inv {A} (K : str -> str -> option A) s : forall seen x,
  group_lazy s seen K = Some x ->
  exists a t,
    s = a ++ t
    /\ K (rev seen ++ a) t = Some x
    /\ (forall a1 a2, a = a1 ++ a2 -> a2 <> [] ->
          K (rev seen ++ a1) (a2 ++ t) = None).
Proof.
  induction s as [|c s IH]; intros seen x; rewrite group_lazy_unfold.
  - destruct (K (rev seen) []) eqn:E; [| discriminate].
    intros H. injection H as ->. exists [], [].
    split; [reflexivity |]. split; [now rewrite app_nil_r |].
    intros a1 a2 Ha Ha2. destruct a1, a2; try discriminate. congruence.
  - destruct (K (rev seen) (c :: s)) eqn:E.
    + intros H. injection H as ->. exists [], (c :: s).
      split; [reflexivity |]. split; [now rewrite app_nil_r |].
      intros a1 a2 Ha Ha2. destruct a1, a2; try discriminate. congruence.
    + intros H. destruct (IH _ _ H) as [a [t [-> [Hk Hmin]]]].
      cbn [rev] in Hk, Hmin. exists (c :: a), t. repeat split.
      * now rewrite <- app_assoc in Hk.
      * intros a1 a2 Ha Ha2. destruct a1 as [|c1 a1].
        -- simpl in Ha. subst a2. now rewrite app_nil_r.
        -- injection Ha as <- ->. specialize (Hmin a1 a2 eq_refl Ha2).
           now rewrite <- app_assoc in Hmin.
Qed.

Lemma group_lazy_some {A} (K : str -> str -> option A) a : forall seen t x,
  K (rev seen ++ a) t = Some x ->
  exists y, group_lazy (a ++ t) seen K = Some y.
Proof.
  induction a as [|c a IH]; intros seen t x H; rewrite group_lazy_unfold.
  - rewrite app_nil_r in H. simpl. rewrite H. eauto.
  - destruct (K (rev seen) ((c :: a) ++ t)); [eauto |].
    cbn [app]. apply (IH (c :: seen) t x). cbn [rev]. now rewrite <- app_assoc.
Qed.

(** What a match of a fenced-block pattern captures. *)
Lemma match_fenced_inv tag s g :
  match_fenced tag s = Some g ->
  exists w t,
    s = tag ++ w ++ g ++ t
    /\ all_space w
    /\ starts_with fence (lstrip t) = true
    /\ (forall a1 a2, g = a1 ++ a2 -> a2 <> [] ->
          starts_with fence (lstrip (a2 ++ t)) = false)
    /\ no_head is_space g = true.
Proof.
  unfold match_fenced. destruct (lit tag s) as [r|] eqn:El; [| discriminate].
  apply lit_spec in El. subst s. intros H.
  apply star_greedy_inv in H as [w [t0 [-> [Hw [Hk Hmax]]]]].
  apply group_lazy_inv in Hk as [a [t [-> [Hk Hmin]]]].
  cbn [rev app] in Hk, Hmin. rewrite close_fence in Hk.
  destruct (starts_with fence (lstrip t)) eqn:Ef; [| discriminate].
  injection Hk as ->.
  exists w, t.
  split; [reflexivity |]. split; [exact Hw |]. split; [exact Ef |]. split.
  - intros a1 a2 Ha Ha2. specialize (Hmin a1 a2 Ha Ha2).
    rewrite close_fence in Hmin.
    now destruct (starts_with fence (lstrip (a2 ++ t))).
  - destruct g as [|c g]; [reflexivity |]. simpl.
    destruct (is_space c) eqn:Ec; [| reflexivity]. exfalso.
    specialize (Hmax c (g ++ t) eq_refl Ec).
    assert (Hsome : exists y,
      group_lazy (g ++ t) []
        (fun g0 s3 =>
           star_greedy is_space s3
             (fun s4 => match lit fence s4 with Some _ => Some g0 | None => None end))
      = Some y).
    { apply (group_lazy_some _ g [] t g). cbn [rev app].
      rewrite close_fence. now rewrite Ef. }
    destruct Hsome as [y Hy].
    apply star_greedy_fails in Hmax. cbv beta in Hmax. congruence.
Qed.

Section FeatureFacts.

Variable transport : dict -> exn + option str.
Variable runtime_text : exn_class -> value -> str.
Variable limits : Limits.

Lemma fill_default_dict k v d :
  fill_default runtime_text k v (VDict d)
  = inr (VDict (if dict_has k d then d else dict_set k v d)).
Proof.
  unfold fill_default. simpl. now destruct (dict_has k d).
Qed.

Lemma dict_get_fill_eq k v d :
  dict_get k (if dict_has k d then d else dict_set k v d)
  = Some (default v (dict_get k d)).
Proof.
  unfold dict_has. destruct (dict_get k d) eqn:E; simpl.
  - exact E.
  - apply dict_get_set_eq.
Qed.

Lemma dict_get_fill_ne k k' v d :
  k <> k' ->
  dict_get k' (if dict_has k d then d else dict_set k v d) = dict_get k' d.
Proof.
  intros Hne. destruct (dict_has k d); [reflexivity |].
  now apply dict_get_set_ne.
Qed.

Lemma plagiarism_normalize_dict text response d :
  _extract_json runtime_text limits response = inr (VDict d) ->
  plagiarism_normalize runtime_text limits text response
  = inr [ (py "original_text", VStr text);
          (py "plagiarism_score",
            default (VInt 0) (dict_get (py "plagiarism_score") d));
          (py "flagged_sentences",
            default (VList []) (dict_get (py "flagged_sentences") d));
          (py "feedback",
            default (VStr (py "No issues detected in the text."))
              (dict_get (py "feedback") d)) ].
Proof.
  intros Hj. unfold plagiarism_normalize. rewrite Hj.
  do 3 (cbn [mbind exn_bind]; rewrite fill_default_dict).
  cbn [mbind exn_bind py_getitem].
  rewrite (dict_get_fill_ne (py "feedback") (py "plagiarism_score")) by discriminate.
  rewrite (dict_get_fill_ne (py "flagged_sentences") (py "plagiarism_score")) by discriminate.
  rewrite dict_get_fill_eq. cbn [mbind exn_bind].
  rewrite (dict_get_fill_ne (py "feedback") (py "flagged_sentences")) by discriminate.
  rewrite dict_get_fill_eq. cbn [mbind exn_bind].
  rewrite (dict_get_fill_ne (py "plagiarism_score") (py "flagged_sentences")) by discriminate.
  rewrite dict_get_fill_eq. cbn [mbind exn_bind].
  rewrite (dict_get_fill_ne (py "flagged_sentences") (py "feedback")) by discriminate.
  rewrite (dict_get_fill_ne (py "plagiarism_score") (py "feedback")) by discriminate.
  reflexivity.
Qed.

(** C6.  When the transport call of [check_plagiarism] fails, the
    result is the dictionary whose only key is [error]; it has no
    [plagiarism_score] key, and its value is the transport error's own
    text behind the gateway's prefix. *)
Theorem plagiarism_transport_failure text model st e :
  transport (text_request (plagiarism_prompt text) model 8192) = inl e ->
  check_plagiarism transport runtime_text limits text model st
  = (inr [ (py "error", VStr (py "Groq API error: " ++ exn_str e)) ],
     mkState (heap st)
       (sent st ++ [text_request (plagiarism_prompt text) model 8192]))
  /\ dict_keys [ (py "error", VStr (py "Groq API error: " ++ exn_str e)) ]
     = [py "error"]
  /\ dict_has (py "plagiarism_score")
       [ (py "error", VStr (py "Groq API error: " ++ exn_str e)) ] = false
  /\ occurs (exn_str e) (py "Groq API error: " ++ exn_str e).
Proof.
  intros H. repeat split.
  - unfold check_plagiarism, try_except, bind.
    rewrite text_call_run, H. reflexivity.
  - exists (py "Groq API error: "), []. now rewrite app_nil_r.
Qed.

(** C7.  When the response of the model parses as a JSON object,
    [check_plagiarism] returns the four keys [original_text],
    [plagiarism_score], [flagged_sentences] and [feedback], each of the
    last three holding the object's value for it, or the fixed default
    (0, the empty list, the default feedback text) when the object
    lacks it. *)
Theorem plagiarism_keys_present text model st response d :
  transport (text_request (plagiarism_prompt text) model 8192) = inr response ->
  _extract_json runtime_text limits response = inr (VDict d) ->
  fst (check_plagiarism transport runtime_text limits text model st)
  = inr [ (py "original_text", VStr text);
          (py "plagiarism_score",
            default (VInt 0) (dict_get (py "plagiarism_score") d));
          (py "flagged_sentences",
            default (VList []) (dict_get (py "flagged_sentences") d));
          (py "feedback",
            default (VStr (py "No issues detected in the text."))
              (dict_get (py "feedback") d)) ].
Proof.
  intros Ht Hj.
  unfold check_plagiarism, try_except, bind. rewrite text_call_run, Ht.
  rewrite (plagiarism_normalize_dict _ _ _ Hj). reflexivity.
Qed.

(** C9.  [analyze_image] sends one request; its model is the vision
    model when no override is given ([None] or the empty string), the
    content of its single user message is a list of two typed parts, a
    text part holding the prompt and an image-reference part holding
    the URL, and its output-token ceiling is 1024. *)
Theorem image_request_shape image_url prompt model st :
  sent (snd (analyze_image transport image_url prompt model st))
  = sent st ++ [image_params image_url prompt model]
  /\ dict_get (py "model") (image_params image_url prompt None)
     = Some (VStr IMAGE_MODEL)
  /\ dict_get (py "model") (image_params image_url prompt (Some []))
     = Some (VStr IMAGE_MODEL)
  /\ dict_get (py "model") (image_params image_url prompt model)
     = Some (VStr (str_or model IMAGE_MODEL))
  /\ dict_get (py "messages") (image_params image_url prompt model)
     = Some (VList
         [ VDict
             [ (py "role", VStr (py "user"));
               (py "content",
                 VList
                   [ VDict [ (py "type", VStr (py "text"));
                             (py "text", VStr prompt) ];
                     VDict [ (py "type", VStr (py "image_url"));
                             (py "image_url",
                               VDict [ (py "url", VStr image_url) ]) ] ]) ] ])
  /\ dict_get (py "max_completion_tokens") (image_params image_url prompt model)
     = Some (VInt 1024).
Proof.
  repeat split.
  unfold analyze_image, try_except, bind, client_create. simpl.
  now destruct (transport _).
Qed.

End FeatureFacts.

(** ** The loop of [chat] on the heap *)

Lemma for_append_copies fuel : forall src dst i (h : gmap nat (list value)) hist acc,
  src <> dst ->
  h !! src = Some hist ->
  h !! dst = Some acc ->
  (length hist - i < fuel)%nat ->
  for_append fuel src dst i h = Some (<[dst := acc ++ drop i hist]> h).
Proof.
  induction fuel as [|fuel IH]; intros src dst i h hist acc Hne Hs Hd Hf.
  - lia.
  - simpl. rewrite Hs. simpl. destruct (hist !! i) as [msg|] eqn:Hi.
    + unfold heap_append.
      assert (H1 : alter (fun l => l ++ [msg]) dst h !! src = Some hist)
        by now rewrite lookup_alter_ne.
      assert (H2 : alter (fun l => l ++ [msg]) dst h !! dst = Some (acc ++ [msg]))
        by now rewrite lookup_alter_eq, Hd.
      assert (H3 : (length hist - S i < fuel)%nat)
        by (apply lookup_lt_Some in Hi; lia).
      rewrite (IH src dst (S i) _ hist (acc ++ [msg]) Hne H1 H2 H3).
      f_equal. rewrite (drop_S _ _ _ Hi), <- app_assoc. simpl.
      apply map_eq. intros a. destruct (decide (a = dst)) as [->|Ha].
      * now rewrite !lookup_insert_eq.
      * rewrite !lookup_insert_ne by done. now rewrite lookup_alter_ne.
    + apply lookup_ge_None in Hi. rewrite drop_ge by lia. rewrite app_nil_r.
      now rewrite insert_id.
Qed.

Section ChatFacts.

Variable transport : dict -> exn + option str.

(** What a call of [chat] does, given enough fuel for the loop. *)
Lemma chat_run fuel msg conversation_history model st hist :
  history_is st conversation_history hist ->
  (length hist < fuel)%nat ->
  chat transport fuel msg conversation_history model st
  = Some
      (match transport (call_params (VList (chat_messages hist msg))
                          (Some (str_or model TEXT_MODEL)) (VInt 1) 8192 true) with
       | inl e => inr (error_result (Exn PlainException (wrapped e)))
       | inr r => inr [ (py "response", opt_str r) ]
       end,
       mkState (<[fresh (dom (heap st)) := chat_messages hist msg]> (heap st))
         (sent st ++ [call_params (VList (chat_messages hist msg))
                        (Some (str_or model TEXT_MODEL)) (VInt 1) 8192 true])).
Proof.
  intros Hh Hf. unfold chat, heap_alloc.
  set (a := fresh (dom (heap st))).
  set (sys := role_message (py "system") (VStr system_prompt)).
  assert (Hfresh : heap st !! a = None).
  { apply not_elem_of_dom. apply is_fresh. }
  assert (Hloop :
    match conversation_history with
    | Some src =>
        match <[a := [sys]]> (heap st) !! src with
        | Some (_ :: _) => for_append fuel src a 0 (<[a := [sys]]> (heap st))
        | _ => Some (<[a := [sys]]> (heap st))
        end
    | None => Some (<[a := [sys]]> (heap st))
    end = Some (<[a := sys :: hist]> (heap st))).
  { destruct conversation_history as [src|]; simpl in Hh.
    - assert (Hne : src <> a) by (intros ->; congruence).
      rewrite lookup_insert_ne by done. rewrite Hh.
      destruct hist as [|x hist']; [reflexivity |].
      assert (H1 : <[a := [sys]]> (heap st) !! src = Some (x :: hist'))
        by now rewrite lookup_insert_ne.
      assert (H2 : <[a := [sys]]> (heap st) !! a = Some [sys])
        by now rewrite lookup_insert_eq.
      assert (H3 : (length (x :: hist') - 0 < fuel)%nat) by (simpl in *; lia).
      rewrite (for_append_copies fuel src a 0 _ (x :: hist') [sys] Hne H1 H2 H3).
      now rewrite insert_insert_eq.
    - now subst hist. }
  rewrite Hloop. unfold heap_append.
  assert (Hfinal : alter (fun l => l ++ [role_message (py "user") (VStr msg)]) a
                     (<[a := sys :: hist]> (heap st))
                   = <[a := chat_messages hist msg]> (heap st)).
  { apply map_eq. intros b. destruct (decide (b = a)) as [->|Hb].
    - now rewrite lookup_alter_eq, !lookup_insert_eq.
    - rewrite lookup_alter_ne by done. now rewrite !lookup_insert_ne. }
  rewrite Hfinal, lookup_insert_eq. simpl.
  unfold try_except, bind. rewrite call_groq_run. simpl.
  now destruct (transport _).
Qed.

(** C10.  Given the history list [hist] (the content of the list
    object the caller passes, or nothing for [None]) and enough fuel
    for the loop over it, [chat] returns, and it has sent one request
    whose message list is the system prompt, then the history entries
    in their order, then the new user message: its length is the
    history's plus two.  Every list object that was alive before the
    call, the caller's history among them, holds what it held. *)
Theorem chat_message_list fuel msg conversation_history model st hist :
  history_is st conversation_history hist ->
  (length hist < fuel)%nat ->
  exists r st',
    chat transport fuel msg conversation_history model st = Some (r, st')
    /\ (exists kw,
          sent st' = sent st ++ [kw]
          /\ dict_get (py "messages") kw
             = Some (VList (role_message (py "system") (VStr system_prompt)
                            :: hist ++ [role_message (py "user") (VStr msg)])))
    /\ length (role_message (py "system") (VStr system_prompt)
               :: hist ++ [role_message (py "user") (VStr msg)])
       = (length hist + 2)%nat
    /\ history_is st' conversation_history hist
    /\ (forall a l, heap st !! a = Some l -> heap st' !! a = Some l).
Proof.
  intros Hh Hf. rewrite (chat_run _ _ _ _ _ _ Hh Hf).
  eexists _, _. split; [reflexivity |]. simpl.
  assert (Hkeep : forall a l, heap st !! a = Some l ->
            <[fresh (dom (heap st)) := chat_messages hist msg]> (heap st) !! a
            = Some l).
  { intros a l Ha. rewrite lookup_insert_ne; [done |].
    intros <-. pose proof (is_fresh (dom (heap st))) as Hfr.
    apply not_elem_of_dom in Hfr. congruence. }
  repeat split.
  - eexists. split; [reflexivity |].
    unfold call_params.
    destruct (true && str_contains (py "gpt-oss") _); reflexivity.
  - simpl. rewrite length_app. simpl. lia.
  - destruct conversation_history as [src|]; simpl in *; auto.
  - exact Hkeep.
Qed.

End ChatFacts.

Section ResultFacts.

Variable transport : dict -> exn + option str.
Variable runtime_text : exn_class -> value -> str.
Variable limits : Limits.
Variable fetch_transcript : str -> exn + list str.

Lemma wrapped_not_decode e :
  is_json_decode_error (Exn PlainException (wrapped e)) = false.
Proof. reflexivity. Qed.

Ltac returned :=
  eexists _, _; split; [reflexivity | split; [reflexivity |]];
  intros ? ?; first [congruence | reflexivity].

Lemma check_grammar_returns text model st :
  returns_result transport st (check_grammar transport runtime_text limits text model st).
Proof.
  unfold returns_result, check_grammar. rewrite text_call_run.
  destruct (transport _) as [e|response] eqn:Ht.
  - returned.
  - destruct (grammar_normalize _ _ _ _) as [e|d];
      returned.
Qed.

Lemma check_plagiarism_returns text model st :
  returns_result transport st (check_plagiarism transport runtime_text limits text model st).
Proof.
  unfold returns_result, check_plagiarism, try_except, bind.
  rewrite text_call_run.
  destruct (transport _) as [e|response] eqn:Ht.
  - returned.
  - destruct (plagiarism_normalize _ _ _ _) as [e|d];
      returned.
Qed.

Lemma paraphrase_returns text style model st :
  returns_result transport st (paraphrase transport runtime_text text style model st).
Proof.
  unfold returns_result, paraphrase, try_except, bind.
  rewrite text_call_run.
  destruct (transport _) as [e|response] eqn:Ht.
  - returned.
  - destruct (py_strip _ _) as [e|d];
      returned.
Qed.

Lemma summarize_youtube_returns transcript video_title model st :
  returns_result transport st (summarize_youtube transport transcript video_title model st).
Proof.
  unfold returns_result, summarize_youtube, try_except, bind.
  rewrite text_call_run.
  destruct (transport _) as [e|response] eqn:Ht.
  - returned.
  - returned.
Qed.

Lemma analyze_image_returns image_url prompt model st :
  returns_result transport st (analyze_image transport image_url prompt model st).
Proof.
  unfold returns_result, analyze_image, try_except, bind, client_create.
  destruct (transport _) as [e|response] eqn:Ht.
  - returned.
  - returned.
Qed.

Lemma chat_returns fuel msg conversation_history model st hist :
  history_is st conversation_history hist ->
  (length hist < fuel)%nat ->
  exists run,
    chat transport fuel msg conversation_history model st = Some run
    /\ returns_result transport st run.
Proof.
  intros Hh Hf. rewrite (chat_run _ _ _ _ _ _ _ Hh Hf).
  eexists. split; [reflexivity |]. unfold returns_result.
  destruct (transport _) as [e|response] eqn:Ht.
  - returned.
  - returned.
Qed.

(** C1.  Each of the six feature functions returns a dictionary from
    every input and every state, whatever the endpoint does, and never
    raises; each makes one call to the endpoint, and when that call
    fails the dictionary has an [error] key.  ([chat] is run with
    enough fuel for its loop over the history it is given.) *)
Theorem features_never_raise :
  (forall text model st,
     returns_result transport st
       (check_grammar transport runtime_text limits text model st))
  /\ (forall fuel msg conversation_history model st hist,
        history_is st conversation_history hist ->
        (length hist < fuel)%nat ->
        exists run,
          chat transport fuel msg conversation_history model st = Some run
          /\ returns_result transport st run)
  /\ (forall text style model st,
        returns_result transport st
          (paraphrase transport runtime_text text style model st))
  /\ (forall text model st,
        returns_result transport st
          (check_plagiarism transport runtime_text limits text model st))
  /\ (forall transcript video_title model st,
        returns_result transport st
          (summarize_youtube transport transcript video_title model st))
  /\ (forall image_url prompt model st,
        returns_result transport st
          (analyze_image transport image_url prompt model st)).
Proof.
  repeat split.
  - apply check_grammar_returns.
  - apply chat_returns.
  - apply paraphrase_returns.
  - apply check_plagiarism_returns.
  - apply summarize_youtube_returns.
  - apply analyze_image_returns.
Qed.

(** ** The candidate [_extract_json] parses *)

Lemma extract_json_selected content :
  _extract_json runtime_text limits (Some content)
  = match first_found strategies content with
    | Some g =>
        match json_loads limits g with
        | inr v => inr v
        | inl c => inl (runtime_error runtime_text c (VStr g))
        end
    | None => inl (runtime_error runtime_text TypeError VNone)
    end.
Proof.
  unfold _extract_json, strategies, first_found, json_block, any_block, whole_text.
  destruct (re_search (match_fenced (py "```json")) content); [reflexivity |].
  destruct (re_search (match_fenced (py "```")) content); reflexivity.
Qed.

Lemma first_found_some content : exists g, first_found strategies content = Some g.
Proof.
  unfold strategies, first_found, whole_text.
  destruct (json_block content); eauto.
  destruct (any_block content); eauto.
Qed.

(** The candidate is a part of the text. *)
Lemma first_found_part content g :
  first_found strategies content = Some g -> occurs g content.
Proof.
  assert (Hblock : forall tag g0,
            re_search (match_fenced tag) content = Some g0 -> occurs g0 content).
  { intros tag g0 H. apply re_search_inv in H as [s1 [s2 [-> H]]].
    apply match_fenced_inv in H as [w [t [-> _]]].
    exists (s1 ++ tag ++ w), t. now rewrite <- !app_assoc. }
  unfold strategies, first_found, json_block, any_block, whole_text.
  destruct (re_search (match_fenced (py "```json")) content) as [g1|] eqn:E1.
  { intros [= <-]. exact (Hblock _ _ E1). }
  destruct (re_search (match_fenced (py "```")) content) as [g2|] eqn:E2.
  { intros [= <-]. exact (Hblock _ _ E2). }
  intros [= <-]. exists [], []. now rewrite app_nil_r.
Qed.

(** With no stage yielding valid JSON, [_extract_json] raises the
    decoder's error on the candidate it selected. *)
Lemma no_stage_valid_raises content :
  no_stage_valid limits content ->
  exists g c,
    first_found strategies content = Some g
    /\ json_loads limits g = inl c
    /\ _extract_json runtime_text limits (Some content)
       = inl (runtime_error runtime_text c (VStr g)).
Proof.
  intros H. rewrite extract_json_selected.
  unfold no_stage_valid, strategies in H.
  apply Forall_cons in H as [H1 H]. apply Forall_cons in H as [H2 H].
  apply Forall_cons in H as [H3 _].
  unfold first_found, strategies, whole_text, json_value in *.
  destruct (json_block content) as [g|]; simpl in *.
  { exists g. destruct (json_loads limits g) as [c|v]; [eauto | discriminate]. }
  destruct (any_block content) as [g|]; simpl in *.
  { exists g. destruct (json_loads limits g) as [c|v]; [eauto | discriminate]. }
  exists content. destruct (json_loads limits content) as [c|v]; [eauto | discriminate].
Qed.

(** Within the limits, that error is the decode error. *)
Lemma no_stage_valid_decode_error content :
  no_stage_valid limits content ->
  within_limits limits content ->
  exists g, _extract_json runtime_text limits (Some content)
            = inl (runtime_error runtime_text JSONDecodeError (VStr g)).
Proof.
  intros Hn Hfit. destruct (no_stage_valid_raises _ Hn) as [g [c [Hg [Hc He]]]].
  exists g. rewrite He.
  destruct (first_found_part _ _ Hg) as [a [b ->]].
  now rewrite (json_loads_within limits g c (fits_part _ _ _ _ _ Hfit) Hc).
Qed.

(** C5, as the code has it.  When the call of [check_grammar] returns a
    text in which no extraction stage finds valid JSON, and which stays
    within the limits of the interpreter (its openings of objects and
    arrays leave free the levels of recursion that raising an error
    takes, and it has no run of digits too long for an integer), the
    result holds [original_text] equal to the input, [corrected_text]
    equal to the raw response and [corrections] equal to the empty
    list. *)
Theorem grammar_fallback_on_invalid_json text model st response :
  transport (text_request (grammar_prompt text) model 8192) = inr (Some response) ->
  no_stage_valid limits response ->
  within_limits limits response ->
  check_grammar transport runtime_text limits text model st
  = (inr [ (py "original_text", VStr text);
           (py "corrected_text", VStr response);
           (py "corrections", VList []) ],
     mkState (heap st)
       (sent st ++ [text_request (grammar_prompt text) model 8192])).
Proof.
  intros Ht Hn Hfit. unfold check_grammar. rewrite text_call_run, Ht.
  destruct (no_stage_valid_decode_error _ Hn Hfit) as [g Hg].
  unfold grammar_normalize. rewrite Hg. reflexivity.
Qed.

(** ** Truncation of the transcript *)

Lemma truncation_marker_length : length truncation_marker = 26%nat.
Proof. reflexivity. Qed.

Lemma truncate_long transcript :
  (max_chars < length transcript)%nat ->
  truncate_transcript transcript = take max_chars transcript ++ truncation_marker
  /\ length (truncate_transcript transcript) = (max_chars + 26)%nat.
Proof.
  intros H. unfold truncate_transcript, slice_to.
  apply Nat.ltb_lt in H as Hb. rewrite Hb. split; [reflexivity |].
  rewrite length_app, length_take, truncation_marker_length. lia.
Qed.

Lemma truncate_short transcript :
  (length transcript <= max_chars)%nat ->
  truncate_transcript transcript = transcript.
Proof.
  intros H. unfold truncate_transcript.
  apply Nat.ltb_ge in H as Hb. now rewrite Hb.
Qed.

Lemma summarize_video_run video_id items st :
  fetch_transcript video_id = inr items ->
  summarize_video transport runtime_text fetch_transcript (Some tt) video_id st
  = summarize_youtube transport
      (truncate_transcript (join (py " ") items)) [] None st.
Proof.
  intros Hf. unfold summarize_video, get_youtube_transcript. now rewrite Hf.
Qed.

(** C8, as the code has it.  With the service built and a transcript
    fetched, [summarize_video] sends one request, whose prompt is the
    summary template around the dispatched transcript.  A transcript
    of more than 15000 characters is dispatched as its first 15000
    characters followed by the 26 characters of the truncation marker,
    15026 characters in all; a transcript of at most 15000 characters
    is dispatched unchanged.  The dispatched transcript never exceeds
    15026 characters. *)
Theorem transcript_truncation video_id items st :
  fetch_transcript video_id = inr items ->
  sent (snd (summarize_video transport runtime_text fetch_transcript
               (Some tt) video_id st))
  = sent st ++ [text_request
                  (summary_prompt []
                     (truncate_transcript (join (py " ") items))) None 2048]
  /\ ((max_chars < length (join (py " ") items))%nat ->
      truncate_transcript (join (py " ") items)
      = take max_chars (join (py " ") items) ++ truncation_marker
      /\ length (truncate_transcript (join (py " ") items))
         = (max_chars + 26)%nat)
  /\ ((length (join (py " ") items) <= max_chars)%nat ->
      truncate_transcript (join (py " ") items) = join (py " ") items)
  /\ (length (truncate_transcript (join (py " ") items)) <= max_chars + 26)%nat
  /\ max_chars = N.to_nat 15000.
Proof.
  intros Hf. rewrite (summarize_video_run _ _ _ Hf).
  split; [| split; [| split; [| split]]].
  - unfold summarize_youtube, try_except, bind. rewrite text_call_run.
    simpl. now destruct (transport _).
  - apply truncate_long.
  - apply truncate_short.
  - destruct (Nat.lt_ge_cases max_chars (length (join (py " ") items))) as [H|H].
    + destruct (truncate_long _ H) as [_ ->]. lia.
    + rewrite (truncate_short _ H). lia.
  - reflexivity.
Qed.

End ResultFacts.

(** ** [_extract_json] *)

Section ExtractFacts.

Variable runtime_text : exn_class -> value -> str.
Variable limits : Limits.

(** C2, as the code has it.  Take a text [interior] that is a
    well-formed JSON object and holds no triple backquote.  Inside a
    fenced block tagged json, behind any text that holds no triple
    backquote and in front of any text, [_extract_json] returns exactly
    what parsing [interior] gives; and given [interior] as the whole
    text, with no fence at all, it returns that same object. *)
Theorem fenced_object_roundtrip interior d prefix suffix :
  json_loads limits interior = inr (VDict d) ->
  ~ occurs fence interior ->
  ~ occurs fence prefix ->
  _extract_json runtime_text limits
    (Some (prefix ++ py "```json" ++ interior ++ fence ++ suffix))
  = inr (VDict d)
  /\ _extract_json runtime_text limits (Some interior) = inr (VDict d).
Proof.
  intros Hj Hno Hpre. split.
  - destruct (json_loads_object _ _ _ Hj) as [w1 [k' [w2 [-> [Hw1 [Hw2 Hk]]]]]].
    assert (Hblock :
      re_search (match_fenced (py "```json"))
        (prefix ++ py "```json" ++ (w1 ++ (123 :: k' ++ [125]) ++ w2)
           ++ fence ++ suffix)
      = Some (123 :: k' ++ [125])).
    { rewrite re_search_skip.
      - apply re_search_here. rewrite <- !app_assoc.
        apply match_fenced_block.
        + eapply Forall_impl; [exact Hw1 | apply json_ws_is_space].
        + eapply Forall_impl; [exact Hw2 | apply json_ws_is_space].
        + intros Hocc. apply Hno. now apply occurs_app_r.
      - intros p1 p2 Hp Hp2. now apply (json_tag_not_before prefix p1 p2). }
    unfold _extract_json. rewrite Hblock. now rewrite Hk.
  - unfold _extract_json.
    change (py "```json") with (fence ++ py "json").
    change (py "```") with (fence ++ []).
    rewrite !no_fence_no_block by exact Hno. now rewrite Hj.
Qed.

(** The classes of the errors [json.loads] raises. *)
Lemma json_loads_classes s c :
  json_loads limits s = inl c ->
  c = JSONDecodeError \/ c = RecursionError \/ c = ValueError.
Proof.
  assert (Herr : forall above,
            decode_error limits above = JSONDecodeError
            \/ decode_error limits above = RecursionError
            \/ decode_error limits above = ValueError).
  { intros above. unfold decode_error. destruct (_ <=? _)%nat; auto. }
  unfold json_loads. destruct (starts_with [65279] s); [intros [= <-]; apply Herr |].
  destruct (scan_once _ _ _ _) as [| | | | |v rest];
    try (intros [= <-]; auto); try (intros [= <-]; apply Herr).
  destruct (skip_ws rest); [discriminate | intros [= <-]; apply Herr].
Qed.

(** C3, as the code has it.  [_extract_json] takes the candidate of the
    first strategy, in order (the interior of the first block tagged
    json, the interior of the first fenced block, the whole text), that
    finds one, and parses that candidate alone: it returns the parse
    when the decoder accepts the candidate and raises the decoder's
    error otherwise, whatever the later strategies would find.  That
    error is a [JSONDecodeError], or a [RecursionError] or a
    [ValueError] where the candidate takes the decoder to a limit of
    the interpreter.  So it raises whenever no stage yields valid JSON,
    a [JSONDecodeError] when the text stays within the limits (its
    openings leave free the levels that raising an error takes, and no
    run of digits is too long for an integer), and whatever it returns
    is the complete parse of one strategy's candidate. *)
Theorem extract_json_first_found content :
  exists g,
    first_found strategies content = Some g
    /\ _extract_json runtime_text limits (Some content)
       = match json_loads limits g with
         | inr v => inr v
         | inl c => inl (runtime_error runtime_text c (VStr g))
         end
    /\ (forall c, json_loads limits g = inl c ->
        c = JSONDecodeError \/ c = RecursionError \/ c = ValueError)
    /\ (no_stage_valid limits content ->
        exists c,
          _extract_json runtime_text limits (Some content)
          = inl (runtime_error runtime_text c (VStr g))
          /\ (within_limits limits content -> c = JSONDecodeError))
    /\ (forall v, _extract_json runtime_text limits (Some content) = inr v ->
        Exists (fun f => f content ≫= json_value limits = Some v) strategies).
Proof.
  destruct (first_found_some content) as [g Hg]. exists g.
  pose proof (extract_json_selected runtime_text limits content) as Hsel.
  rewrite Hg in Hsel. split; [exact Hg |]. split; [exact Hsel |].
  split; [apply json_loads_classes |]. split.
  - intros Hn.
    destruct (no_stage_valid_raises runtime_text limits _ Hn)
      as [g' [c [Hg' [Hc He]]]].
    assert (g' = g) as -> by congruence.
    exists c. split; [exact He |]. intros Hfit.
    destruct (first_found_part _ _ Hg) as [a [b ->]].
    exact (json_loads_within limits g c (fits_part _ _ _ _ _ Hfit) Hc).
  - intros v Hv. rewrite Hsel in Hv.
    destruct (json_loads limits g) as [c|v'] eqn:Hl; [discriminate |].
    injection Hv as ->.
    assert (Hval : json_value limits g = Some v) by (unfold json_value; now rewrite Hl).
    unfold strategies, first_found, whole_text in *.
    destruct (json_block content) as [g1|] eqn:H1.
    { injection Hg as ->. apply Exists_cons_hd. now rewrite H1. }
    destruct (any_block content) as [g2|] eqn:H2.
    { injection Hg as ->. apply Exists_cons_tl, Exists_cons_hd. now rewrite H2. }
    injection Hg as ->. now do 2 apply Exists_cons_tl; apply Exists_cons_hd.
Qed.

End ExtractFacts.

(** ** Examples on concrete inputs *)

(** C2 as stated fails: an object whose string value holds a triple
    backquote is well-formed JSON, yet inside a json block the capture
    stops at that backquote and the parse raises; and an object whose
    string holds a whole fenced block, given unfenced, comes back as
    the content of that inner block. *)
Lemma fenced_object_counterexample :
  json_loads sample_limits object_with_fence
  = inr (VDict [(py "a", VStr (py "```"))])
  /\ _extract_json no_text sample_limits (Some (py "```json" ++ object_with_fence ++ fence))
     = inl (Exn JSONDecodeError [])
  /\ json_loads sample_limits object_with_block
     = inr (VDict [(py "a", VStr (py "``` 1 ```"))])
  /\ _extract_json no_text sample_limits (Some object_with_block) = inr (VInt 1).
Proof. repeat split; vm_compute; reflexivity. Qed.

Lemma fenced_object_roundtrip_witness :
  _extract_json no_text sample_limits
    (Some (py "Here it is: " ++ py "```json" ++ pyq "
{^score^: 7}
" ++ fence ++ py " Bye."))
  = inr (VDict [(py "score", VInt 7)])
  /\ _extract_json no_text sample_limits (Some (pyq "
{^score^: 7}
")) = inr (VDict [(py "score", VInt 7)]).
Proof.
  apply (fenced_object_roundtrip no_text sample_limits (pyq "
{^score^: 7}
") [(py "score", VInt 7)] (py "Here it is: ") (py " Bye.")).
  - vm_compute. reflexivity.
  - intros H. apply str_contains_spec in H. vm_compute in H. discriminate H.
  - intros H. apply str_contains_spec in H. vm_compute in H. discriminate H.
Defined.

(** C3 as stated fails: with an untagged block holding valid JSON in
    front of a json block holding none, trying the strategies until one
    yields valid JSON would return the empty object, but the code
    parses the json block alone and raises. *)
Lemma extract_chain_counterexample :
  first_valid sample_limits strategies two_blocks = Some (VDict [])
  /\ first_found strategies two_blocks = Some (py "oops")
  /\ _extract_json no_text sample_limits (Some two_blocks) = inl (Exn JSONDecodeError []).
Proof. repeat split; vm_compute; reflexivity. Qed.

Lemma grammar_fallback_witness :
  check_grammar (answers (Some (py "Sorry, I cannot do that."))) no_text
    sample_limits (py "She dont like apples.") None empty_state
  = (inr [ (py "original_text", VStr (py "She dont like apples."));
           (py "corrected_text", VStr (py "Sorry, I cannot do that."));
           (py "corrections", VList []) ],
     mkState (heap empty_state)
       (sent empty_state
        ++ [text_request (grammar_prompt (py "She dont like apples.")) None 8192])).
Proof.
  apply (grammar_fallback_on_invalid_json
           (answers (Some (py "Sorry, I cannot do that."))) no_text
           sample_limits).
  - reflexivity.
  - repeat constructor.
  - split; [vm_compute; lia | vm_compute; reflexivity].
Defined.

(** C5 as stated fails: a response of 1001 opening brackets is not
    valid JSON at any stage (it holds no fence, and the decoder rejects
    it even with room for two thousand levels and no limit on digits),
    yet with a thousand levels of recursion left the decoder raises
    [RecursionError], which the fallback clause does not catch: the
    result holds only [error], and no [corrected_text]. *)
Lemma grammar_fallback_counterexample :
  no_stage_valid sample_limits deep_response
  /\ first_found strategies deep_response = Some deep_response
  /\ json_loads (mkLimits 2000 3 0) deep_response = inl JSONDecodeError
  /\ json_loads sample_limits deep_response = inl RecursionError
  /\ fst (check_grammar (answers (Some deep_response)) no_text sample_limits
            (py "She dont like apples.") None empty_state)
     = inr [ (py "error", VStr (no_text RecursionError (VStr deep_response))) ]
  /\ dict_get (py "corrected_text")
       [ (py "error", VStr (no_text RecursionError (VStr deep_response))) ]
     = None.
Proof.
  split; [repeat constructor |]. repeat split; vm_compute; reflexivity.
Qed.

Lemma plagiarism_failure_witness :
  check_plagiarism (fails (Exn OtherError (py "connection refused"))) no_text
    sample_limits (py "Some essay.") None empty_state
  = (inr [ (py "error",
            VStr (py "Groq API error: "
                  ++ exn_str (Exn OtherError (py "connection refused")))) ],
     mkState (heap empty_state)
       (sent empty_state
        ++ [text_request (plagiarism_prompt (py "Some essay.")) None 8192]))
  /\ dict_keys [ (py "error",
                  VStr (py "Groq API error: "
                        ++ exn_str (Exn OtherError (py "connection refused")))) ]
     = [py "error"]
  /\ dict_has (py "plagiarism_score")
       [ (py "error",
          VStr (py "Groq API error: "
                ++ exn_str (Exn OtherError (py "connection refused")))) ] = false
  /\ occurs (exn_str (Exn OtherError (py "connection refused")))
       (py "Groq API error: "
        ++ exn_str (Exn OtherError (py "connection refused"))).
Proof.
  apply (plagiarism_transport_failure
           (fails (Exn OtherError (py "connection refused"))) no_text
           sample_limits).
  reflexivity.
Defined.

Lemma plagiarism_keys_witness :
  fst (check_plagiarism (answers (Some (pyq "{^plagiarism_score^: 12}"))) no_text
         sample_limits (py "Some essay.") None empty_state)
  = inr [ (py "original_text", VStr (py "Some essay."));
          (py "plagiarism_score",
            default (VInt 0)
              (dict_get (py "plagiarism_score") [(py "plagiarism_score", VInt 12)]));
          (py "flagged_sentences",
            default (VList [])
              (dict_get (py "flagged_sentences") [(py "plagiarism_score", VInt 12)]));
          (py "feedback",
            default (VStr (py "No issues detected in the text."))
              (dict_get (py "feedback") [(py "plagiarism_score", VInt 12)])) ].
Proof.
  apply (plagiarism_keys_present
           (answers (Some (pyq "{^plagiarism_score^: 12}"))) no_text
           sample_limits (py "Some essay.") None empty_state
           (Some (pyq "{^plagiarism_score^: 12}"))).
  - reflexivity.
  - vm_compute. reflexivity.
Defined.

(** C8 as stated fails: a transcript of 15001 characters is dispatched
    as 15026 characters, above the 15000-character bound (and longer
    than it was). *)
Lemma transcript_bound_counterexample :
  sent (snd (summarize_video (answers None) no_text
               (fun _ => inr [long_transcript]) (Some tt) [] empty_state))
  = [text_request
       (summary_prompt [] (take max_chars long_transcript ++ truncation_marker))
       None 2048]
  /\ len long_transcript = 15001%Z
  /\ len (take max_chars long_transcript ++ truncation_marker) = 15026%Z
  /\ (15000 <? len (take max_chars long_transcript ++ truncation_marker))%Z = true.
Proof. repeat split; vm_compute; reflexivity. Qed.

Lemma transcript_truncation_witness :
  sent (snd (summarize_video (answers None) no_text
               (fun _ => inr [py "hello"; py "world"]) (Some tt) (py "abc")
               empty_state))
  = sent empty_state
    ++ [text_request
          (summary_prompt []
             (truncate_transcript (join (py " ") [py "hello"; py "world"])))
          None 2048]
  /\ ((max_chars < length (join (py " ") [py "hello"; py "world"]))%nat ->
      truncate_transcript (join (py " ") [py "hello"; py "world"])
      = take max_chars (join (py " ") [py "hello"; py "world"]) ++ truncation_marker
      /\ length (truncate_transcript (join (py " ") [py "hello"; py "world"]))
         = (max_chars + 26)%nat)
  /\ ((length (join (py " ") [py "hello"; py "world"]) <= max_chars)%nat ->
      truncate_transcript (join (py " ") [py "hello"; py "world"])
      = join (py " ") [py "hello"; py "world"])
  /\ (length (truncate_transcript (join (py " ") [py "hello"; py "world"]))
      <= max_chars + 26)%nat
  /\ max_chars = N.to_nat 15000.
Proof.
  apply (transcript_truncation (answers None) no_text
           (fun _ => inr [py "hello"; py "world"]) (py "abc")
           [py "hello"; py "world"] empty_state).
  reflexivity.
Defined.

Lemma chat_message_list_witness :
  exists r st',
    chat (answers (Some (py "fine"))) 3 (py "and you?") (Some 0%nat) None
      talking_state = Some (r, st')
    /\ (exists kw,
          sent st' = sent talking_state ++ [kw]
          /\ dict_get (py "messages") kw
             = Some (VList (role_message (py "system") (VStr system_prompt)
                            :: two_turns
                               ++ [role_message (py "user") (VStr (py "and you?"))])))
    /\ length (role_message (py "system") (VStr system_prompt)
               :: two_turns ++ [role_message (py "user") (VStr (py "and you?"))])
       = (length two_turns + 2)%nat
    /\ history_is st' (Some 0%nat) two_turns
    /\ (forall a l, heap talking_state !! a = Some l -> heap st' !! a = Some l).
Proof.
  apply (chat_message_list (answers (Some (py "fine"))) 3 (py "and you?")
           (Some 0%nat) None talking_state two_turns).
  - vm_compute. reflexivity.
  - simpl. lia.
Defined.

(** ** Further properties of the feature functions *)

Section ServiceExtras.

Variable transport : dict -> exn + option str.
Variable runtime_text : exn_class -> value -> str.
Variable limits : Limits.

Lemma grammar_normalize_dict text response d :
  _extract_json runtime_text limits response = inr (VDict d) ->
  grammar_normalize runtime_text limits text response
  = inr [ (py "original_text", VStr text);
          (py "corrected_text",
            default (VStr text) (dict_get (py "corrected_text") d));
          (py "corrections",
            default (VList []) (dict_get (py "corrections") d)) ].
Proof.
  intros Hj. unfold grammar_normalize. rewrite Hj.
  do 2 (cbn [mbind exn_bind]; rewrite fill_default_dict).
  cbn [mbind exn_bind py_getitem].
  rewrite (dict_get_fill_ne (py "corrections") (py "corrected_text")) by discriminate.
  rewrite dict_get_fill_eq. cbn [mbind exn_bind].
  rewrite dict_get_fill_eq. cbn [mbind exn_bind].
  rewrite (dict_get_fill_ne (py "corrected_text") (py "corrections")) by discriminate.
  reflexivity.
Qed.

(** X1.  When the response of the model parses as a JSON object,
    [check_grammar] returns the three keys [original_text],
    [corrected_text] and [corrections]; the last two hold the object's
    values, or the input text and the empty list where the object
    lacks them. *)
Theorem grammar_keys_present text model st response d :
  transport (text_request (grammar_prompt text) model 8192) = inr response ->
  _extract_json runtime_text limits response = inr (VDict d) ->
  fst (check_grammar transport runtime_text limits text model st)
  = inr [ (py "original_text", VStr text);
          (py "corrected_text",
            default (VStr text) (dict_get (py "corrected_text") d));
          (py "corrections",
            default (VList []) (dict_get (py "corrections") d)) ].
Proof.
  intros Ht Hj. unfold check_grammar. rewrite text_call_run, Ht.
  now rewrite (grammar_normalize_dict _ _ _ Hj).
Qed.

(** On a value that is no object, filling a default in either leaves
    the value alone or raises the type error of that value. *)
Lemma fill_default_other k v x :
  is_object x = false ->
  fill_default runtime_text k v x = inr x
  \/ fill_default runtime_text k v x = inl (runtime_error runtime_text TypeError x).
Proof.
  intros Hx. unfold fill_default.
  destruct x; try discriminate Hx; cbn [py_in mbind exn_bind]; auto.
  - destruct (str_contains k s); auto.
  - destruct (existsb _ l); auto.
Qed.

Lemma py_getitem_other k x :
  is_object x = false ->
  py_getitem runtime_text k x = inl (runtime_error runtime_text TypeError x).
Proof. intros Hx. destruct x; try discriminate Hx; reflexivity. Qed.

Lemma grammar_normalize_other text response x :
  _extract_json runtime_text limits response = inr x ->
  is_object x = false ->
  grammar_normalize runtime_text limits text response
  = inl (runtime_error runtime_text TypeError x).
Proof.
  intros Hj Hx. unfold grammar_normalize. rewrite Hj. cbn [mbind exn_bind].
  destruct (fill_default_other (py "corrected_text") (VStr text) x Hx) as [-> | ->];
    cbn [mbind exn_bind]; [| reflexivity].
  destruct (fill_default_other (py "corrections") (VList []) x Hx) as [-> | ->];
    cbn [mbind exn_bind]; [| reflexivity].
  rewrite (py_getitem_other (py "corrected_text") x Hx). reflexivity.
Qed.

Lemma plagiarism_normalize_other text response x :
  _extract_json runtime_text limits response = inr x ->
  is_object x = false ->
  plagiarism_normalize runtime_text limits text response
  = inl (runtime_error runtime_text TypeError x).
Proof.
  intros Hj Hx. unfold plagiarism_normalize. rewrite Hj. cbn [mbind exn_bind].
  destruct (fill_default_other (py "plagiarism_score") (VInt 0) x Hx) as [-> | ->];
    cbn [mbind exn_bind]; [| reflexivity].
  destruct (fill_default_other (py "flagged_sentences") (VList []) x Hx) as [-> | ->];
    cbn [mbind exn_bind]; [| reflexivity].
  destruct (fill_default_other (py "feedback")
              (VStr (py "No issues detected in the text.")) x Hx) as [-> | ->];
    cbn [mbind exn_bind]; [| reflexivity].
  rewrite (py_getitem_other (py "plagiarism_score") x Hx). reflexivity.
Qed.

(** X2.  When the response parses as JSON that is no object (a list,
    a string, a number, a boolean, null), [check_grammar] and
    [check_plagiarism] return neither the parsed value nor their
    fallback: the type error raised on the value is caught, and the
    result is a dictionary whose only entry is [error]. *)
Theorem non_object_json_is_error text model st response x :
  _extract_json runtime_text limits response = inr x ->
  is_object x = false ->
  (transport (text_request (grammar_prompt text) model 8192) = inr response ->
   exists msg,
     fst (check_grammar transport runtime_text limits text model st)
     = inr (only_error msg))
  /\ (transport (text_request (plagiarism_prompt text) model 8192) = inr response ->
      exists msg,
        fst (check_plagiarism transport runtime_text limits text model st)
        = inr (only_error msg)).
Proof.
  intros Hj Hx. split; intros Ht; exists (runtime_text TypeError x).
  - unfold check_grammar. rewrite text_call_run, Ht.
    now rewrite (grammar_normalize_other _ _ _ Hj Hx).
  - unfold check_plagiarism, try_except, bind. rewrite text_call_run, Ht.
    now rewrite (plagiarism_normalize_other _ _ _ Hj Hx).
Qed.

(** X3.  When the call of [check_plagiarism] returns a text in which no
    extraction stage finds valid JSON, and which stays within the
    limits of the interpreter (its openings of objects and arrays leave
    free the levels of recursion that raising an error takes, and it
    has no run of digits too long for an integer), the result is the
    fixed fallback: the input as [original_text], score 0, no flagged
    sentence, and the feedback asking to try again. *)
Theorem plagiarism_fallback_on_invalid_json text model st response :
  transport (text_request (plagiarism_prompt text) model 8192) = inr (Some response) ->
  no_stage_valid limits response ->
  within_limits limits response ->
  fst (check_plagiarism transport runtime_text limits text model st)
  = inr [ (py "original_text", VStr text);
          (py "plagiarism_score", VInt 0);
          (py "flagged_sentences", VList []);
          (py "feedback", VStr (py "Unable to analyze text. Please try again.")) ].
Proof.
  intros Ht Hn Hfit. unfold check_plagiarism, try_except, bind.
  rewrite text_call_run, Ht.
  destruct (no_stage_valid_decode_error runtime_text limits _ Hn Hfit) as [g Hg].
  unfold plagiarism_normalize. rewrite Hg. reflexivity.
Qed.

End ServiceExtras.

(** ** Stripping and routing *)

Lemma lstrip_split s :
  exists w, s = w ++ lstrip s /\ all_space w /\ no_head is_space (lstrip s) = true.
Proof.
  induction s as [|c s [w [H1 [H2 H3]]]]; simpl.
  - exists []. repeat split. constructor.
  - destruct (is_space c) eqn:E.
    + exists (c :: w). repeat split; [simpl; now f_equal | now constructor | exact H3].
    + exists []. repeat split; [constructor | simpl; now rewrite E].
Qed.

Lemma no_head_prefix p (a b : str) :
  no_head p (a ++ b) = true -> a <> [] -> no_head p a = true.
Proof. destruct a; [congruence | auto]. Qed.

(** [strip] removes whitespace at both ends and nothing else. *)
Lemma strip_spec s :
  exists w1 w2,
    s = w1 ++ strip s ++ w2
    /\ all_space w1 /\ all_space w2
    /\ no_head is_space (strip s) = true
    /\ no_head is_space (rev (strip s)) = true.
Proof.
  unfold strip.
  destruct (lstrip_split s) as [w1 [H1 [Hw1 Hh1]]].
  destruct (lstrip_split (rev (lstrip s))) as [w2 [H2 [Hw2 Hh2]]].
  set (X := lstrip (rev (lstrip s))) in *.
  assert (Hl : lstrip s = rev X ++ rev w2).
  { rewrite <- (rev_involutive (lstrip s)), H2. apply rev_app_distr. }
  exists w1, (rev w2). repeat split.
  - rewrite H1 at 1. now rewrite Hl.
  - exact Hw1.
  - unfold all_space. now apply Forall_rev.
  - destruct (rev X) eqn:E; [reflexivity |]. rewrite Hl in Hh1. exact Hh1.
  - now rewrite rev_involutive.
Qed.

Section RoutingExtras.

Variable transport : dict -> exn + option str.
Variable runtime_text : exn_class -> value -> str.
Variable limits : Limits.

(** X4.  When the call returns a text, [paraphrase] returns the input,
    the style, and as [paraphrased_text] the response without the
    whitespace around it: the response is that text between two runs
    of whitespace, and the text neither starts nor ends with a
    whitespace character. *)
Theorem paraphrase_result text style model st response :
  transport (text_request (paraphrase_prompt text style) model 8192)
  = inr (Some response) ->
  fst (paraphrase transport runtime_text text style model st)
  = inr [ (py "original_text", VStr text);
          (py "paraphrased_text", VStr (strip response));
          (py "style", VStr style) ]
  /\ exists w1 w2,
       response = w1 ++ strip response ++ w2
       /\ all_space w1 /\ all_space w2
       /\ no_head is_space (strip response) = true
       /\ no_head is_space (rev (strip response)) = true.
Proof.
  intros Ht. split; [| apply strip_spec].
  unfold paraphrase, try_except, bind. now rewrite text_call_run, Ht.
Qed.

Lemma str_or_text_model model :
  str_or (Some (str_or model TEXT_MODEL)) DEFAULT_MODEL = str_or model TEXT_MODEL.
Proof. destruct model as [[|c s]|]; reflexivity. Qed.

Lemma call_routed messages model max_tokens :
  routed (call_params messages (Some (str_or model TEXT_MODEL)) (VInt 1)
            max_tokens true) model max_tokens.
Proof.
  unfold routed, call_params. rewrite str_or_text_model. cbn [andb].
  destruct (str_contains (py "gpt-oss") (str_or model TEXT_MODEL));
    repeat split; reflexivity.
Qed.

(** X5.  Every text feature sends one request routed the same way: to
    the model asked for, or to the text model when none (or the empty
    string) is given; at temperature 1, without streaming; with the
    reasoning hint [medium] exactly when that model is of the [gpt-oss]
    family; with a ceiling of 8192 tokens, 2048 for the transcript
    summary.  ([chat] is run with enough fuel for the history it is
    given.) *)
Theorem text_features_routed :
  (forall text model st,
     exists kw,
       sent (snd (check_grammar transport runtime_text limits text model st))
       = sent st ++ [kw] /\ routed kw model 8192)
  /\ (forall text style model st,
        exists kw,
          sent (snd (paraphrase transport runtime_text text style model st))
          = sent st ++ [kw] /\ routed kw model 8192)
  /\ (forall text model st,
        exists kw,
          sent (snd (check_plagiarism transport runtime_text limits text model st))
          = sent st ++ [kw] /\ routed kw model 8192)
  /\ (forall transcript video_title model st,
        exists kw,
          sent (snd (summarize_youtube transport transcript video_title model st))
          = sent st ++ [kw] /\ routed kw model 2048)
  /\ (forall fuel msg conversation_history model st hist,
        history_is st conversation_history hist ->
        (length hist < fuel)%nat ->
        exists r st' kw,
          chat transport fuel msg conversation_history model st = Some (r, st')
          /\ sent st' = sent st ++ [kw] /\ routed kw model 8192).
Proof.
  repeat split.
  - intros text model st. eexists. split; [| apply call_routed].
    unfold check_grammar. rewrite text_call_run.
    destruct (transport _); [reflexivity |].
    now destruct (grammar_normalize _ _ _ _).
  - intros text style model st. eexists. split; [| apply call_routed].
    unfold paraphrase, try_except, bind. rewrite text_call_run.
    destruct (transport _); [reflexivity |].
    now destruct (py_strip _ _).
  - intros text model st. eexists. split; [| apply call_routed].
    unfold check_plagiarism, try_except, bind. rewrite text_call_run.
    destruct (transport _); [reflexivity |].
    now destruct (plagiarism_normalize _ _ _ _).
  - intros transcript video_title model st. eexists. split; [| apply call_routed].
    unfold summarize_youtube, try_except, bind. rewrite text_call_run.
    now destruct (transport _).
  - intros fuel msg ch model st hist Hh Hf.
    rewrite (chat_run _ _ _ _ _ _ _ Hh Hf).
    eexists _, _, _. split; [reflexivity |]. split; [reflexivity |].
    apply call_routed.
Qed.

(** X6.  [analyze_image] reports a transport error with the error's
    own text, without the prefix the text features put in front of it;
    on success it returns the content under [analysis]; and whatever
    model is asked for, its request never holds a reasoning hint. *)
Theorem analyze_image_outcome image_url prompt model st :
  (forall e,
     transport (image_params image_url prompt model) = inl e ->
     fst (analyze_image transport image_url prompt model st)
     = inr (only_error (exn_str e)))
  /\ (forall content,
        transport (image_params image_url prompt model) = inr content ->
        fst (analyze_image transport image_url prompt model st)
        = inr [ (py "analysis", opt_str content) ])
  /\ dict_has (py "reasoning_effort") (image_params image_url prompt model)
     = false.
Proof.
  repeat split; intros x Hx;
    unfold analyze_image, try_except, bind, client_create; simpl;
    now rewrite Hx.
Qed.

End RoutingExtras.

(** ** Further properties of [_extract_json] *)

Section ExtractExtras.

Variable runtime_text : exn_class -> value -> str.
Variable limits : Limits.

(** X7.  A text that holds no triple backquote is parsed as a whole:
    [_extract_json] returns the value [json.loads] gives for it,
    whatever kind of value that is, and raises the error [json.loads]
    raises on it.  For a text within the limits of the interpreter
    (its openings leave free the levels that raising an error takes,
    and no run of digits is too long for an integer) that error is the
    [JSONDecodeError] of a text that is no JSON document; beyond them
    it can be a [RecursionError] or a [ValueError]. *)
Theorem unfenced_text_is_parsed content :
  ~ occurs fence content ->
  _extract_json runtime_text limits (Some content)
  = match json_loads limits content with
    | inr v => inr v
    | inl c => inl (runtime_error runtime_text c (VStr content))
    end
  /\ (forall c, json_loads limits content = inl c ->
      c = JSONDecodeError \/ c = RecursionError \/ c = ValueError)
  /\ (within_limits limits content ->
      forall c, json_loads limits content = inl c -> c = JSONDecodeError).
Proof.
  intros Hno. split; [| split].
  - unfold _extract_json.
    change (py "```json") with (fence ++ py "json").
    change (py "```") with (fence ++ []).
    now rewrite !no_fence_no_block by exact Hno.
  - apply json_loads_classes.
  - intros Hfit c. now apply json_loads_within.
Qed.

(** X8.  A well-formed JSON object that holds no triple backquote,
    inside a fenced block without the json tag, behind a text that
    holds no backquote, is returned as parsed, provided the whole text
    nowhere holds the opening of a tagged block. *)
Theorem untagged_block_roundtrip interior d prefix suffix :
  json_loads limits interior = inr (VDict d) ->
  ~ occurs fence interior ->
  no_backquote prefix ->
  ~ occurs (py "```json") (prefix ++ fence ++ interior ++ fence ++ suffix) ->
  _extract_json runtime_text limits
    (Some (prefix ++ fence ++ interior ++ fence ++ suffix))
  = inr (VDict d).
Proof.
  intros Hj Hno Hpre Htag.
  destruct (json_loads_object _ _ _ Hj) as [w1 [k' [w2 [-> [Hw1 [Hw2 Hk]]]]]].
  unfold _extract_json. rewrite (no_tag_no_block _ _ Htag).
  assert (Hblock :
    re_search (match_fenced (py "```"))
      (prefix ++ fence ++ (w1 ++ (123 :: k' ++ [125]) ++ w2) ++ fence ++ suffix)
    = Some (123 :: k' ++ [125])).
  { rewrite re_search_skip.
    - apply re_search_here. rewrite <- !app_assoc.
      apply (match_fenced_block fence).
      + eapply Forall_impl; [exact Hw1 | apply json_ws_is_space].
      + eapply Forall_impl; [exact Hw2 | apply json_ws_is_space].
      + intros Hocc. apply Hno. now apply occurs_app_r.
    - intros p1 p2 -> Hp2. destruct p2 as [|c p2]; [congruence |].
      apply Forall_app in Hpre as [_ Hpre]. inversion Hpre as [|? ? Hc _]; subst.
      unfold match_fenced. rewrite lit_none; [reflexivity |].
      change (py "```") with [96; 96; 96]. cbn [starts_with app].
      destruct (96 =? c) eqn:E; [| reflexivity].
      apply N.eqb_eq in E. congruence. }
  rewrite Hblock. now rewrite Hk.
Qed.

(** X9.  Whatever a block strategy finds is a part of the text that
    holds no triple backquote and has no whitespace at either end. *)
Theorem block_candidate_is_clean tag content g :
  re_search (match_fenced tag) content = Some g ->
  occurs g content
  /\ ~ occurs fence g
  /\ no_head is_space g = true
  /\ no_head is_space (rev g) = true.
Proof.
  intros H. apply re_search_inv in H as [s1 [s2 [-> H]]].
  apply match_fenced_inv in H as [w [t [-> [Hw [Hf [Hmin Hhead]]]]]].
  repeat split.
  - exists (s1 ++ tag ++ w), t. now rewrite <- !app_assoc.
  - intros [x [y ->]].
    specialize (Hmin x (fence ++ y) eq_refl ltac:(discriminate)).
    rewrite <- app_assoc in Hmin.
    change (lstrip (fence ++ y ++ t)) with (fence ++ y ++ t) in Hmin.
    assert (E : starts_with fence (fence ++ y ++ t) = true)
      by (apply starts_with_spec; eauto).
    congruence.
  - exact Hhead.
  - destruct (rev g) as [|c r] eqn:Er; [reflexivity |]. simpl.
    destruct (is_space c) eqn:Ec; [| reflexivity]. exfalso.
    assert (Hg : g = rev r ++ [c]).
    { rewrite <- (rev_involutive g), Er. reflexivity. }
    specialize (Hmin (rev r) [c] Hg ltac:(discriminate)).
    cbn [app lstrip] in Hmin. rewrite Ec in Hmin. congruence.
Qed.

End ExtractExtras.

(** ** The video identifier of a URL *)

Lemma run_of_split p s :
  exists rest,
    s = run_of p s ++ rest
    /\ Forall (fun c => p c = true) (run_of p s)
    /\ no_head p rest = true.
Proof.
  induction s as [|c s [rest [Hs [Hrun Hrest]]]]; simpl.
  - exists []. repeat split. constructor.
  - destruct (p c) eqn:Ec.
    + exists rest. split; [simpl; now rewrite <- Hs |]. split; [| exact Hrest].
      now constructor.
    + exists (c :: s). split; [reflexivity |]. split; [constructor |].
      simpl. now rewrite Ec.
Qed.

Lemma run_of_app p g rest :
  Forall (fun c => p c = true) g -> no_head p rest = true ->
  run_of p (g ++ rest) = g.
Proof.
  intros Hg Hrest. induction Hg as [|c g Hc _ IH]; simpl.
  - destruct rest as [|c rest]; [reflexivity |]. cbn [no_head] in Hrest.
    cbn [run_of]. destruct (p c); [discriminate Hrest | reflexivity].
  - now rewrite Hc, IH.
Qed.

Lemma class_plus_inv p s g :
  class_plus p s = Some g ->
  g <> []
  /\ Forall (fun c => p c = true) g
  /\ exists rest, s = g ++ rest /\ no_head p rest = true.
Proof.
  unfold class_plus. destruct (run_of_split p s) as [rest [Hs [Hrun Hrest]]].
  destruct (run_of p s) as [|c r] eqn:E; [discriminate |].
  intros H. injection H as <-. split; [discriminate |]. split; [exact Hrun |].
  now exists rest.
Qed.

Lemma class_plus_run p g rest :
  g <> [] -> Forall (fun c => p c = true) g -> no_head p rest = true ->
  class_plus p (g ++ rest) = Some g.
Proof.
  intros Hne Hg Hrest. unfold class_plus. rewrite (run_of_app _ _ _ Hg Hrest).
  now destruct g.
Qed.

Lemma match_marked_inv alts s g :
  match_marked alts s = Some g ->
  exists a r, In a alts /\ s = a ++ r /\ class_plus id_char r = Some g.
Proof.
  induction alts as [|a alts IH]; simpl; [discriminate |].
  destruct (lit a s) as [r|] eqn:El; simpl.
  - destruct (class_plus id_char r) as [g'|] eqn:Ec.
    + intros H. injection H as ->. exists a, r.
      split; [now left |]. split; [now apply lit_spec | exact Ec].
    + intros H. destruct (IH H) as [a' [r' [Hin H']]]. exists a', r'.
      split; [now right | exact H'].
  - intros H. destruct (IH H) as [a' [r' [Hin H']]]. exists a', r'.
    split; [now right | exact H'].
Qed.

Lemma match_watch_inv s g :
  match_watch s = Some g ->
  exists w r,
    s = py "youtube.com/watch?" ++ w ++ py "v=" ++ r
    /\ class_plus id_char r = Some g.
Proof.
  unfold match_watch. destruct (lit _ s) as [s1|] eqn:El; [| discriminate].
  apply lit_spec in El. subst s. intros H.
  apply star_greedy_inv in H as [w [t [-> [_ [Hk _]]]]].
  destruct (lit (py "v=") t) as [r|] eqn:Ev; [| discriminate].
  apply lit_spec in Ev. subst t. simpl in Hk. now exists w, r.
Qed.

(** Every alternative of the first pattern starts with [youtu]. *)
Lemma markers_start a : In a url_markers -> exists b, a = py "youtu" ++ b.
Proof.
  intros [<- | [<- | [<- | [<- | []]]]]; eexists; reflexivity.
Qed.

(** In front of [youtu], no earlier place starts with [youtu] unless
    the text in front holds it. *)
Lemma youtu_not_before p2 x :
  p2 <> [] ->
  starts_with (py "youtu") (p2 ++ py "youtu" ++ x) = true ->
  exists b, p2 = py "youtu" ++ b.
Proof.
  intros Hne H.
  change (py "youtu") with [121; 111; 117; 116; 117] in *.
  destruct p2 as [|c1 [|c2 [|c3 [|c4 [|c5 p]]]]]; [congruence | | | | |];
    cbn [app starts_with] in H;
    repeat (apply andb_prop in H as [? H]);
    repeat match goal with
           | E : (_ =? _) = true |- _ => apply N.eqb_eq in E
           end;
    try congruence.
  subst. now exists p.
Qed.

Lemma lit_cancel p q t : lit (p ++ q) (p ++ t) = lit q t.
Proof. induction p as [|a p IH]; simpl; [reflexivity |]. now rewrite N.eqb_refl. Qed.

(** A greedy star stops at once where no longer run lets the
    continuation match. *)
Lemma star_greedy_first {A} p s (K : str -> option A) :
  (forall u t, s = u ++ t -> u <> [] -> K t = None) ->
  star_greedy p s K = K s.
Proof.
  revert K. induction s as [|c s IH]; intros K H; cbn [star_greedy]; [reflexivity |].
  destruct (p c); [| reflexivity].
  rewrite IH.
  - now rewrite (H [c] s eq_refl ltac:(discriminate)).
  - intros u t -> Hu. apply (H (c :: u) t eq_refl). discriminate.
Qed.

(** No pattern of [extract_video_id] matches at a place that does not
    start with [youtu]. *)
Lemma marked_needs_youtu s :
  starts_with (py "youtu") s = false -> match_marked url_markers s = None.
Proof.
  intros H. destruct (match_marked url_markers s) as [g|] eqn:E; [| reflexivity].
  apply match_marked_inv in E as [a [r [Ha [-> _]]]].
  destruct (markers_start a Ha) as [b ->].
  assert (E : starts_with (py "youtu") ((py "youtu" ++ b) ++ r) = true).
  { apply starts_with_spec. exists (b ++ r). now rewrite <- app_assoc. }
  congruence.
Qed.

Lemma watch_needs_youtu s :
  starts_with (py "youtu") s = false -> match_watch s = None.
Proof.
  intros H. destruct (match_watch s) as [g|] eqn:E; [| reflexivity].
  apply match_watch_inv in E as [w [r [-> _]]].
  discriminate H.
Qed.

Lemma not_youtu_start p2 s :
  ~ occurs (py "youtu") (p2 ++ s) -> starts_with (py "youtu") (p2 ++ s) = false.
Proof.
  intros Hno. destruct (starts_with _ _) eqn:E; [| reflexivity].
  exfalso. apply Hno. apply starts_with_spec in E as [b ->]. now exists [], b.
Qed.

Lemma search_needs_youtu {A} (m : str -> option A) s :
  (forall t, starts_with (py "youtu") t = false -> m t = None) ->
  ~ occurs (py "youtu") s ->
  re_search m s = None.
Proof.
  intros Hm Hno. apply re_search_none. intros s1 s2 ->. apply Hm.
  destruct (starts_with _ s2) eqn:E; [| reflexivity].
  exfalso. apply Hno. apply starts_with_spec in E as [b ->]. now exists s1, b.
Qed.

(** Behind a text without [youtu], a place that starts with [youtu]
    is the first one where a pattern can match. *)
Lemma search_skips_prefix {A} (m : str -> option A) prefix x :
  (forall t, starts_with (py "youtu") t = false -> m t = None) ->
  ~ occurs (py "youtu") prefix ->
  re_search m (prefix ++ py "youtu" ++ x) = re_search m (py "youtu" ++ x).
Proof.
  intros Hm Hno. apply re_search_skip. intros p1 p2 -> Hp2. apply Hm.
  destruct (starts_with _ _) eqn:E; [| reflexivity].
  exfalso. apply Hno.
  apply youtu_not_before in E as [b ->]; [| exact Hp2]. now exists p1, b.
Qed.

Section VideoFacts.

(** X10.  An identifier that [extract_video_id] returns is not empty,
    holds none of the characters [&], line feed, [?] and [#], stands in
    the URL, where it ends at one of these characters or at the end,
    and the URL holds [youtu]. *)
Theorem video_id_is_clean url id :
  extract_video_id url = Some id ->
  id <> []
  /\ Forall (fun c => id_char c = true) id
  /\ (exists a rest, url = a ++ id ++ rest /\ no_head id_char rest = true)
  /\ occurs (py "youtu") url.
Proof.
  unfold extract_video_id.
  destruct (re_search (match_marked url_markers) url) as [g|] eqn:E1.
  - intros H. injection H as ->.
    apply re_search_inv in E1 as [s1 [s2 [-> Hm]]].
    apply match_marked_inv in Hm as [a [r [Hin [-> Hc]]]].
    apply class_plus_inv in Hc as [Hne [Hid [rest [-> Hrest]]]].
    split; [exact Hne |]. split; [exact Hid |]. split.
    + exists (s1 ++ a), rest. split; [now rewrite <- !app_assoc | exact Hrest].
    + destruct (markers_start a Hin) as [b ->].
      exists s1, (b ++ id ++ rest). now rewrite <- !app_assoc.
  - intros H. apply re_search_inv in H as [s1 [s2 [-> Hm]]].
    apply match_watch_inv in Hm as [w [r [-> Hc]]].
    apply class_plus_inv in Hc as [Hne [Hid [rest [-> Hrest]]]].
    split; [exact Hne |]. split; [exact Hid |]. split.
    + exists (s1 ++ py "youtube.com/watch?" ++ w ++ py "v="), rest.
      split; [now rewrite <- !app_assoc | exact Hrest].
    + exists s1, (py "be.com/watch?" ++ w ++ py "v=" ++ id ++ rest).
      reflexivity.
Qed.

(** X11.  Behind each of the four markers of the first pattern, a
    non-empty identifier free of the four delimiters, ending at a
    delimiter or at the end of the URL, is returned as it stands,
    whatever text without [youtu] precedes the marker. *)
Theorem video_id_roundtrip marker prefix id rest :
  In marker url_markers ->
  ~ occurs (py "youtu") prefix ->
  id <> [] ->
  Forall (fun c => id_char c = true) id ->
  no_head id_char rest = true ->
  extract_video_id (prefix ++ marker ++ id ++ rest) = Some id.
Proof.
  intros Hin Hno Hne Hid Hrest. unfold extract_video_id.
  assert (Hfound :
    re_search (match_marked url_markers) (prefix ++ marker ++ id ++ rest)
    = Some id).
  { rewrite re_search_skip.
    - apply re_search_here.
      pose proof (class_plus_run id_char id rest Hne Hid Hrest) as Hc.
      destruct Hin as [<- | [<- | [<- | [<- | []]]]];
        unfold url_markers; cbn [match_marked].
      + rewrite lit_app. simpl. now rewrite Hc.
      + rewrite (lit_none (py "youtube.com/watch?v=")) by reflexivity.
        rewrite lit_app. simpl. now rewrite Hc.
      + rewrite (lit_none (py "youtube.com/watch?v=")) by reflexivity.
        rewrite (lit_none (py "youtu.be/")) by reflexivity.
        rewrite lit_app. simpl. now rewrite Hc.
      + rewrite (lit_none (py "youtube.com/watch?v=")) by reflexivity.
        rewrite (lit_none (py "youtu.be/")) by reflexivity.
        rewrite (lit_none (py "youtube.com/embed/")) by reflexivity.
        rewrite lit_app. simpl. now rewrite Hc.
    - intros p1 p2 -> Hp2.
      destruct (match_marked url_markers (p2 ++ marker ++ id ++ rest)) as [g|] eqn:E;
        [| reflexivity].
      exfalso. apply Hno.
      apply match_marked_inv in E as [a [r [Ha [Hs _]]]].
      destruct (markers_start a Ha) as [b ->].
      destruct (markers_start marker Hin) as [bm ->].
      rewrite <- !app_assoc in Hs.
      assert (Hst : starts_with (py "youtu")
                      (p2 ++ py "youtu" ++ bm ++ id ++ rest) = true).
      { apply starts_with_spec. exists (b ++ r). exact Hs. }
      apply youtu_not_before in Hst as [b2 ->]; [| exact Hp2].
      exists p1, b2. reflexivity. }
  now rewrite Hfound.
Qed.

(** X12.  A watch URL whose first parameter is not [v]: when the
    parameters hold no line feed, the text behind the question mark
    holds [youtu] nowhere and the identifier with the rest holds no
    further [v=], the identifier behind [&v=] is returned. *)
Theorem video_id_behind_parameters prefix params id rest :
  ~ occurs (py "youtu") prefix ->
  starts_with (py "v=") params = false ->
  Forall (fun c => c <> 10) params ->
  ~ occurs (py "youtu") (params ++ py "&v=" ++ id ++ rest) ->
  ~ occurs (py "v=") (id ++ rest) ->
  id <> [] ->
  Forall (fun c => id_char c = true) id ->
  no_head id_char rest = true ->
  extract_video_id
    (prefix ++ py "youtube.com/watch?" ++ params ++ py "&v=" ++ id ++ rest)
  = Some id.
Proof.
  intros Hpre Hfirst Hline Hlater Hv Hne Hid Hrest. unfold extract_video_id.
  set (tail := params ++ py "&v=" ++ id ++ rest) in *.
  change (py "youtube.com/watch?" ++ tail)
    with (py "youtu" ++ py "be.com/watch?" ++ tail).
  rewrite !search_skips_prefix
    by (try exact Hpre; auto using marked_needs_youtu, watch_needs_youtu).
  assert (Hnone :
    re_search (match_marked url_markers)
      (py "youtu" ++ py "be.com/watch?" ++ tail) = None).
  { rewrite re_search_unfold.
    assert (Hhere : match_marked url_markers
                      (py "youtu" ++ py "be.com/watch?" ++ tail) = None).
    { unfold url_markers. cbn [match_marked].
      change (py "youtu" ++ py "be.com/watch?" ++ tail)
        with (py "youtube.com/watch?" ++ tail).
      rewrite (lit_none (py "youtu.be/")) by reflexivity.
      rewrite (lit_none (py "youtube.com/embed/")) by reflexivity.
      rewrite (lit_none (py "youtube.com/v/")) by reflexivity.
      change (py "youtube.com/watch?v=") with (py "youtube.com/watch?" ++ py "v=").
      rewrite lit_cancel. rewrite lit_none; [reflexivity |]. subst tail.
      change (py "v=") with [118; 61] in *. change (py "&v=") with [38; 118; 61].
      destruct params as [|c1 [|c2 params]]; cbn [app starts_with] in *.
      - reflexivity.
      - now destruct (118 =? c1).
      - exact Hfirst. }
    rewrite Hhere.
    change (py "youtu" ++ py "be.com/watch?" ++ tail)
      with (121 :: py "outube.com/watch?" ++ tail).
    cbv iota. rewrite re_search_skip.
    - apply search_needs_youtu; [apply marked_needs_youtu | exact Hlater].
    - intros p1 p2 Hp Hp2. apply marked_needs_youtu.
      assert (Hy : Forall (fun c => c <> 121) p2).
      { assert (Hall : Forall (fun c => c <> 121) (py "outube.com/watch?"))
          by (vm_compute; repeat constructor; discriminate).
        rewrite Hp in Hall. now apply Forall_app in Hall as [_ Hall]. }
      destruct p2 as [|c p2]; [congruence |].
      inversion Hy as [|? ? Hc _]; subst.
      change (py "youtu") with [121; 111; 117; 116; 117].
      cbn [app starts_with]. destruct (121 =? c) eqn:E; [| reflexivity].
      apply N.eqb_eq in E. congruence. }
  rewrite Hnone.
  apply re_search_here. unfold match_watch.
  change (py "youtu" ++ py "be.com/watch?" ++ tail)
    with (py "youtube.com/watch?" ++ tail).
  rewrite lit_app. subst tail.
  change (py "&v=") with ([38] ++ py "v=").
  rewrite <- (app_assoc [38]). rewrite (app_assoc params [38]).
  apply star_greedy_skip.
  - apply Forall_app. split.
    + eapply Forall_impl; [exact Hline |]. intros c Hc. cbv beta.
      destruct (c =? 10) eqn:E; [| reflexivity]. apply N.eqb_eq in E. congruence.
    + repeat constructor.
  - rewrite star_greedy_first.
    + rewrite lit_app. simpl. now apply class_plus_run.
    + intros u t Hs Hu.
      destruct (lit (py "v=") t) as [r|] eqn:El; [| reflexivity].
      exfalso. apply lit_spec in El. subst t.
      change (py "v=") with [118; 61] in *.
      destruct u as [|c1 [|c2 u]]; [congruence | |]; cbn [app] in Hs.
      * injection Hs as _ Hs. discriminate Hs.
      * injection Hs as _ _ Hs. apply Hv. exists u, r. exact Hs.
Qed.

End VideoFacts.

(** ** The summarizer page without a transcript, a completion without
    content, and the construction of the service *)

Lemma transcript_error_shape (fetch_transcript : str -> exn + list str)
    video_id e :
  fetch_transcript video_id = inl e ->
  exists msg, get_youtube_transcript fetch_transcript video_id = only_error msg.
Proof.
  intros Hf. unfold get_youtube_transcript. rewrite Hf.
  destruct (is_import_error e); [eexists; reflexivity |].
  destruct (_ || _); eexists; reflexivity.
Qed.

Section PageExtras.

Variable transport : dict -> exn + option str.
Variable runtime_text : exn_class -> value -> str.
Variable limits : Limits.
Variable fetch_transcript : str -> exn + list str.

(** X13.  The message [get_youtube_transcript] gives for an error of
    the transcript library: the result's only entry is [error]; for a
    failed import it asks to install the library; for any other error
    whose text holds one of the three phrases it says that no
    transcript is available; and otherwise it is the error's text
    behind a fixed prefix. *)
Theorem transcript_error_message video_id e :
  fetch_transcript video_id = inl e ->
  exists msg,
    get_youtube_transcript fetch_transcript video_id = only_error msg
    /\ (is_import_error e = true ->
        msg = py "youtube-transcript-api is not installed. Please run: pip install youtube-transcript-api")
    /\ (is_import_error e = false ->
        occurs (py "Could not retrieve") (exn_str e)
        \/ occurs (py "No transcript") (exn_str e)
        \/ occurs (py "TranscriptsDisabled") (exn_str e) ->
        msg = py "No transcript available for this video. The video might not have captions enabled.")
    /\ (is_import_error e = false ->
        ~ occurs (py "Could not retrieve") (exn_str e) ->
        ~ occurs (py "No transcript") (exn_str e) ->
        ~ occurs (py "TranscriptsDisabled") (exn_str e) ->
        msg = py "Error getting transcript: " ++ exn_str e).
Proof.
  intros Hf. unfold get_youtube_transcript. rewrite Hf.
  destruct (is_import_error e).
  - eexists. split; [reflexivity |]. repeat split; intros; congruence.
  - destruct (str_contains (py "Could not retrieve") (exn_str e)
              || str_contains (py "No transcript") (exn_str e)
              || str_contains (py "TranscriptsDisabled") (exn_str e)) eqn:Eb.
    + eexists. split; [reflexivity |]. split; [discriminate |].
      split; [reflexivity |]. intros _ H1 H2 H3. exfalso.
      apply orb_true_iff in Eb as [Eb | Eb];
        [apply orb_true_iff in Eb as [Eb | Eb] |];
        apply str_contains_spec in Eb; tauto.
    + eexists. split; [reflexivity |]. split; [discriminate |].
      split; [| reflexivity].
      apply orb_false_iff in Eb as [Eb E3].
      apply orb_false_iff in Eb as [E1 E2].
      intros _ [H | [H | H]]; apply str_contains_spec in H; congruence.
Qed.

(** X14.  Without the service, or without a transcript, [summarize_video]
    sends no request and changes nothing: it returns a result whose
    only entry is [error], which in the second case is the result of
    [get_youtube_transcript]. *)
Theorem summarize_video_sends_nothing groq_service video_id st :
  groq_service = None \/ (exists e, fetch_transcript video_id = inl e) ->
  exists msg,
    summarize_video transport runtime_text fetch_transcript groq_service
      video_id st
    = (inr (only_error msg), st)
    /\ (groq_service = None ->
        msg = py "Groq service not initialized. Please check your API key.")
    /\ (groq_service <> None ->
        get_youtube_transcript fetch_transcript video_id = only_error msg).
Proof.
  intros H. destruct groq_service as [[]|].
  - destruct H as [H | [e He]]; [discriminate |].
    destruct (transcript_error_shape fetch_transcript video_id e He)
      as [msg Hmsg].
    exists msg. unfold summarize_video. rewrite Hmsg.
    split; [reflexivity |]. split; [discriminate | reflexivity].
  - eexists. split; [reflexivity |]. split; [reflexivity | congruence].
Qed.

(** X15.  A completion without content: [check_grammar] and
    [check_plagiarism] return the text of the type error that the
    search in [None] raises, [paraphrase] the text of the attribute
    error of [None.strip()], each as a result whose only entry is
    [error]; [summarize_youtube] and [analyze_image] return [None] as
    the summary and as the analysis. *)
Theorem empty_completion_outcome text style transcript video_title image_url
    prompt model st :
  (forall kw, transport kw = inr None) ->
  fst (check_grammar transport runtime_text limits text model st)
  = inr (only_error (runtime_text TypeError VNone))
  /\ fst (check_plagiarism transport runtime_text limits text model st)
     = inr (only_error (runtime_text TypeError VNone))
  /\ fst (paraphrase transport runtime_text text style model st)
     = inr (only_error (runtime_text AttributeError VNone))
  /\ fst (summarize_youtube transport transcript video_title model st)
     = inr [ (py "summary", VNone);
             (py "title",
               VStr (str_or (Some video_title) (py "YouTube Video Summary"))) ]
  /\ fst (analyze_image transport image_url prompt model st)
     = inr [ (py "analysis", VNone) ].
Proof.
  intros Ht. repeat split.
  - unfold check_grammar. now rewrite text_call_run, Ht.
  - unfold check_plagiarism, try_except, bind. now rewrite text_call_run, Ht.
  - unfold paraphrase, try_except, bind. now rewrite text_call_run, Ht.
  - unfold summarize_youtube, try_except, bind. now rewrite text_call_run, Ht.
  - unfold analyze_image, try_except, bind, client_create. simpl. now rewrite Ht.
Qed.

(** X19.  A failure of the endpoint is reported by every text feature
    in the same way: the result's only entry is [error], and it holds
    the text of the failure behind the gateway's prefix.  ([chat] is
    run with enough fuel for the history it is given.) *)
Theorem transport_failure_is_reported e text style transcript video_title
    fuel msg conversation_history hist model st :
  (forall kw, transport kw = inl e) ->
  history_is st conversation_history hist ->
  (length hist < fuel)%nat ->
  fst (check_grammar transport runtime_text limits text model st)
  = inr (only_error (py "Groq API error: " ++ exn_str e))
  /\ fst (check_plagiarism transport runtime_text limits text model st)
     = inr (only_error (py "Groq API error: " ++ exn_str e))
  /\ fst (paraphrase transport runtime_text text style model st)
     = inr (only_error (py "Groq API error: " ++ exn_str e))
  /\ fst (summarize_youtube transport transcript video_title model st)
     = inr (only_error (py "Groq API error: " ++ exn_str e))
  /\ exists st',
       chat transport fuel msg conversation_history model st
       = Some (inr (only_error (py "Groq API error: " ++ exn_str e)), st').
Proof.
  intros Ht Hh Hf. repeat split.
  - unfold check_grammar. now rewrite text_call_run, Ht.
  - unfold check_plagiarism, try_except, bind. now rewrite text_call_run, Ht.
  - unfold paraphrase, try_except, bind. now rewrite text_call_run, Ht.
  - unfold summarize_youtube, try_except, bind. now rewrite text_call_run, Ht.
  - rewrite (chat_run transport _ _ _ _ _ _ Hh Hf), Ht. eexists. reflexivity.
Qed.

End PageExtras.

Section ConstructionExtras.

Variable Client : Type.

(** X16.  The service is built once.  With no key in the environment,
    or an empty one, [get_groq_service] raises the configuration error
    and leaves the global unset.  When a first call builds the service,
    the key it holds is the environment's, which is not empty, the
    global holds the service, and every later call returns this same
    service and leaves the global as it is, whatever the environment
    and the client constructor are by then. *)
Theorem service_is_built_once (Groq : str -> exn + Client) :
  (forall env_key,
     env_key = None \/ env_key = Some [] ->
     get_groq_service Client Groq env_key None
     = (inl (Exn ValueError missing_key_text), None))
  /\ (forall env_key s g,
        get_groq_service Client Groq env_key None = (inr s, g) ->
        g = Some s
        /\ env_key = Some (api_key Client s)
        /\ api_key Client s <> []
        /\ Groq (api_key Client s) = inr (client Client s)
        /\ forall Groq' env_key',
             get_groq_service Client Groq' env_key' g = (inr s, g)).
Proof.
  split.
  - intros env_key [-> | ->]; reflexivity.
  - intros env_key s g. unfold get_groq_service, GroqService_init.
    destruct env_key as [[|c k]|]; try discriminate.
    destruct (Groq (c :: k)) as [e|cl] eqn:Eg; [discriminate |].
    intros H. injection H as <- <-. simpl.
    repeat split; [discriminate | exact Eg].
Qed.

End ConstructionExtras.

(** ** A turn on the chat page *)

Section ChatPageFacts.

Variable transport : dict -> exn + option str.
Variable runtime_text : exn_class -> value -> str.
Variable other_text : value -> str.

Lemma copy_entry_ok msg :
  has_role_content msg -> copy_entry runtime_text msg = inr (entry_copy msg).
Proof.
  intros [d [role [content [-> [Hr Hc]]]]].
  unfold copy_entry, py_getitem, entry_copy. now rewrite Hr, Hc.
Qed.

Lemma message_has_role_content role content :
  has_role_content (role_message role content).
Proof. now eexists _, _, _. Qed.

Lemma for_copy_copies fuel : forall src dst i (h : gmap nat (list value)) hist acc,
  src <> dst ->
  Forall has_role_content hist ->
  h !! src = Some hist ->
  h !! dst = Some acc ->
  (length hist - i < fuel)%nat ->
  for_copy runtime_text fuel src dst i h
  = Some (inr tt, <[dst := acc ++ map entry_copy (drop i hist)]> h).
Proof.
  induction fuel as [|fuel IH]; intros src dst i h hist acc Hne Hwf Hs Hd Hf.
  - lia.
  - simpl. rewrite Hs. simpl. destruct (hist !! i) as [msg|] eqn:Hi.
    + assert (Hmsg : has_role_content msg).
      { rewrite Forall_forall in Hwf. apply Hwf.
        eapply list_elem_of_lookup_2. exact Hi. }
      rewrite (copy_entry_ok _ Hmsg). unfold heap_append.
      assert (H1 : alter (fun l => l ++ [entry_copy msg]) dst h !! src = Some hist)
        by now rewrite lookup_alter_ne.
      assert (H2 : alter (fun l => l ++ [entry_copy msg]) dst h !! dst
                   = Some (acc ++ [entry_copy msg]))
        by now rewrite lookup_alter_eq, Hd.
      assert (H3 : (length hist - S i < fuel)%nat)
        by (apply lookup_lt_Some in Hi; lia).
      rewrite (IH src dst (S i) _ hist (acc ++ [entry_copy msg]) Hne Hwf H1 H2 H3).
      f_equal. f_equal. rewrite (drop_S _ _ _ Hi), <- app_assoc. simpl.
      apply map_eq. intros a. destruct (decide (a = dst)) as [->|Ha].
      * now rewrite !lookup_insert_eq.
      * rewrite !lookup_insert_ne by done. now rewrite lookup_alter_ne.
    + apply lookup_ge_None in Hi. rewrite drop_ge by lia. simpl.
      rewrite app_nil_r. now rewrite insert_id.
Qed.

(** X17.  One turn on the chat page, with the service built, the send
    button clicked, a message typed, the flag up, and a history of
    entries that each have a role and a content.  The handler returns
    with the flag up again, and the history has grown by the user's
    message and the assistant's entry, both with a role and a content.
    One request was sent: its messages are the system prompt, the
    history entries reduced to role and content, and then the user's
    message twice, since the page has put it into the history before
    [chat] appends it again.  The assistant's entry holds the content
    of the completion, or the text of the transport error behind the
    two prefixes. *)
Theorem chat_turn fuel user_input session st hist :
  heap st !! chat_history session = Some hist ->
  Forall has_role_content hist ->
  processing_done session = true ->
  user_input <> [] ->
  (length hist + 1 < fuel)%nat ->
  exists kw reply st',
    on_send transport runtime_text other_text (Some tt) fuel true user_input
      session st
    = Some (inr tt, mkSession (chat_history session) true, st')
    /\ heap st' !! chat_history session
       = Some (hist ++ [ role_message (py "user") (VStr user_input);
                         role_message (py "assistant") reply ])
    /\ Forall has_role_content
         (hist ++ [ role_message (py "user") (VStr user_input);
                    role_message (py "assistant") reply ])
    /\ sent st' = sent st ++ [kw]
    /\ dict_get (py "messages") kw
       = Some (VList
                 (role_message (py "system") (VStr system_prompt)
                  :: map entry_copy hist
                  ++ [ role_message (py "user") (VStr user_input);
                       role_message (py "user") (VStr user_input) ]))
    /\ reply = match transport kw with
               | inl e => VStr (py "Error: " ++ wrapped e)
               | inr content => opt_str content
               end.
Proof.
  intros Hh Hwf Hflag Hne Hf.
  destruct user_input as [|c u]; [congruence |].
  unfold on_send. rewrite Hflag. cbv iota. cbn [chat_history].
  set (user_input := c :: u) in *.
  set (user := role_message (py "user") (VStr user_input)).
  set (ch := chat_history session) in *.
  set (h1 := heap_append ch user (heap st)).
  assert (Hh1 : h1 !! ch = Some (hist ++ [user])).
  { unfold h1, heap_append. now rewrite lookup_alter_eq, Hh. }
  unfold chat_with_ai, heap_alloc. cbn [heap sent chat_history].
  set (a := fresh (dom h1)).
  assert (Ha : h1 !! a = None).
  { apply not_elem_of_dom. apply is_fresh. }
  assert (Hne_a : ch <> a) by (intros E; rewrite E in Hh1; congruence).
  assert (Hwf1 : Forall has_role_content (hist ++ [user])).
  { apply Forall_app. split; [exact Hwf |]. constructor; [| constructor].
    apply message_has_role_content. }
  assert (H1 : <[a := []]> h1 !! ch = Some (hist ++ [user]))
    by now rewrite lookup_insert_ne.
  assert (H2 : <[a := []]> h1 !! a = Some []) by now rewrite lookup_insert_eq.
  assert (H3 : (length (hist ++ [user]) - 0 < fuel)%nat).
  { rewrite length_app. simpl. lia. }
  rewrite (for_copy_copies fuel ch a 0 _ _ [] Hne_a Hwf1 H1 H2 H3).
  rewrite insert_insert_eq, drop_0. cbn [app].
  set (h2 := <[a := map entry_copy (hist ++ [user])]> h1).
  assert (Hhist : history_is (mkState h2 (sent st)) (Some a)
                    (map entry_copy (hist ++ [user]))).
  { simpl. unfold h2. now rewrite lookup_insert_eq. }
  assert (Hfuel : (length (map entry_copy (hist ++ [user])) < fuel)%nat).
  { rewrite length_map, length_app. simpl. lia. }
  rewrite (chat_run transport fuel user_input (Some a) None _ _ Hhist Hfuel).
  cbn [heap sent].
  set (kw := call_params _ _ _ _ _).
  set (b := fresh (dom h2)).
  assert (Hb : h2 !! b = None).
  { apply not_elem_of_dom. apply is_fresh. }
  assert (Hh2 : h2 !! ch = Some (hist ++ [user])).
  { unfold h2. now rewrite lookup_insert_ne. }
  assert (Hne_b : ch <> b) by (intros E; rewrite E in Hh2; congruence).
  assert (Hmsgs : dict_get (py "messages") kw
            = Some (VList (role_message (py "system") (VStr system_prompt)
                           :: map entry_copy hist ++ [user; user]))).
  { unfold kw, call_params, chat_messages.
    rewrite map_app. cbn [map]. change (entry_copy user) with user.
    rewrite <- app_assoc. cbn [app].
    destruct (true && str_contains (py "gpt-oss") _); reflexivity. }
  assert (Hwf2 : forall reply,
            Forall has_role_content
              (hist ++ [user; role_message (py "assistant") reply])).
  { intros reply. apply Forall_app. split; [exact Hwf |].
    repeat constructor; apply message_has_role_content. }
  assert (Hgrow : forall reply (l : list value),
            heap_append ch (role_message (py "assistant") reply)
              (<[b := l]> h2) !! ch
            = Some (hist ++ [user; role_message (py "assistant") reply])).
  { intros reply l. unfold heap_append. rewrite lookup_alter_eq.
    rewrite lookup_insert_ne by (intros E; now apply Hne_b).
    rewrite Hh2. simpl. now rewrite <- app_assoc. }
  destruct (transport kw) as [e|content] eqn:Et.
  - exists kw, (VStr (py "Error: " ++ wrapped e)). eexists.
    split; [reflexivity |]. cbn [heap sent].
    split; [apply Hgrow |]. split; [apply Hwf2 |].
    split; [reflexivity |]. split; [exact Hmsgs |]. now rewrite Et.
  - exists kw, (opt_str content). eexists.
    split; [reflexivity |]. cbn [heap sent].
    split; [apply Hgrow |]. split; [apply Hwf2 |].
    split; [reflexivity |]. split; [exact Hmsgs |]. now rewrite Et.
Qed.

(** X18.  Without the service, a turn on the chat page sends nothing:
    the history grows by the user's message and by an assistant entry
    that holds the fixed text about the missing service. *)
Theorem chat_turn_without_service fuel user_input session st hist :
  heap st !! chat_history session = Some hist ->
  processing_done session = true ->
  user_input <> [] ->
  exists st',
    on_send transport runtime_text other_text None fuel true user_input
      session st
    = Some (inr tt, mkSession (chat_history session) true, st')
    /\ heap st' !! chat_history session
       = Some (hist ++ [ role_message (py "user") (VStr user_input);
                         role_message (py "assistant") (VStr no_service_text) ])
    /\ sent st' = sent st.
Proof.
  intros Hh Hflag Hne. destruct user_input as [|c u]; [congruence |].
  unfold on_send, chat_with_ai. rewrite Hflag. cbn [chat_history heap sent].
  eexists. split; [reflexivity |]. cbn [heap sent]. split; [| reflexivity].
  unfold heap_append. rewrite !lookup_alter_eq, Hh. simpl.
  now rewrite <- app_assoc.
Qed.

End ChatPageFacts.

(** ** Further examples on concrete inputs *)

Lemma grammar_keys_witness :
  fst (check_grammar (answers (Some (pyq "{^corrections^: []}"))) no_text
         sample_limits (py "hi") None empty_state)
  = inr [ (py "original_text", VStr (py "hi"));
          (py "corrected_text",
            default (VStr (py "hi"))
              (dict_get (py "corrected_text") [(py "corrections", VList [])]));
          (py "corrections",
            default (VList [])
              (dict_get (py "corrections") [(py "corrections", VList [])])) ].
Proof.
  apply (grammar_keys_present
           (answers (Some (pyq "{^corrections^: []}"))) no_text sample_limits
           (py "hi") None empty_state (Some (pyq "{^corrections^: []}"))).
  - reflexivity.
  - vm_compute. reflexivity.
Defined.

Lemma non_object_json_witness :
  (exists msg,
     fst (check_grammar (answers (Some (py "[1, 2]"))) no_text sample_limits
            (py "hi") None empty_state)
     = inr (only_error msg))
  /\ (exists msg,
        fst (check_plagiarism (answers (Some (py "[1, 2]"))) no_text
               sample_limits (py "hi") None empty_state)
        = inr (only_error msg)).
Proof.
  destruct (non_object_json_is_error
              (answers (Some (py "[1, 2]"))) no_text sample_limits (py "hi") None
              empty_state
              (Some (py "[1, 2]")) (VList [VInt 1; VInt 2])) as [H1 H2].
  - vm_compute. reflexivity.
  - reflexivity.
  - split; [apply H1 | apply H2]; reflexivity.
Defined.

Lemma plagiarism_fallback_witness :
  fst (check_plagiarism (answers (Some (py "Sorry, I cannot do that."))) no_text
         sample_limits (py "Some essay.") None empty_state)
  = inr [ (py "original_text", VStr (py "Some essay."));
          (py "plagiarism_score", VInt 0);
          (py "flagged_sentences", VList []);
          (py "feedback", VStr (py "Unable to analyze text. Please try again.")) ].
Proof.
  apply (plagiarism_fallback_on_invalid_json
           (answers (Some (py "Sorry, I cannot do that."))) no_text sample_limits
           (py "Some essay.") None empty_state (py "Sorry, I cannot do that.")).
  - reflexivity.
  - repeat constructor.
  - split; [vm_compute; lia | vm_compute; reflexivity].
Defined.

Lemma paraphrase_result_witness :
  fst (paraphrase (answers (Some (py "  Good day.  "))) no_text
         (py "hello") (py "Formal") None empty_state)
  = inr [ (py "original_text", VStr (py "hello"));
          (py "paraphrased_text", VStr (strip (py "  Good day.  ")));
          (py "style", VStr (py "Formal")) ]
  /\ exists w1 w2,
       py "  Good day.  " = w1 ++ strip (py "  Good day.  ") ++ w2
       /\ all_space w1 /\ all_space w2
       /\ no_head is_space (strip (py "  Good day.  ")) = true
       /\ no_head is_space (rev (strip (py "  Good day.  "))) = true.
Proof.
  apply (paraphrase_result (answers (Some (py "  Good day.  "))) no_text
           (py "hello") (py "Formal") None empty_state (py "  Good day.  ")).
  reflexivity.
Defined.

Lemma unfenced_text_witness :
  _extract_json no_text sample_limits (Some (py "[1, 2]"))
  = match json_loads sample_limits (py "[1, 2]") with
    | inr v => inr v
    | inl c => inl (runtime_error no_text c (VStr (py "[1, 2]")))
    end
  /\ (forall c, json_loads sample_limits (py "[1, 2]") = inl c ->
      c = JSONDecodeError \/ c = RecursionError \/ c = ValueError)
  /\ (within_limits sample_limits (py "[1, 2]") ->
      forall c, json_loads sample_limits (py "[1, 2]") = inl c ->
      c = JSONDecodeError).
Proof.
  apply (unfenced_text_is_parsed no_text sample_limits (py "[1, 2]")).
  intros H. apply str_contains_spec in H. vm_compute in H. discriminate H.
Defined.

Lemma untagged_block_witness :
  _extract_json no_text sample_limits
    (Some (py "Result: " ++ fence ++ pyq " {^a^: 1} " ++ fence ++ py " done"))
  = inr (VDict [(py "a", VInt 1)]).
Proof.
  apply (untagged_block_roundtrip no_text sample_limits (pyq " {^a^: 1} ")
           [(py "a", VInt 1)] (py "Result: ") (py " done")).
  - vm_compute. reflexivity.
  - intros H. apply str_contains_spec in H. vm_compute in H. discriminate H.
  - vm_compute. repeat (constructor; [discriminate |]). constructor.
  - intros H. apply str_contains_spec in H. vm_compute in H. discriminate H.
Defined.

Lemma block_candidate_witness :
  occurs (py "{}") (py "Here: ``` {} ``` ok")
  /\ ~ occurs fence (py "{}")
  /\ no_head is_space (py "{}") = true
  /\ no_head is_space (rev (py "{}")) = true.
Proof.
  apply (block_candidate_is_clean (py "```") (py "Here: ``` {} ``` ok") (py "{}")).
  vm_compute. reflexivity.
Defined.

Lemma video_id_clean_witness :
  py "abc123" <> []
  /\ Forall (fun c => id_char c = true) (py "abc123")
  /\ (exists a rest,
        py "https://youtu.be/abc123?t=5" = a ++ py "abc123" ++ rest
        /\ no_head id_char rest = true)
  /\ occurs (py "youtu") (py "https://youtu.be/abc123?t=5").
Proof.
  apply (video_id_is_clean (py "https://youtu.be/abc123?t=5") (py "abc123")).
  vm_compute. reflexivity.
Defined.

Lemma video_id_roundtrip_witness :
  extract_video_id
    (py "https://www." ++ py "youtube.com/embed/" ++ py "abc123" ++ py "?rel=0")
  = Some (py "abc123").
Proof.
  apply (video_id_roundtrip (py "youtube.com/embed/") (py "https://www.")
           (py "abc123") (py "?rel=0")).
  - right. right. left. reflexivity.
  - intros H. apply str_contains_spec in H. vm_compute in H. discriminate H.
  - discriminate.
  - vm_compute. repeat (constructor; [reflexivity |]). constructor.
  - reflexivity.
Defined.

Lemma video_id_parameters_witness :
  extract_video_id
    (py "https://www." ++ py "youtube.com/watch?" ++ py "feature=share"
     ++ py "&v=" ++ py "abc123" ++ py "#top")
  = Some (py "abc123").
Proof.
  apply (video_id_behind_parameters (py "https://www.") (py "feature=share")
           (py "abc123") (py "#top")).
  - intros H. apply str_contains_spec in H. vm_compute in H. discriminate H.
  - reflexivity.
  - vm_compute. repeat (constructor; [discriminate |]). constructor.
  - intros H. apply str_contains_spec in H. vm_compute in H. discriminate H.
  - intros H. apply str_contains_spec in H. vm_compute in H. discriminate H.
  - discriminate.
  - vm_compute. repeat (constructor; [reflexivity |]). constructor.
  - reflexivity.
Defined.

Lemma transcript_error_witness :
  exists msg,
    get_youtube_transcript
      (fun _ => inl (Exn OtherError (py "No transcript found"))) (py "abc123")
    = only_error msg
    /\ (is_import_error (Exn OtherError (py "No transcript found")) = true ->
        msg = py "youtube-transcript-api is not installed. Please run: pip install youtube-transcript-api")
    /\ (is_import_error (Exn OtherError (py "No transcript found")) = false ->
        occurs (py "Could not retrieve")
          (exn_str (Exn OtherError (py "No transcript found")))
        \/ occurs (py "No transcript")
             (exn_str (Exn OtherError (py "No transcript found")))
        \/ occurs (py "TranscriptsDisabled")
             (exn_str (Exn OtherError (py "No transcript found"))) ->
        msg = py "No transcript available for this video. The video might not have captions enabled.")
    /\ (is_import_error (Exn OtherError (py "No transcript found")) = false ->
        ~ occurs (py "Could not retrieve")
            (exn_str (Exn OtherError (py "No transcript found"))) ->
        ~ occurs (py "No transcript")
            (exn_str (Exn OtherError (py "No transcript found"))) ->
        ~ occurs (py "TranscriptsDisabled")
            (exn_str (Exn OtherError (py "No transcript found"))) ->
        msg = py "Error getting transcript: "
              ++ exn_str (Exn OtherError (py "No transcript found"))).
Proof.
  apply (transcript_error_message
           (fun _ => inl (Exn OtherError (py "No transcript found")))
           (py "abc123") (Exn OtherError (py "No transcript found"))).
  reflexivity.
Defined.

Lemma summarize_video_nothing_witness :
  exists msg,
    summarize_video (answers (Some (py "unused"))) no_text
      (fun _ => inl (Exn OtherError (py "No transcript found"))) (Some tt)
      (py "abc123") empty_state
    = (inr (only_error msg), empty_state)
    /\ (Some tt = None ->
        msg = py "Groq service not initialized. Please check your API key.")
    /\ (Some tt <> None ->
        get_youtube_transcript
          (fun _ => inl (Exn OtherError (py "No transcript found"))) (py "abc123")
        = only_error msg).
Proof.
  apply (summarize_video_sends_nothing (answers (Some (py "unused"))) no_text
           (fun _ => inl (Exn OtherError (py "No transcript found"))) (Some tt)
           (py "abc123") empty_state).
  right. eexists. reflexivity.
Defined.

Lemma empty_completion_witness :
  fst (check_grammar (answers None) no_text sample_limits (py "hi") None
         empty_state)
  = inr (only_error (no_text TypeError VNone))
  /\ fst (check_plagiarism (answers None) no_text sample_limits (py "hi") None
            empty_state)
     = inr (only_error (no_text TypeError VNone))
  /\ fst (paraphrase (answers None) no_text (py "hi") (py "Formal") None
            empty_state)
     = inr (only_error (no_text AttributeError VNone))
  /\ fst (summarize_youtube (answers None) (py "words") [] None empty_state)
     = inr [ (py "summary", VNone);
             (py "title", VStr (str_or (Some []) (py "YouTube Video Summary"))) ]
  /\ fst (analyze_image (answers None) (py "http://x/y.png") (py "What is it?")
            None empty_state)
     = inr [ (py "analysis", VNone) ].
Proof.
  apply (empty_completion_outcome (answers None) no_text sample_limits (py "hi")
           (py "Formal")
           (py "words") [] (py "http://x/y.png") (py "What is it?") None
           empty_state).
  reflexivity.
Defined.

Lemma chat_turn_witness :
  exists kw reply st',
    on_send (answers (Some (py "fine"))) no_text (fun _ => []) (Some tt) 4 true
      (py "and you?") (mkSession 0 true) talking_state
    = Some (inr tt, mkSession 0 true, st')
    /\ heap st' !! 0%nat
       = Some (two_turns
               ++ [ role_message (py "user") (VStr (py "and you?"));
                    role_message (py "assistant") reply ])
    /\ Forall has_role_content
         (two_turns
          ++ [ role_message (py "user") (VStr (py "and you?"));
               role_message (py "assistant") reply ])
    /\ sent st' = sent talking_state ++ [kw]
    /\ dict_get (py "messages") kw
       = Some (VList
                 (role_message (py "system") (VStr system_prompt)
                  :: map entry_copy two_turns
                  ++ [ role_message (py "user") (VStr (py "and you?"));
                       role_message (py "user") (VStr (py "and you?")) ]))
    /\ reply = match answers (Some (py "fine")) kw with
               | inl e => VStr (py "Error: " ++ wrapped e)
               | inr content => opt_str content
               end.
Proof.
  apply (chat_turn (answers (Some (py "fine"))) no_text (fun _ => []) 4
           (py "and you?") (mkSession 0 true) talking_state two_turns).
  - vm_compute. reflexivity.
  - constructor; [now eexists _, _, _ |].
    constructor; [now eexists _, _, _ |]. constructor.
  - reflexivity.
  - discriminate.
  - simpl. lia.
Defined.

Lemma chat_turn_without_service_witness :
  exists st',
    on_send (answers (Some (py "fine"))) no_text (fun _ => []) None 0 true
      (py "and you?") (mkSession 0 true) talking_state
    = Some (inr tt, mkSession 0 true, st')
    /\ heap st' !! 0%nat
       = Some (two_turns
               ++ [ role_message (py "user") (VStr (py "and you?"));
                    role_message (py "assistant") (VStr no_service_text) ])
    /\ sent st' = sent talking_state.
Proof.
  apply (chat_turn_without_service (answers (Some (py "fine"))) no_text
           (fun _ => []) 0 (py "and you?") (mkSession 0 true) talking_state
           two_turns).
  - vm_compute. reflexivity.
  - reflexivity.
  - discriminate.
Defined.

Lemma transport_failure_witness :
  fst (check_grammar (fails (Exn OtherError (py "connection refused"))) no_text
         sample_limits (py "hi") None talking_state)
  = inr (only_error (py "Groq API error: "
                     ++ exn_str (Exn OtherError (py "connection refused"))))
  /\ fst (check_plagiarism (fails (Exn OtherError (py "connection refused")))
            no_text sample_limits (py "hi") None talking_state)
     = inr (only_error (py "Groq API error: "
                        ++ exn_str (Exn OtherError (py "connection refused"))))
  /\ fst (paraphrase (fails (Exn OtherError (py "connection refused"))) no_text
            (py "hi") (py "Formal") None talking_state)
     = inr (only_error (py "Groq API error: "
                        ++ exn_str (Exn OtherError (py "connection refused"))))
  /\ fst (summarize_youtube (fails (Exn OtherError (py "connection refused")))
            (py "words") [] None talking_state)
     = inr (only_error (py "Groq API error: "
                        ++ exn_str (Exn OtherError (py "connection refused"))))
  /\ exists st',
       chat (fails (Exn OtherError (py "connection refused"))) 3 (py "and you?")
         (Some 0%nat) None talking_state
       = Some (inr (only_error
                      (py "Groq API error: "
                       ++ exn_str (Exn OtherError (py "connection refused")))),
               st').
Proof.
  apply (transport_failure_is_reported
           (fails (Exn OtherError (py "connection refused"))) no_text
           sample_limits
           (Exn OtherError (py "connection refused")) (py "hi") (py "Formal")
           (py "words") [] 3 (py "and you?") (Some 0%nat) two_turns None
           talking_state).
  - reflexivity.
  - vm_compute. reflexivity.
  - simpl. lia.
Defined.
